(** * Map-segmentation helpers: a shallow embedding and its properties

    Source files embedded here:
    - [ITUNotebooks/helperFunctions/AMS/segmentation.py]
      ([loadImages], [privatePropertyFiltering], [structureFiltering],
      [routeAndVegFiltering], [segmentAM], [segmentAM_noStructures]);
    - [ITUNotebooks/helperFunctions/AMS/API.py] (the five WMS fetchers);
    - [ITUNotebooks/helperFunctions/dataprepDataforsyningen.py]
      ([tileSysConv], [getTiles]);
    - [ITUNotebooks/helperFunctions/dataprepGoogle.py] and
      [ITUNotebooks/helperFunctions/dataprepMapBox.py]
      ([deg2tileNum], [getTiles]);
    - [ITUNotebooks/helperFunctions/evaluation.py] ([compare]).

    Numpy arrays that the code mutates in place live in an explicit store
    and are passed by reference; OpenCV routines whose numerics are not part
    of the repository (colour conversion, Otsu level, morphology, contour
    tracing, polygon filling, blurs) are fields of an interface record. *)

From Stdlib Require Import ZArith QArith Lia Ascii.
From stdpp Require Import base list vector fin gmap strings pretty.

Open Scope Z_scope.

(** ** Rationals standing for Python floats

    The only floats the code compares are quotients of pixel counts and
    contour areas (multiples of one half).  They are modelled as exact
    rationals: for counts below 2^31 a correctly rounded quotient lies on
    the same side of the literals [0.001] and [0.10] as the exact one, and
    equals the literal exactly when the exact quotient does. *)

Definition Qltb (a b : Q) : bool := negb (Qle_bool b a).

(** ** Rasters

    A raster is a numpy array of a fixed shape [(H, W)] (rows, columns);
    colour rasters hold a BGR triple per position.  All layers of one run
    share [H] and [W]: the pipeline has no resampling step and OpenCV
    rejects mixed sizes, so the shape is part of the type. *)

Abbreviation raster H W A := (vec (vec A W) H).

(** BGR (or HSV) channels of one 8-bit colour pixel, as Python writes them:
    [(c0, c1, c2)]. *)
Definition pixel : Type := Z * Z * Z.

Definition green : pixel := (0, 255, 0).
Definition red : pixel := (0, 0, 255).
Definition white : pixel := (255, 255, 255).

Section Raster.
Context {H W : nat}.
Local Abbreviation img A := (raster H W A).

Definition px {A} (r : img A) (i : fin H) (j : fin W) : A := (r !!! i) !!! j.

Definition tabulate {A} (f : fin H -> fin W -> A) : img A :=
  fun_to_vec (fun i => fun_to_vec (f i)).

Definition rmap {A B} (f : A -> B) (r : img A) : img B :=
  tabulate (fun i j => f (px r i j)).

Definition rzip {A B C} (f : A -> B -> C) (a : img A) (b : img B) : img C :=
  tabulate (fun i j => f (px a i j) (px b i j)).

(** All elements, row by row. *)
Definition elements_of {A} (r : img A) : list A :=
  mjoin (vec_to_list <$> vec_to_list r).

(** [np.zeros_like(a)] for a single-channel target. *)
Definition zeros_like {A} (_ : img A) : img Z := tabulate (fun _ _ => 0).

(** [np.zeros_like(a)] followed by [a[:] = c] for a colour target. *)
Definition solid {A} (_ : img A) (c : pixel) : img pixel :=
  tabulate (fun _ _ => c).

(** [~a] and [cv2.bitwise_not(a)] on uint8. *)
Definition bitwise_not (a : img Z) : img Z := rmap (fun x => Z.lxor x 255) a.

Definition bitwise_and (a b : img Z) : img Z := rzip Z.land a b.
Definition bitwise_or (a b : img Z) : img Z := rzip Z.lor a b.

Definition pixel_land (p q : pixel) : pixel :=
  let '(p0, p1, p2) := p in
  let '(q0, q1, q2) := q in
  (Z.land p0 q0, Z.land p1 q1, Z.land p2 q2).

(** [cv2.bitwise_and(a, b, mask=m)] with a freshly allocated destination:
    positions where the mask is zero stay zero. *)
Definition bitwise_and_mask (a b : img pixel) (m : img Z) : img pixel :=
  tabulate (fun i j =>
    if decide (px m i j = 0) then (0, 0, 0)
    else pixel_land (px a i j) (px b i j)).

Definition in_bounds (lo hi p : pixel) : bool :=
  let '(l0, l1, l2) := lo in
  let '(h0, h1, h2) := hi in
  let '(p0, p1, p2) := p in
  (l0 <=? p0) && (p0 <=? h0) && (l1 <=? p1) && (p1 <=? h1)
    && (l2 <=? p2) && (p2 <=? h2).

(** [cv2.inRange(src, lo, hi)] with integer bounds. *)
Definition inRange (src : img pixel) (lo hi : pixel) : img Z :=
  rmap (fun p => if in_bounds lo hi p then 255 else 0) src.

(** [cv2.countNonZero(m)]. *)
Definition countNonZero (m : img Z) : Z :=
  Z.of_nat (length (filter (fun x => x <> 0) (elements_of m))).

(** [cv2.threshold(src, t, maxval, cv2.THRESH_BINARY)]. *)
Definition threshold_binary (t maxval : Z) (src : img Z) : img Z :=
  rmap (fun x => if t <? x then maxval else 0) src.

(** [m == k], elementwise. *)
Definition eq_scalar (m : img Z) (k : Z) : img bool :=
  rmap (fun x => bool_decide (x = k)) m.

(** [(a == c).all(axis=2)]. *)
Definition eq_pixel (a : img pixel) (c : pixel) : img bool :=
  rmap (fun p => bool_decide (p = c)) a.

(** [a[cond] = c], and [a[np.where(cond)] = c]. *)
Definition assign_where (cond : img bool) (c : pixel) (a : img pixel)
  : img pixel :=
  tabulate (fun i j => if px cond i j then c else px a i j).

(** [cv2.drawContours(a, [contour], -1, c, cv2.FILLED)], given the set of
    positions the polygon fill covers. *)
Definition fill_region {A} (inside : fin H -> fin W -> bool) (c : A)
    (a : img A) : img A :=
  tabulate (fun i j => if inside i j then c else px a i j).

End Raster.

(** ** Python-level effects: store, files, exceptions

    Colour arrays are objects in a store and are handed around as
    references: [a.copy()] and the OpenCV calls that return an array
    allocate, [cv2.drawContours(a, ..)] and [a[..] = c] update in place.
    Single-channel arrays never leave the call that creates them (masks,
    binarised layers); they are bound as values, a mask drawn on
    [np.zeros_like(..)] included. *)

(** The exceptions the embedded code can meet.  [DanglingReference] has no
    Python counterpart: it is what reading a reference that is not in the
    store gives, which no Python caller can produce. *)
Inductive exn : Type :=
  | ZeroDivisionError
  | IndexError
  | RequestException (msg : string)
  | DanglingReference.

Inductive result (A : Type) : Type :=
  | Ok (a : A)
  | Raise (e : exn).
Arguments Ok {A} a.
Arguments Raise {A} e.

(** A reference to a colour array in the store. *)
Definition loc : Type := nat.

(** What [cv2.imwrite] is handed: a colour or a single-channel raster. *)
Inductive image (H W : nat) : Type :=
  | BGR (r : raster H W pixel)
  | GRAY (r : raster H W Z).
Arguments BGR {H W} r.
Arguments GRAY {H W} r.

Record world (H W : nat) : Type := World {
  heap : list (raster H W pixel);
  disk : gmap string (image H W)
}.
Arguments World {H W} heap disk.
Arguments heap {H W} w.
Arguments disk {H W} w.

(** Python function objects that the pipeline hands back. *)
Inductive funobj : Type :=
  | Fn_segmentAM
  | Fn_segmentAM_noStructures.

(** A contour as [cv2.findContours] returns it: its points [(x, y)]. *)
Definition contour : Type := list (Z * Z).

Inductive morph_shape : Type := MORPH_RECT | MORPH_ELLIPSE.

(** A structuring element: rows of 0/1 entries. *)
Definition kernel : Type := list (list Z).

(** [np.ones((n, m), np.uint8)]. *)
Definition np_ones (n m : nat) : kernel := replicate n (replicate m 1).

(** The OpenCV routines the pipeline calls and whose numerics are outside
    the repository. *)
Class Cv2 (H W : nat) : Type := {
  cvtColor_BGR2GRAY : raster H W pixel -> raster H W Z;
  cvtColor_BGR2HSV : raster H W pixel -> raster H W pixel;
  (** the level [cv2.threshold(.., cv2.THRESH_OTSU)] selects *)
  otsu : raster H W Z -> Z;
  getStructuringElement : morph_shape -> nat -> nat -> kernel;
  dilate : raster H W Z -> kernel -> raster H W Z;
  erode : raster H W Z -> kernel -> raster H W Z;
  morphologyEx_OPEN : raster H W Z -> kernel -> raster H W Z;
  morphologyEx_CLOSE : raster H W Z -> kernel -> raster H W Z;
  (** [cv2.findContours(m, cv2.RETR_TREE, cv2.CHAIN_APPROX_NONE)[0]] *)
  findContours : raster H W Z -> list contour;
  contourArea : contour -> Q;
  (** positions covered by [cv2.drawContours(.., [c], -1, .., cv2.FILLED)] *)
  filled : contour -> fin H -> fin W -> bool;
  (** positions covered by [cv2.drawContours(.., cs, -1, .., 1)] *)
  outlined : list contour -> fin H -> fin W -> bool;
  medianBlur : raster H W pixel -> Z -> raster H W pixel;
  medianBlur_gray : raster H W Z -> Z -> raster H W Z;
  bilateralFilter : raster H W pixel -> Z -> Z -> Z -> raster H W pixel;
  addWeighted :
    raster H W pixel -> Q -> raster H W pixel -> Q -> Q -> raster H W pixel;
  (** [cv2.inRange] with bounds that are not integers *)
  inRange_real : raster H W pixel -> Q * Q * Q -> Q * Q * Q -> raster H W Z
}.

Section Effects.
Context {H W : nat}.

Definition M (A : Type) : Type := world H W -> result A * world H W.

Definition ret {A} (a : A) : M A := fun w => (Ok a, w).

Definition bind {A B} (m : M A) (k : A -> M B) : M B :=
  fun w =>
    match m w with
    | (Ok a, w') => k a w'
    | (Raise e, w') => (Raise e, w')
    end.

Definition raise {A} (e : exn) : M A := fun w => (Raise e, w).

(** A new array object. *)
Definition alloc (v : raster H W pixel) : M loc :=
  fun w => (Ok (length (heap w)), World (heap w ++ [v]) (disk w)).

(** Reading the array behind a reference. *)
Definition load (l : loc) : M (raster H W pixel) :=
  fun w =>
    match heap w !! l with
    | Some v => (Ok v, w)
    | None => (Raise DanglingReference, w)
    end.

(** In-place update of the array behind a reference. *)
Definition update (l : loc) (f : raster H W pixel -> raster H W pixel)
  : M unit :=
  fun w =>
    match heap w !! l with
    | Some v => (Ok tt, World (<[l := f v]> (heap w)) (disk w))
    | None => (Raise DanglingReference, w)
    end.

(** [a.copy()]. *)
Definition np_copy (l : loc) : M loc := bind (load l) alloc.

(** [cv2.imwrite(path, img)]. *)
Definition imwrite (path : string) (v : image H W) : M unit :=
  fun w => (Ok tt, World (heap w) (<[path := v]> (disk w))).

(** [a / b] on Python ints. *)
Definition py_div (a b : Z) : M Q :=
  if decide (b = 0) then raise ZeroDivisionError
  else ret (inject_Z a / inject_Z b)%Q.

(** [for x in xs: body(x)]. *)
Fixpoint for_each {A} (xs : list A) (body : A -> M unit) : M unit :=
  match xs with
  | [] => ret tt
  | x :: xs' => bind (body x) (fun _ => for_each xs' body)
  end.
End Effects.

Declare Scope py_scope.
Delimit Scope py_scope with py.
Notation "x <- m ;; k" := (bind m (fun x => k))
  (at level 100, m at next level, right associativity) : py_scope.
Notation "m ;;; k" := (bind m (fun _ => k))
  (at level 100, right associativity) : py_scope.

(** ** [AMS/segmentation.py]: the filters *)

Section Segmentation.
Context {H W : nat} `{!Cv2 H W}.
Local Open Scope py_scope.
Local Abbreviation img A := (raster H W A).

(** [width * height] of [a.shape]. *)
Definition totalPixels : Z := Z.of_nat H * Z.of_nat W.

(** The list comprehension that keeps a contour when
    [contourArea(c) < totalPixels / 2 and contourArea(c) > 100]. *)
Definition keeps (c : contour) : bool :=
  Qltb (contourArea c) (inject_Z totalPixels / 2)
    && Qltb 100 (contourArea c).

Definition area_filter (contours : list contour) : list contour :=
  filter (fun c => keeps c = true) contours.

(** [np.zeros_like(g)] then [cv2.drawContours(.., [c], -1, 255, FILLED)]. *)
Definition contour_mask {A} (g : img A) (c : contour) : img Z :=
  fill_region (filled c) 255 (zeros_like g).

(** Body of the loop of [privatePropertyFiltering] (lines 67-89). *)
Definition ppf_body (boundariesGrey : img Z) (boundariesImage routesImage : loc)
    (c : contour) : M unit :=
  let contourMask := contour_mask boundariesGrey c in
  routes <- load routesImage ;;
  let boundariesRegion := bitwise_and_mask routes routes contourMask in
  let greenMask := inRange boundariesRegion (0, 150, 0) (30, 255, 30) in
  let greenMaskPixelCount := countNonZero greenMask in
  let color :=
    if 0 <? greenMaskPixelCount then (0, 255, 0) else (0, 0, 255) in
  update boundariesImage (fill_region (filled c) color).

Definition lowerGreen : pixel := (40, 40, 40).
Definition upperGreen : pixel := (80, 255, 255).

Definition privatePropertyFiltering
    (amBaseMap boundariesImage routesImage : loc) (pathResult : string)
  : M loc :=
  amBaseMap <- np_copy amBaseMap ;;
  boundariesImage <- np_copy boundariesImage ;;
  routesImage <- np_copy routesImage ;;
  boundaries <- load boundariesImage ;;
  let boundariesGrey := cvtColor_BGR2GRAY boundaries in
  let boundariesBinary :=
    threshold_binary (otsu boundariesGrey) 255 boundariesGrey in
  imwrite (pathResult +:+ "/subresults/001_Boundary.png")
    (GRAY boundariesBinary) ;;;
  let kernel := getStructuringElement MORPH_RECT 2 2 in
  let boundariesBinary := bitwise_not boundariesBinary in
  let boundariesBinary := dilate boundariesBinary kernel in
  let boundariesBinary := bitwise_not boundariesBinary in
  imwrite (pathResult +:+ "/subresults/002_Boundary_dialated.png")
    (GRAY boundariesBinary) ;;;
  let contours := findContours boundariesBinary in
  let contours := area_filter contours in
  for_each contours (ppf_body boundariesGrey boundariesImage routesImage) ;;;
  drawn <- load boundariesImage ;;
  imwrite (pathResult +:+ "/subresults/003_Boundary_Contour.png")
    (BGR drawn) ;;;
  let blurred := medianBlur drawn 7 in
  imwrite (pathResult +:+ "/subresults/004_Boundary_Contour_Blurred.png")
    (BGR blurred) ;;;
  let hsv := cvtColor_BGR2HSV blurred in
  let contourMask := inRange hsv lowerGreen upperGreen in
  let filteredBoundaries := bitwise_not contourMask in
  update amBaseMap (assign_where (eq_scalar filteredBoundaries 255) (0, 0, 255)) ;;;
  result <- load amBaseMap ;;
  imwrite (pathResult +:+ "/subresults/005_Result.png") (BGR result) ;;;
  ret amBaseMap.

Definition lowerYellow : pixel := (10, 50, 50).
Definition upperYellow : pixel := (60, 255, 255).

Definition structureFiltering (amDetailed structures : loc)
    (pathResult : string) : M loc :=
  amDetailed <- np_copy amDetailed ;;
  structures <- np_copy structures ;;
  structuresV <- load structures ;;
  let amWithRoadsHSV := cvtColor_BGR2HSV structuresV in
  let mask := inRange amWithRoadsHSV lowerYellow upperYellow in
  let redSolidMask := solid structuresV (0, 0, 255) in
  let redMask := bitwise_and_mask redSolidMask redSolidMask mask in
  imwrite (pathResult +:+ "/subresults/006_Structures_Redmask.png")
    (BGR redMask) ;;;
  update amDetailed (assign_where (eq_pixel redMask (0, 0, 255)) (0, 0, 255)) ;;;
  result <- load amDetailed ;;
  imwrite (pathResult +:+ "/subresults/007_Structures_Removed.png")
    (BGR result) ;;;
  ret amDetailed.

(** Body of the loop of [routeAndVegFiltering] (lines 269-310). *)
Definition rvf_body (binaryImage green_mask : img Z) (amBaseMap : loc)
    (c : contour) : M unit :=
  let contourMask := contour_mask binaryImage c in
  let region := bitwise_and binaryImage contourMask in
  let totalPixelCount := countNonZero contourMask in
  let whitePixelCount := countNonZero region in
  ratio <- py_div whitePixelCount totalPixelCount ;;
  if Qltb (1 # 1000) ratio then
    update amBaseMap (fill_region (filled c) (0, 0, 255))
  else
    let contourMask := contour_mask green_mask c in
    let region := bitwise_and green_mask contourMask in
    let greenPixelCount := countNonZero region in
    greenCoverage <- py_div greenPixelCount totalPixelCount ;;
    if Qltb (1 # 10) greenCoverage then
      update amBaseMap (fill_region (filled c) (0, 0, 255))
    else ret tt.

Definition brown_lower : pixel := (200, 215, 230).
Definition brown_upper : pixel := (210, 230, 240).
Definition green_lower : pixel := (205, 230, 210).
Definition green_upper : pixel := (220, 255, 235).
Definition blue_lower : pixel := (250, 235, 215).
Definition blue_upper : pixel := (255, 245, 225).

(** [np.array([85 / 2, 2 * 2.5, 2 * 2.5])] and
    [np.array([145 / 2, 100 * 2.5, 100 * 2.5])]. *)
Definition lower_green : Q * Q * Q := (85 # 2, 5, 5)%Q.
Definition upper_green : Q * Q * Q := (145 # 2, 250, 250)%Q.

Definition routeAndVegFiltering (amBaseMap routesImage satellite : loc)
    (pathResult : string) : M (img Z) :=
  amBaseMap <- np_copy amBaseMap ;;
  routesImage <- np_copy routesImage ;;
  base <- load amBaseMap ;;
  let brown_mask := inRange base brown_lower brown_upper in
  let green_mask := inRange base green_lower green_upper in
  let blue_mask := inRange base blue_lower blue_upper in
  let combined_mask := bitwise_or brown_mask green_mask in
  let combined_mask := bitwise_or combined_mask blue_mask in
  imwrite (pathResult +:+ "/subresults/008_Filtering_Blue_Mask.png")
    (GRAY blue_mask) ;;;
  imwrite (pathResult +:+ "/subresults/009_Filtering_Brown_Mask.png")
    (GRAY brown_mask) ;;;
  imwrite (pathResult +:+ "/subresults/010_Filtering_Green_Mask.png")
    (GRAY green_mask) ;;;
  imwrite (pathResult +:+ "/subresults/011_Filtering_Combined_Mask.png")
    (GRAY combined_mask) ;;;
  let non_matching_pixels_mask := bitwise_not combined_mask in
  update amBaseMap
    (assign_where (eq_scalar non_matching_pixels_mask 0) (255, 255, 255)) ;;;
  base <- load amBaseMap ;;
  imwrite (pathResult +:+ "/subresults/012_Filtering_Result.png")
    (BGR base) ;;;
  amBaseMap <- alloc (bilateralFilter base 5 255 255) ;;
  base <- load amBaseMap ;;
  imwrite (pathResult +:+ "/subresults/013_Filtering_Noise_Reduced.png")
    (BGR base) ;;;
  let amBaseMapGrey := cvtColor_BGR2GRAY base in
  let amBaseMapBinary := threshold_binary 245 255 amBaseMapGrey in
  imwrite (pathResult +:+ "/subresults/014_Filtering_Binary.png")
    (GRAY amBaseMapBinary) ;;;
  let amBaseMapBinary := bitwise_not amBaseMapBinary in
  let kernel := getStructuringElement MORPH_ELLIPSE 2 2 in
  let amBaseMapBinary := dilate amBaseMapBinary kernel in
  let amBaseMapBinary := bitwise_not amBaseMapBinary in
  imwrite (pathResult +:+ "/subresults/015_Enhanced_Lines.png")
    (GRAY amBaseMapBinary) ;;;
  let contours := findContours amBaseMapBinary in
  let contours := area_filter contours in
  routes <- load routesImage ;;
  let grey_image := cvtColor_BGR2GRAY routes in
  let binaryImage := threshold_binary 240 255 grey_image in
  let binaryImage := bitwise_not binaryImage in
  imwrite (pathResult +:+ "/subresults/016_Routes_Binary.png")
    (GRAY binaryImage) ;;;
  sat <- load satellite ;;
  let satellite_hsv := cvtColor_BGR2HSV sat in
  let green_mask := inRange_real satellite_hsv lower_green upper_green in
  imwrite (pathResult +:+ "/subresults/017_1_Satellite_Green_Mask.png")
    (GRAY green_mask) ;;;
  let kernel := np_ones 5 5 in
  let green_mask := erode green_mask kernel in
  imwrite (pathResult +:+ "/subresults/017_2_Satellite_Green_Mask_Reduced.png")
    (GRAY green_mask) ;;;
  for_each contours (rvf_body binaryImage green_mask amBaseMap) ;;;
  amBaseMap_with_contours <- np_copy amBaseMap ;;
  with_contours <- load amBaseMap_with_contours ;;
  routes <- load routesImage ;;
  let overlay := addWeighted with_contours (1 - (1 # 2)) routes (1 # 2) 0 in
  imwrite (pathResult +:+ "/subresults/018_AM_Roads_Overlay.png")
    (BGR overlay) ;;;
  update amBaseMap_with_contours (fill_region (outlined contours) (0, 255, 0)) ;;;
  with_contours <- load amBaseMap_with_contours ;;
  imwrite (pathResult +:+ "/subresults/019_AM_Contours.png")
    (BGR with_contours) ;;;
  base <- load amBaseMap ;;
  let amBaseMap_grey := cvtColor_BGR2GRAY base in
  let binaryImage :=
    threshold_binary (otsu amBaseMap_grey) 255 amBaseMap_grey in
  let binaryImage := bitwise_not binaryImage in
  imwrite (pathResult +:+ "/subresults/020_AM_Binary.png")
    (GRAY binaryImage) ;;;
  let kernel := np_ones 4 4 in
  let binaryReducedStage1 := morphologyEx_OPEN binaryImage kernel in
  let binaryReducedStage1 := morphologyEx_CLOSE binaryReducedStage1 kernel in
  let binaryReducedStage2 := binaryReducedStage1 in
  let binaryReducedStage2 := medianBlur_gray binaryReducedStage2 15 in
  imwrite (pathResult +:+ "/subresults/021_AM_Reduced_1.png")
    (GRAY binaryReducedStage1) ;;;
  imwrite (pathResult +:+ "/subresults/021_AM_Reduced_2.png")
    (GRAY binaryReducedStage2) ;;;
  ret binaryReducedStage2.

Definition segmentAM
    (amBaseMap amWithRoads boundariesImage routesImage satellite : loc)
    (pathResult : string) : M funobj :=
  amDetailed <-
    privatePropertyFiltering amBaseMap boundariesImage routesImage pathResult ;;
  amDetailed <-
    routeAndVegFiltering amDetailed routesImage satellite pathResult ;;
  imwrite (pathResult +:+ "/segmented.jpg") (GRAY amDetailed) ;;;
  ret Fn_segmentAM.

Definition segmentAM_noStructures
    (amBaseMap structures boundaries routes ortofoto : loc)
    (pathResultNoStructures : string) : M funobj :=
  amDetailed <-
    privatePropertyFiltering amBaseMap boundaries routes
      pathResultNoStructures ;;
  amDetailed <-
    structureFiltering amDetailed structures pathResultNoStructures ;;
  amDetailed <-
    routeAndVegFiltering amDetailed routes ortofoto pathResultNoStructures ;;
  imwrite (pathResultNoStructures +:+ "/segmented.jpg") (GRAY amDetailed) ;;;
  ret Fn_segmentAM.
End Segmentation.

Arguments totalPixels H W : clear implicits.

(** ** [AMS/segmentation.py]: [loadImages]

    [cv2.imread] hands back [None] when the file is absent or cannot be
    decoded; the files are bytes on disk and decoding is the library's. *)

Section Loader.
Context {Img : Type}.
Variable decode : list Byte.byte -> option Img.

Definition imread (files : gmap string (list Byte.byte)) (path : string)
  : option Img :=
  match files !! path with
  | Some bytes => decode bytes
  | None => None
  end.

Definition loadImages (files : gmap string (list Byte.byte))
    (pathMaps : string)
  : option Img * option Img * option Img * option Img * option Img :=
  let am_withRoads := imread files (pathMaps +:+ "/AM_with_roads.png") in
  let boundaries := imread files (pathMaps +:+ "/boundaries.png") in
  let routes := imread files (pathMaps +:+ "/routes.png") in
  let amBaseMap := imread files (pathMaps +:+ "/AM_Detailed.png") in
  let satellite := imread files (pathMaps +:+ "/satellite.png") in
  (am_withRoads, boundaries, routes, amBaseMap, satellite).
End Loader.

(** ** [AMS/API.py] and [dataprepDataforsyningen.py]: the fetchers *)

(** What [requests.get] comes back with: a response, or an exception of
    the [requests] library (connection failure and the like). *)
Inductive http_outcome : Type :=
  | Response (status_code : Z) (content : list Byte.byte)
  | Failed (e : string).

(** What [requests.get(url, headers=.., stream=True)] comes back with.  The
    request itself can fail.  Otherwise a response arrives with its status,
    and its body is read afterwards, chunk by chunk, by
    [response.iter_content(1024)]: [chunks] are the chunks that arrive, and
    [broken] is the exception of the [requests] library that ends the
    reading early, if one does. *)
Inductive stream_outcome : Type :=
  | Streamed (status_code : Z) (chunks : list (list Byte.byte))
      (broken : option string)
  | StreamFailed (e : string).

(** What [int(..)] on a float, [math.tan(..)] and [1 << zoom] can raise:
    [int] of nan and the shift by a negative count raise [ValueError],
    [int] of inf raises [OverflowError]. *)
Inductive num_error : Type :=
  | ValueError
  | OverflowError.

(** The part of the machine the fetchers touch: files and printed lines. *)
Record os : Type := Os {
  fs : gmap string (list Byte.byte);
  stdout : list string
}.

(** [sep.join(parts)]. *)
Fixpoint str_join (sep : string) (parts : list string) : string :=
  match parts with
  | [] => EmptyString
  | [s] => s
  | s :: rest => s +:+ sep +:+ str_join sep rest
  end.

(** [print(a, b, ..)]: one line, arguments separated by a blank. *)
Definition print (args : list string) (o : os) : os :=
  Os (fs o) (stdout o ++ [str_join " " args]).

(** [with open(name, "wb") as e: e.write(content)]. *)
Definition write_file (name : string) (content : list Byte.byte) (o : os) : os :=
  Os (<[name := content]> (fs o)) (stdout o).

(** [open(name, "wb")]: the file is there and empty. *)
Definition open_wb (name : string) (o : os) : os :=
  Os (<[name := []]> (fs o)) (stdout o).

(** [f.write(chunk)] on the file opened under [name]. *)
Definition f_write (name : string) (chunk : list Byte.byte) (o : os) : os :=
  Os (<[name := default [] (fs o !! name) ++ chunk]> (fs o)) (stdout o).

(** [range(a, b)]. *)
Definition py_range (a b : Z) : list Z :=
  (fun k => a + Z.of_nat k) <$> seq 0 (Z.to_nat (b - a)).

Section Fetchers.
(** Python floats and their [str]. *)
Variable float : Type.
Variable str_float : float -> string.
(** [pyproj.transform(Proj(src), Proj(dst), a, b)]. *)
Variable transform : string -> string -> float -> float -> float * float.
(** [requests.get(url, params=params)]. *)
Variable requests_get : string -> list (string * string) -> http_outcome.
(** [requests.get(url, headers=headers, stream=True)] and the reading of
    the body that follows. *)
Variable requests_get_stream :
  string -> list (string * string) -> stream_outcome.
(** [int((x - xStart) / xRatio + 1)] with [xStart = 120000] and
    [xRatio = 880000 / 68750]. *)
Variable x_tile : float -> num_error + Z.
(** [int(matrixHeight - ((y - yStart) / yRatio + 1))] with
    [matrixHeight = 46875], [yStart = 5900000] and
    [yRatio = 600000 / 46875]. *)
Variable y_tile : float -> num_error + Z.
(** [str(e)] of the [HTTPError] that [raise_for_status] raises. *)
Variable str_HTTPError : Z -> string -> string.

Definition crsToSrs (min_lat min_lon max_lat max_lon : float)
  : float * float * float * float :=
  let '(min_x, min_y) := transform "EPSG:4326" "EPSG:25832" min_lat min_lon in
  let '(max_x, max_y) := transform "EPSG:4326" "EPSG:25832" max_lat max_lon in
  (min_x, min_y, max_x, max_y).

(** The query string printed by [getAMDetailed]. *)
Definition query_of (params : list (string * string)) : string :=
  str_join "&" ((fun kv => fst kv +:+ "=" +:+ snd kv) <$> params).

Definition getAMDetailed (min_lat min_lon max_lat max_lon : float)
    (width height : Z) (path : string) (o : os) : result unit * os :=
  let APIUrl := "https://api.dataforsyningen.dk/forvaltning2" in
  let token := "Deleted" in
  let '(min_x, min_y, max_x, max_y) :=
    crsToSrs min_lat min_lon max_lat max_lon in
  let coordinateString :=
    str_join ","
      [str_float min_x; str_float min_y; str_float max_x; str_float max_y] in
  let params :=
    [("service", "WMS"); ("request", "GetMap"); ("token", token);
     ("SERVICE", "WMS"); ("VERSION", "1.3.0"); ("FORMAT", "image/png");
     ("STYLES", EmptyString); ("TRANSPARENT", "true"); ("layers", "Basis_kort");
     ("transparent", "FALSE"); ("tiled", "true");
     ("WIDTH", pretty width); ("HEIGHT", pretty height);
     ("CRS", "EPSG:25832"); ("BBOX", coordinateString)] in
  match requests_get APIUrl params with
  | Failed e => (Raise (RequestException e), o)
  | Response status_code content =>
      if status_code =? 200 then
        (Ok tt, write_file (path +:+ "/AM_Detailed.png") content o)
      else
        let path := APIUrl +:+ "?" +:+ query_of params in
        let o := print ["Failed to fetch map. Status code:";
                        pretty status_code] o in
        (Ok tt, print ["On path:"; path] o)
  end.

Definition getAMWithRoads (min_lat min_lon max_lat max_lon : float)
    (width height : Z) (path : string) (o : os) : result unit * os :=
  let APIUrl := "https://api.dataforsyningen.dk/forvaltning2" in
  let token := "Deleted" in
  let '(min_x, min_y, max_x, max_y) :=
    crsToSrs min_lat min_lon max_lat max_lon in
  let coordinateString :=
    str_join ","
      [str_float min_x; str_float min_y; str_float max_x; str_float max_y] in
  let params :=
    [("service", "WMS"); ("request", "GetMap"); ("token", token);
     ("SERVICE", "WMS"); ("VERSION", "1.3.0"); ("FORMAT", "image/png");
     ("STYLES", EmptyString); ("TRANSPARENT", "true"); ("layers", "Adresse-byggesag");
     ("transparent", "FALSE"); ("tiled", "true");
     ("WIDTH", pretty width); ("HEIGHT", pretty height);
     ("CRS", "EPSG:25832"); ("BBOX", coordinateString)] in
  match requests_get APIUrl params with
  | Failed e => (Raise (RequestException e), o)
  | Response status_code content =>
      if status_code =? 200 then
        (Ok tt, write_file (path +:+ "/AM_with_roads.png") content o)
      else
        (Ok tt, print ["Failed to fetch roads. Status code:";
                       pretty status_code] o)
  end.

Definition getRoutes (min_lat min_lon max_lat max_lon : float)
    (width height : Z) (path : string) (o : os) : result unit * os :=
  let APIUrl := "https://geocloud.vd.dk/CVF/wms" in
  let '(min_x, min_y, man_x, max_y) :=
    crsToSrs min_lat min_lon max_lat max_lon in
  let coordinateString :=
    str_join ","
      [str_float min_x; str_float min_y; str_float man_x; str_float max_y] in
  let params :=
    [("service", "WMS"); ("request", "GetMap"); ("SERVICE", "WMS");
     ("VERSION", "1.1.1"); ("FORMAT", "image/png"); ("STYLES", EmptyString);
     ("TRANSPARENT", "false"); ("transparent", "FALSE");
     ("layers", "CVF:veje"); ("tiled", "true");
     ("WIDTH", pretty width); ("HEIGHT", pretty height);
     ("SRS", "EPSG:25832"); ("BBOX", coordinateString)] in
  match requests_get APIUrl params with
  | Failed e => (Raise (RequestException e), o)
  | Response status_code content =>
      if status_code =? 200 then
        (Ok tt, write_file (path +:+ "/routes.png") content o)
      else
        (Ok tt, print ["Failed to fetch roads. Status code:";
                       pretty status_code] o)
  end.

Definition getBoundaries (min_lat min_lon max_lat max_lon : float)
    (width height : Z) (path : string) (o : os) : result unit * os :=
  let token := "Deleted" in
  let APIUrl :=
    "https://api.dataforsyningen.dk/wms/MatGaeldendeOgForeloebigWMS_DAF" in
  let '(min_x, min_y, man_x, max_y) :=
    crsToSrs min_lat min_lon max_lat max_lon in
  let coordinateString :=
    str_join ","
      [str_float min_x; str_float min_y; str_float man_x; str_float max_y] in
  let params :=
    [("token", token); ("version", "2.0.0"); ("service", "WMS");
     ("request", "GetMap"); ("sld_version", "1.1.0");
     ("layers", "MatrikelSkel_Gaeldende"); ("FORMAT", "image/png");
     ("STYLES", "Sorte_skel"); ("SERVICE", "WMS"); ("VERSION", "1.1.1");
     ("TRANSPARENT", "false"); ("transparent", "FALSE");
     ("WIDTH", pretty width); ("HEIGHT", pretty height);
     ("SRS", "EPSG:25832"); ("BBOX", coordinateString)] in
  match requests_get APIUrl params with
  | Failed e => (Raise (RequestException e), o)
  | Response status_code content =>
      if status_code =? 200 then
        (Ok tt, write_file (path +:+ "/boundaries.png") content o)
      else
        (Ok tt, print ["Failed to fetch roads. Status code:";
                       pretty status_code] o)
  end.

Definition getSatellite (min_lat min_lon max_lat max_lon : float)
    (width height : Z) (path : string) (o : os) : result unit * os :=
  let token := "Deleted" in
  let APIUrl := "https://api.dataforsyningen.dk/orto_foraar_DAF" in
  let '(min_x, min_y, man_x, max_y) :=
    crsToSrs min_lat min_lon max_lat max_lon in
  let coordinateString :=
    str_join ","
      [str_float min_x; str_float min_y; str_float man_x; str_float max_y] in
  let params :=
    [("token", token); ("version", "1.3.0"); ("styles", "default");
     ("service", "WMS"); ("request", "GetMap"); ("sld_version", "1.1.0");
     ("layers", "orto_foraar"); ("FORMAT", "image/png");
     ("transparent", "FALSE");
     ("WIDTH", pretty width); ("HEIGHT", pretty height);
     ("CRS", "EPSG:25832"); ("BBOX", coordinateString)] in
  match requests_get APIUrl params with
  | Failed e => (Raise (RequestException e), o)
  | Response status_code content =>
      if status_code =? 200 then
        (Ok tt, write_file (path +:+ "/satellite.png") content o)
      else
        (Ok tt, print ["Failed to fetch roads. Status code:";
                       pretty status_code] o)
  end.

(** [dataprepDataforsyningen.tileSysConv]: the four tile indices are
    computed from the arguments, which raises when [int(..)] does, and are
    then dropped; the function returns fixed bounds. *)
Definition tileSysConv (x1 y1 x2 y2 : float) : num_error + (Z * Z * Z * Z) :=
  match x_tile x1 with
  | inl e => inl e
  | inr x1Tile =>
      match y_tile y1 with
      | inl e => inl e
      | inr y1Tile =>
          match x_tile x2 with
          | inl e => inl e
          | inr x2Tile =>
              match y_tile y2 with
              | inl e => inl e
              | inr y2Tile =>
                  let xMinTile := Z.min x1Tile x2Tile in
                  let xMaxTile := Z.max x1Tile x2Tile in
                  let yMinTile := Z.min y1Tile y2Tile in
                  let yMaxTile := Z.max y1Tile y2Tile in
                  inr (35479, 35489, 21566, 21571)
              end
          end
      end
  end.

(** One pass of the inner loop of [dataprepDataforsyningen.getTiles]: the
    [try] block and its [except] clause.  [raise_for_status] raises for a
    status in 400-599.  Otherwise the file is opened, which empties it, and
    the chunks of the body are written as they arrive; an exception that
    ends the reading early is caught like the others, after the chunks
    before it have been written. *)
Definition getTiles_tile (baseURL outputDir token : string)
    (headers : list (string * string)) (x y : Z) (o : os) : os :=
  let url :=
    baseURL +:+ "?token=" +:+ token
      +:+ "&layer=orto_foraar_wmts&style=default&tilematrixset=KortforsyningTilingDK&Service=WMTS&Request=GetTile&Version=1.0.0&Format=image%2Fjpeg&TileMatrix=15&TileCol="
      +:+ pretty x +:+ "&TileRow=" +:+ pretty y in
  let filePath := outputDir +:+ "/" +:+ pretty x +:+ "_" +:+ pretty y +:+ ".png" in
  match requests_get_stream url headers with
  | StreamFailed e => print ["Error downloading " +:+ url +:+ " - " +:+ e] o
  | Streamed status_code chunks broken =>
      if (400 <=? status_code) && (status_code <? 600) then
        print ["Error downloading " +:+ url +:+ " - "
                 +:+ str_HTTPError status_code url] o
      else
        let o := open_wb filePath o in
        let o := foldl (fun o chunk => f_write filePath chunk o) o chunks in
        match broken with
        | Some e => print ["Error downloading " +:+ url +:+ " - " +:+ e] o
        | None => o
        end
  end.

Definition getTiles (minXC minYC maxXC maxYC : float)
    (outputDir token : string) (o : os) : (num_error + unit) * os :=
  let baseURL := "https://api.dataforsyningen.dk/orto_foraar_wmts_DAF" in
  let userAgent := "ITU Thesis Malthe Mejdal " in
  let headers := [("User-Agent", userAgent)] in
  match tileSysConv minXC minYC maxXC maxYC with
  | inl e => (inl e, o)
  | inr (xMin, xMax, yMin, yMax) =>
      (inr tt,
       foldl (fun o x =>
                foldl (fun o y =>
                         getTiles_tile baseURL outputDir token headers x y o)
                  o (py_range yMin (yMax + 1)))
         o (py_range xMin (xMax + 1)))
  end.
End Fetchers.

(** ** [evaluation.py]: [compare] *)

Definition mask : Type := list (list Z).

Record confusion : Type := Confusion {
  resultMap : list (list pixel);
  tp : Z;
  fp : Z;
  fn : Z;
  tn : Z
}.

Record comparison : Type := Comparison {
  counts : confusion;
  precision : Q;
  recall : Q;
  accuracy : Q
}.

(** [a[i, j]] on a two-dimensional array. *)
Definition at2 {A} (a : list (list A)) (i j : nat) : option A :=
  match a !! i with
  | Some row => row !! j
  | None => None
  end.

(** [a[i, j] = c]. *)
Definition set2 {A} (a : list (list A)) (i j : nat) (c : A) : list (list A) :=
  alter (fun row => <[j := c]> row) i a.

(** [a.shape] of a two-dimensional array. *)
Definition shape2 {A} (a : list (list A)) : nat * nat :=
  (length a, match a with [] => 0%nat | row :: _ => length row end).

(** A loop whose body may raise. *)
Fixpoint fold_result {S A} (body : S -> A -> result S) (xs : list A) (s : S)
  : result S :=
  match xs with
  | [] => Ok s
  | x :: xs' =>
      match body s x with
      | Ok s' => fold_result body xs' s'
      | Raise e => Raise e
      end
  end.

(** Body of the pixel loop of [compare] (lines 282-298).  RGB colours. *)
Definition compare_pixel (shapesMask groundTruthMask : mask) (i : nat)
    (c : confusion) (j : nat) : result confusion :=
  match at2 shapesMask i j, at2 groundTruthMask i j with
  | Some shapePixel, Some gtPixel =>
      if (shapePixel =? 0) && (gtPixel =? 0) then
        Ok (Confusion (set2 (resultMap c) i j (0, 255, 0))
              (tp c + 1) (fp c) (fn c) (tn c))
      else if (shapePixel =? 0) && (0 <? gtPixel) then
        Ok (Confusion (set2 (resultMap c) i j (255, 255, 0))
              (tp c) (fp c + 1) (fn c) (tn c))
      else if (0 <? shapePixel) && (gtPixel =? 0) then
        Ok (Confusion (set2 (resultMap c) i j (255, 0, 0))
              (tp c) (fp c) (fn c + 1) (tn c))
      else
        Ok (Confusion (set2 (resultMap c) i j (0, 0, 0))
              (tp c) (fp c) (fn c) (tn c + 1))
  | _, _ => Raise IndexError
  end.

(** [n / d if d != 0 else 0]. *)
Definition ratio_or_zero (n d : Z) : Q :=
  if decide (d <> 0) then (inject_Z n / inject_Z d)%Q else 0%Q.

(** [compare] on the two decoded greyscale arrays; the record holds the
    locals the function plots and prints. *)
Definition compare (shapesMask groundTruthMask : mask) : result comparison :=
  let '(height, width) := shape2 shapesMask in
  let resultMap := replicate height (replicate width (0, 0, 0)) in
  match
    fold_result
      (fun c i => fold_result (compare_pixel shapesMask groundTruthMask i)
                    (seq 0 width) c)
      (seq 0 height) (Confusion resultMap 0 0 0 0)
  with
  | Raise e => Raise e
  | Ok c =>
      let precision := ratio_or_zero (tp c) (tp c + fp c) in
      let recall := ratio_or_zero (tp c) (tp c + fn c) in
      let accuracy :=
        if decide (tp c + fp c + tn c + fn c <> 0)
        then (inject_Z (tp c + tn c) / inject_Z (tp c + tn c + fp c + fn c))%Q
        else 0%Q in
      Ok (Comparison c precision recall accuracy)
  end.

(** ** [dataprepGoogle.py] and [dataprepMapBox.py]: tiles by index *)

Section TileIndex.
Variable float : Type.
(** [int((lonDeg + 180.0) / 360.0 * n)]. *)
Variable col_of : float -> Z -> num_error + Z.
(** [int((1.0 - math.asinh(math.tan(math.radians(latDeg))) / math.pi)
    / 2.0 * n)]. *)
Variable row_of : float -> Z -> num_error + Z.

(** [1 << zoom]. *)
Definition shift_one (zoom : Z) : num_error + Z :=
  if zoom <? 0 then inl ValueError else inr (Z.shiftl 1 zoom).

(** [deg2tileNum], the same in both files. *)
Definition deg2tileNum (latDeg1 latDeg2 lonDeg1 lonDeg2 : float) (zoom : Z)
  : num_error + (Z * Z * Z * Z) :=
  match shift_one zoom with
  | inl e => inl e
  | inr n =>
      match col_of lonDeg1 n with
      | inl e => inl e
      | inr x1 =>
          match row_of latDeg1 n with
          | inl e => inl e
          | inr y1 =>
              match col_of lonDeg2 n with
              | inl e => inl e
              | inr x2 =>
                  match row_of latDeg2 n with
                  | inl e => inl e
                  | inr y2 =>
                      let xMin := Z.min x1 x2 in
                      let xMax := Z.max x1 x2 in
                      let yMin := Z.min y1 y2 in
                      let yMax := Z.max y1 y2 in
                      inr (xMin, xMax, yMin, yMax)
                  end
              end
          end
      end
  end.
End TileIndex.

Module Google.
Section Google.
Variable float : Type.
Variable col_of : float -> Z -> num_error + Z.
Variable row_of : float -> Z -> num_error + Z.
Variable requests_get_stream :
  string -> list (string * string) -> stream_outcome.
Variable str_HTTPError : Z -> string -> string.

(** One pass of the inner loop of [dataprepGoogle.getTiles]: the [try]
    block, with the body written chunk by chunk, and its [except]
    clause. *)
Definition getTiles_tile (baseURL : string) (zoom : Z)
    (outputDir apiKey sessionToken : string)
    (headers : list (string * string)) (x y : Z) (o : os) : os :=
  let url :=
    baseURL +:+ pretty zoom +:+ "/" +:+ pretty x +:+ "/" +:+ pretty y
      +:+ "?session=" +:+ sessionToken +:+ "&key=" +:+ apiKey in
  let filePath :=
    outputDir +:+ "/" +:+ pretty x +:+ "_" +:+ pretty y +:+ ".png" in
  match requests_get_stream url headers with
  | StreamFailed e => print ["Error downloading " +:+ url +:+ " -  " +:+ e] o
  | Streamed status_code chunks broken =>
      if (400 <=? status_code) && (status_code <? 600) then
        print ["Error downloading " +:+ url +:+ " -  "
                 +:+ str_HTTPError status_code url] o
      else
        let o := open_wb filePath o in
        let o := foldl (fun o chunk => f_write filePath chunk o) o chunks in
        match broken with
        | Some e => print ["Error downloading " +:+ url +:+ " -  " +:+ e] o
        | None => o
        end
  end.

Definition getTiles (zoom : Z) (minLat minLon maxLat maxLon : float)
    (outputDir apiKey sessionToken : string) (o : os)
  : (num_error + unit) * os :=
  let baseURL := "https://tile.googleapis.com/v1/2dtiles/" in
  let userAgent := "ITU Thesis Malthe Mejdal " in
  let headers := [("User-Agent", userAgent)] in
  match deg2tileNum float col_of row_of minLat maxLat minLon maxLon zoom with
  | inl e => (inl e, o)
  | inr (xMin, xMax, yMin, yMax) =>
      (inr tt,
       foldl (fun o x =>
                foldl (fun o y =>
                         getTiles_tile baseURL zoom outputDir apiKey
                           sessionToken headers x y o)
                  o (py_range yMin (yMax + 1)))
         o (py_range xMin (xMax + 1)))
  end.
End Google.
End Google.

Module MapBox.
Section MapBox.
Variable float : Type.
Variable col_of : float -> Z -> num_error + Z.
Variable row_of : float -> Z -> num_error + Z.
Variable requests_get_stream :
  string -> list (string * string) -> stream_outcome.
Variable str_HTTPError : Z -> string -> string.

(** One pass of the inner loop of [dataprepMapBox.getTiles]: the [try]
    block, with the body written chunk by chunk, and its [except]
    clause. *)
Definition getTiles_tile (baseURL : string) (zoom : Z)
    (outputDir token : string)
    (headers : list (string * string)) (x y : Z) (o : os) : os :=
  let url :=
    baseURL +:+ pretty zoom +:+ "/" +:+ pretty x +:+ "/" +:+ pretty y
      +:+ "/?access_token=" +:+ token in
  let filePath :=
    outputDir +:+ "/" +:+ pretty x +:+ "_" +:+ pretty y +:+ ".png" in
  match requests_get_stream url headers with
  | StreamFailed e =>
      print ["Error downloading tile " +:+ url +:+ ": " +:+ e] o
  | Streamed status_code chunks broken =>
      if (400 <=? status_code) && (status_code <? 600) then
        print ["Error downloading tile " +:+ url +:+ ": "
                 +:+ str_HTTPError status_code url] o
      else
        let o := open_wb filePath o in
        let o := foldl (fun o chunk => f_write filePath chunk o) o chunks in
        match broken with
        | Some e => print ["Error downloading tile " +:+ url +:+ ": " +:+ e] o
        | None => o
        end
  end.

Definition getTiles (zoom : Z) (minLat minLon maxLat maxLon : float)
    (outputDir : string) (o : os) : (num_error + unit) * os :=
  let token := "Deleted" in
  let baseURL :=
    "https://api.mapbox.com/styles/v1/mapbox/satellite-v9/tiles/" in
  let userAgent := "ITU Thesis Malthe Mejdal " in
  let headers := [("User-Agent", userAgent)] in
  match deg2tileNum float col_of row_of minLat maxLat minLon maxLon zoom with
  | inl e => (inl e, o)
  | inr (xMin, xMax, yMin, yMax) =>
      (inr tt,
       foldl (fun o x =>
                foldl (fun o y =>
                         getTiles_tile baseURL zoom outputDir token headers
                           x y o)
                  o (py_range yMin (yMax + 1)))
         o (py_range xMin (xMax + 1)))
  end.
End MapBox.
End MapBox.

(** * What the code computes, on values

    The definitions of this part restate runs of the code as functions of
    the arrays involved; the lemmas [run_..] below prove that the code
    computes them.  They are what the properties are phrased with. *)

Section EffectSummaries.
Context {H W : nat}.

(** [frames n Q m]: started with at least [n] arrays in the store, [m]
    leaves the first [n] of them as they were, whether it returns or
    raises, and a value it returns satisfies [Q]. *)
Definition frames (n : nat) {A} (Q : A -> Prop) (m : M A) : Prop :=
  forall w : world H W,
    (n <= length (heap w))%nat ->
    take n (heap (snd (m w))) = take n (heap w)
    /\ (n <= length (heap (snd (m w))))%nat
    /\ forall a, fst (m w) = Ok a -> Q a.
End EffectSummaries.

Arguments frames H W n {A} Q m.

Section SegmentationSummaries.
Context {H W : nat} `{!Cv2 H W}.
Local Abbreviation img A := (raster H W A).
Implicit Types (d : gmap string (image H W)).
Implicit Types (A B R S D : img pixel).

(** *** [privatePropertyFiltering] *)

Definition ppf_binary B : img Z :=
  threshold_binary (otsu (cvtColor_BGR2GRAY B)) 255 (cvtColor_BGR2GRAY B).

Definition ppf_dilated B : img Z :=
  bitwise_not
    (dilate (bitwise_not (ppf_binary B)) (getStructuringElement MORPH_RECT 2 2)).

(** The contours the loop iterates over, in order. *)
Definition ppf_contours B : list contour :=
  area_filter (findContours (ppf_dilated B)).

(** The fill colour the loop body picks for a contour. *)
Definition ppf_color R (g : img Z) (c : contour) : pixel :=
  if 0 <? countNonZero
            (inRange (bitwise_and_mask R R (contour_mask g c))
               (0, 150, 0) (30, 255, 30))
  then (0, 255, 0) else (0, 0, 255).

Definition ppf_fill R (g : img Z) D (c : contour) : img pixel :=
  fill_region (filled c) (ppf_color R g c) D.

(** The boundaries copy after the loop has gone through [cs]. *)
Definition ppf_drawn B R (cs : list contour) : img pixel :=
  foldl (ppf_fill R (cvtColor_BGR2GRAY B)) B cs.

(** Lines 102-109 on an HSV raster that is already there. *)
Definition ppf_mask_out (hsv : img pixel) A : img pixel :=
  assign_where
    (eq_scalar (bitwise_not (inRange hsv lowerGreen upperGreen)) 255)
    (0, 0, 255) A.

(** Lines 94-109 applied to the drawn boundaries and the base-map copy. *)
Definition ppf_recolor D A : img pixel :=
  ppf_mask_out (cvtColor_BGR2HSV (medianBlur D 7)) A.

Definition ppf_disk (path : string) A B R d : gmap string (image H W) :=
  let D := ppf_drawn B R (ppf_contours B) in
  <[path +:+ "/subresults/005_Result.png" := BGR (ppf_recolor D A)]>
    (<[path +:+ "/subresults/004_Boundary_Contour_Blurred.png" :=
         BGR (medianBlur D 7)]>
       (<[path +:+ "/subresults/003_Boundary_Contour.png" := BGR D]>
          (<[path +:+ "/subresults/002_Boundary_dialated.png" :=
               GRAY (ppf_dilated B)]>
             (<[path +:+ "/subresults/001_Boundary.png" :=
                  GRAY (ppf_binary B)]> d)))).

(** *** [structureFiltering] *)

Definition sf_redMask S : img pixel :=
  bitwise_and_mask (solid S (0, 0, 255)) (solid S (0, 0, 255))
    (inRange (cvtColor_BGR2HSV S) lowerYellow upperYellow).

Definition sf_result A S : img pixel :=
  assign_where (eq_pixel (sf_redMask S) (0, 0, 255)) (0, 0, 255) A.

(** *** [routeAndVegFiltering] *)

Definition rvf_masked A : img pixel :=
  assign_where
    (eq_scalar
       (bitwise_not
          (bitwise_or
             (bitwise_or (inRange A brown_lower brown_upper)
                (inRange A green_lower green_upper))
             (inRange A blue_lower blue_upper)))
       0)
    (255, 255, 255) A.

Definition rvf_filtered A : img pixel :=
  bilateralFilter (rvf_masked A) 5 255 255.

Definition rvf_lines A : img Z :=
  bitwise_not
    (dilate
       (bitwise_not
          (threshold_binary 245 255 (cvtColor_BGR2GRAY (rvf_filtered A))))
       (getStructuringElement MORPH_ELLIPSE 2 2)).

(** The contours the loop iterates over, in order. *)
Definition rvf_contours A : list contour :=
  area_filter (findContours (rvf_lines A)).

(** The inverted binary routes raster (016). *)
Definition rvf_routes R : img Z :=
  bitwise_not (threshold_binary 240 255 (cvtColor_BGR2GRAY R)).

(** The eroded vegetation mask (017_2). *)
Definition rvf_green S : img Z :=
  erode (inRange_real (cvtColor_BGR2HSV S) lower_green upper_green)
    (np_ones 5 5).

(** The three pixel counts of one iteration. *)
Definition totalPixelCount (bin : img Z) (c : contour) : Z :=
  countNonZero (contour_mask bin c).
Definition whitePixelCount (bin : img Z) (c : contour) : Z :=
  countNonZero (bitwise_and bin (contour_mask bin c)).
Definition greenPixelCount (gm : img Z) (c : contour) : Z :=
  countNonZero (bitwise_and gm (contour_mask gm c)).

(** One iteration that does not divide by zero, on the map itself. *)
Definition rvf_step (bin gm : img Z) D (c : contour) : img pixel :=
  if Qltb (1 # 1000)
       (inject_Z (whitePixelCount bin c) / inject_Z (totalPixelCount bin c))
  then fill_region (filled c) (0, 0, 255) D
  else if Qltb (1 # 10)
            (inject_Z (greenPixelCount gm c)
             / inject_Z (totalPixelCount bin c))
       then fill_region (filled c) (0, 0, 255) D
       else D.

(** Lines 325-341: the binary raster made of the map after the loop. *)
Definition rvf_binary D : img Z :=
  let g := cvtColor_BGR2GRAY D in
  let b := bitwise_not (threshold_binary (otsu g) 255 g) in
  medianBlur_gray
    (morphologyEx_CLOSE (morphologyEx_OPEN b (np_ones 4 4)) (np_ones 4 4)) 15.

(** The map after the loop of [routeAndVegFiltering]. *)
Definition rvf_drawn A R S : img pixel :=
  foldl (rvf_step (rvf_routes R) (rvf_green S)) (rvf_filtered A)
    (rvf_contours A).

(** *** Loops that fill contours *)

(** A loop step that touches nothing outside the fill of its contour. *)
Definition local_step (step : img pixel -> contour -> img pixel) : Prop :=
  forall D c i j, filled c i j = false -> px (step D c) i j = px D i j.

Definition fills_only (l : loc) (body : contour -> M unit) : Prop :=
  forall c (w : world H W),
    heap (snd (body c w)) = heap w
    \/ exists D col,
         heap w !! l = Some D
         /\ heap (snd (body c w))
            = <[l := fill_region (filled c) col D]> (heap w).
End SegmentationSummaries.

(** The claimed public mask, hue 20-40 read in degrees (the stored 8-bit
    hue is half the angle). *)
Definition spec_public_degrees (p : pixel) : bool :=
  let '(h, s, v) := p in in_bounds (20, 40, 40) (40, 255, 255) (2 * h, s, v).

(** The claimed public mask, hue 20-40 read as the stored channel value. *)
Definition spec_public_stored (p : pixel) : bool :=
  in_bounds (20, 40, 40) (40, 255, 255) p.

Section LoaderSummaries.
Context {Img : Type}.

(** The five positions of the tuple, each with the file name it is read
    from. *)
Definition loaded
    (t : option Img * option Img * option Img * option Img * option Img)
  : list (string * option Img) :=
  let '(am_withRoads, boundaries, routes, amBaseMap, satellite) := t in
  [("/AM_with_roads.png", am_withRoads); ("/boundaries.png", boundaries);
   ("/routes.png", routes); ("/AM_Detailed.png", amBaseMap);
   ("/satellite.png", satellite)].
End LoaderSummaries.

Section FetcherSummaries.
Variable requests_get : string -> list (string * string) -> http_outcome.

(** What a WMS fetcher does with the outcome of the one request it
    sends to [url]: on status 200 it writes [file] and prints nothing; on any
    other status it writes nothing, prints [report] and returns; an
    exception of [requests.get] itself is not caught. *)
Definition wms_fetch (url file : string)
    (report : Z -> string -> list string)
    (o : os) (run : result unit * os) : Prop :=
  exists params,
    match requests_get url params with
    | Failed e => run = (Raise (RequestException e), o)
    | Response status_code content =>
        (status_code = 200 ->
         run = (Ok tt, Os (<[file := content]> (fs o)) (stdout o)))
        /\ (status_code <> 200 ->
            run = (Ok tt,
                   Os (fs o)
                      (stdout o
                         ++ report status_code
                              (url +:+ "?" +:+ query_of params))))
    end.
End FetcherSummaries.

(** The colour [compare] gives a position where both masks hold [x]. *)
Definition colour_of (x : Z) : pixel :=
  if x =? 0 then (0, 255, 0) else (0, 0, 0).

(** The positions of a nested [for i in ..: for j in ..:] loop, in order. *)
Definition positions (rows cols : list nat) : list (nat * nat) :=
  i ← rows; (fun j => (i, j)) <$> cols.

(** A two-dimensional array as numpy has it: every row as long as the
    first. *)
Definition rectangular {A} (a : list (list A)) : Prop :=
  Forall (fun row => length row = snd (shape2 a)) a.

(** ** [compare] on two different masks *)

(** The four branches of the pixel loop of [compare]. *)
Inductive verdict : Type :=
  | TruePositive
  | FalsePositive
  | FalseNegative
  | TrueNegative.

#[global] Instance verdict_eq_dec : EqDecision verdict.
Proof. solve_decision. Defined.

(** The branch the loop body takes for one pair of pixels. *)
Definition verdict_of (shapePixel gtPixel : Z) : verdict :=
  if (shapePixel =? 0) && (gtPixel =? 0) then TruePositive
  else if (shapePixel =? 0) && (0 <? gtPixel) then FalsePositive
  else if (0 <? shapePixel) && (gtPixel =? 0) then FalseNegative
  else TrueNegative.

(** The RGB colour a branch writes to the result map. *)
Definition verdict_colour (v : verdict) : pixel :=
  match v with
  | TruePositive => (0, 255, 0)
  | FalsePositive => (255, 255, 0)
  | FalseNegative => (255, 0, 0)
  | TrueNegative => (0, 0, 0)
  end.

(** The counter a branch increments. *)
Definition count_of (v : verdict) (c : confusion) : Z :=
  match v with
  | TruePositive => tp c
  | FalsePositive => fp c
  | FalseNegative => fn c
  | TrueNegative => tn c
  end.

Definition verdict_at (s g : mask) (p : nat * nat) : option verdict :=
  match at2 s (fst p) (snd p), at2 g (fst p) (snd p) with
  | Some a, Some b => Some (verdict_of a b)
  | _, _ => None
  end.

(** How many of the positions [ps] fall into branch [v]. *)
Definition tally (s g : mask) (v : verdict) (ps : list (nat * nat)) : Z :=
  Z.of_nat (length (filter (fun p => verdict_at s g p = Some v) ps)).

(** The positions [compare] visits: those of the first mask's shape. *)
Definition visited (s : mask) : list (nat * nat) :=
  positions (seq 0 (fst (shape2 s))) (seq 0 (snd (shape2 s))).

(** The second mask has a pixel wherever the first one has. *)
Definition covers (g s : mask) : Prop :=
  forall i j, is_Some (at2 s i j) -> is_Some (at2 g i j).


(** What one pass of the loop body does to the record, by branch. *)
Definition bump (v : verdict) (i j : nat) (c : confusion) : confusion :=
  let resultMap' := set2 (resultMap c) i j (verdict_colour v) in
  match v with
  | TruePositive => Confusion resultMap' (tp c + 1) (fp c) (fn c) (tn c)
  | FalsePositive => Confusion resultMap' (tp c) (fp c + 1) (fn c) (tn c)
  | FalseNegative => Confusion resultMap' (tp c) (fp c) (fn c + 1) (tn c)
  | TrueNegative => Confusion resultMap' (tp c) (fp c) (fn c) (tn c + 1)
  end.

(** The branch of the same pixel pair with the two masks exchanged. *)
Definition mirror (v : verdict) : verdict :=
  match v with
  | FalsePositive => FalseNegative
  | FalseNegative => FalsePositive
  | v => v
  end.

(** ** The pipeline as a whole *)

Section PipelineSummaries.
Context {H W : nat} `{!Cv2 H W}.
Local Abbreviation img A := (raster H W A).
Implicit Types (d : gmap string (image H W)).
Implicit Types (A B R S D : img pixel).

(** Whether a pixel is in one of the three colour ranges that
    [routeAndVegFiltering] looks for on the base map (lines 167-187). *)
Definition rvf_line_colour (p : pixel) : bool :=
  in_bounds brown_lower brown_upper p
    || in_bounds green_lower green_upper p
    || in_bounds blue_lower blue_upper p.

(** Whether an iteration of the loop of [routeAndVegFiltering] that does
    not divide by zero fills its contour (lines 279-310). *)
Definition rvf_paints (bin gm : img Z) (c : contour) : bool :=
  Qltb (1 # 1000)
    (inject_Z (whitePixelCount bin c) / inject_Z (totalPixelCount bin c))
  || Qltb (1 # 10)
       (inject_Z (greenPixelCount gm c) / inject_Z (totalPixelCount bin c)).

(** Whether some contour of [cs] that the loop fills covers a position. *)
Definition rvf_painted (bin gm : img Z) (cs : list contour)
    (i : fin H) (j : fin W) : bool :=
  existsb (fun c => rvf_paints bin gm c && filled c i j) cs.

(** The files [routeAndVegFiltering] has written when it returns. *)
Definition rvf_disk (path : string) A R S d : gmap string (image H W) :=
  let brown := inRange A brown_lower brown_upper in
  let green := inRange A green_lower green_upper in
  let blue := inRange A blue_lower blue_upper in
  let D := rvf_drawn A R S in
  let grey := cvtColor_BGR2GRAY D in
  let binary := bitwise_not (threshold_binary (otsu grey) 255 grey) in
  let stage1 :=
    morphologyEx_CLOSE (morphologyEx_OPEN binary (np_ones 4 4))
      (np_ones 4 4) in
  <[path +:+ "/subresults/021_AM_Reduced_2.png" :=
      GRAY (medianBlur_gray stage1 15)]>
  (<[path +:+ "/subresults/021_AM_Reduced_1.png" := GRAY stage1]>
  (<[path +:+ "/subresults/020_AM_Binary.png" := GRAY binary]>
  (<[path +:+ "/subresults/019_AM_Contours.png" :=
       BGR (fill_region (outlined (rvf_contours A)) (0, 255, 0) D)]>
  (<[path +:+ "/subresults/018_AM_Roads_Overlay.png" :=
       BGR (addWeighted D (1 - (1 # 2))%Q R (1 # 2)%Q 0%Q)]>
  (<[path +:+ "/subresults/017_2_Satellite_Green_Mask_Reduced.png" :=
       GRAY (rvf_green S)]>
  (<[path +:+ "/subresults/017_1_Satellite_Green_Mask.png" :=
       GRAY (inRange_real (cvtColor_BGR2HSV S) lower_green upper_green)]>
  (<[path +:+ "/subresults/016_Routes_Binary.png" := GRAY (rvf_routes R)]>
  (<[path +:+ "/subresults/015_Enhanced_Lines.png" := GRAY (rvf_lines A)]>
  (<[path +:+ "/subresults/014_Filtering_Binary.png" :=
       GRAY (threshold_binary 245 255 (cvtColor_BGR2GRAY (rvf_filtered A)))]>
  (<[path +:+ "/subresults/013_Filtering_Noise_Reduced.png" :=
       BGR (rvf_filtered A)]>
  (<[path +:+ "/subresults/012_Filtering_Result.png" := BGR (rvf_masked A)]>
  (<[path +:+ "/subresults/011_Filtering_Combined_Mask.png" :=
       GRAY (bitwise_or (bitwise_or brown green) blue)]>
  (<[path +:+ "/subresults/010_Filtering_Green_Mask.png" := GRAY green]>
  (<[path +:+ "/subresults/009_Filtering_Brown_Mask.png" := GRAY brown]>
  (<[path +:+ "/subresults/008_Filtering_Blue_Mask.png" := GRAY blue]>
     d))))))))))))))).

(** [m] changes no file whose name does not start with [path], whether it
    returns or raises. *)
Definition writes_under (path : string) {T : Type} (m : M T) : Prop :=
  forall (w : world H W) (f : string),
    (forall suffix, f <> path +:+ suffix) ->
    disk (snd (m w)) !! f = disk w !! f.
End PipelineSummaries.

(** ** The tile loops *)

Section TileSummaries.
Variable requests_get_stream :
  string -> list (string * string) -> stream_outcome.
Variable str_HTTPError : Z -> string -> string.

(** The index pairs the two nested [for] loops go through, in order. *)
Definition tile_indices (xMin xMax yMin yMax : Z) : list (Z * Z) :=
  x ← py_range xMin (xMax + 1);
  (fun y => (x, y)) <$> py_range yMin (yMax + 1).

(** The name of the file a tile is written to. *)
Definition tile_file (outputDir : string) (t : Z * Z) : string :=
  outputDir +:+ "/" +:+ pretty (fst t) +:+ "_" +:+ pretty (snd t) +:+ ".png".

(** The bytes a request leaves in the tile's file, when
    [raise_for_status] lets it through: the chunks that arrived, which is
    the whole body unless the reading broke off. *)
Definition tile_body (url : string) (headers : list (string * string))
  : option (list Byte.byte) :=
  match requests_get_stream url headers with
  | Streamed status_code chunks _ =>
      if (400 <=? status_code) && (status_code <? 600) then None
      else Some (mjoin chunks)
  | StreamFailed _ => None
  end.

(** [str(e)] of the exception the [except] clause catches, if there is
    one: from the request, from [raise_for_status], or from the reading of
    the body. *)
Definition tile_error (url : string) (headers : list (string * string))
  : option string :=
  match requests_get_stream url headers with
  | Streamed status_code _ broken =>
      if (400 <=? status_code) && (status_code <? 600)
      then Some (str_HTTPError status_code url) else broken
  | StreamFailed e => Some e
  end.

(** The [try] block with its [except] clause, for a tile with the given
    request address, file and error line. *)
Definition tile_pass (headers : list (string * string))
    (url file : string) (line : string -> string) (o : os) : os :=
  match requests_get_stream url headers with
  | StreamFailed e => print [line e] o
  | Streamed status_code chunks broken =>
      if (400 <=? status_code) && (status_code <? 600) then
        print [line (str_HTTPError status_code url)] o
      else
        let o := open_wb file o in
        let o := foldl (fun o chunk => f_write file chunk o) o chunks in
        match broken with
        | Some e => print [line e] o
        | None => o
        end
  end.

(** The request addresses of the three tile fetchers. *)
Definition dataforsyningen_url (token : string) (t : Z * Z) : string :=
  "https://api.dataforsyningen.dk/orto_foraar_wmts_DAF" +:+ "?token="
    +:+ token
    +:+ "&layer=orto_foraar_wmts&style=default&tilematrixset=KortforsyningTilingDK&Service=WMTS&Request=GetTile&Version=1.0.0&Format=image%2Fjpeg&TileMatrix=15&TileCol="
    +:+ pretty (fst t) +:+ "&TileRow=" +:+ pretty (snd t).

Definition google_url (zoom : Z) (apiKey sessionToken : string) (t : Z * Z)
  : string :=
  "https://tile.googleapis.com/v1/2dtiles/" +:+ pretty zoom +:+ "/"
    +:+ pretty (fst t) +:+ "/" +:+ pretty (snd t)
    +:+ "?session=" +:+ sessionToken +:+ "&key=" +:+ apiKey.

Definition mapbox_url (zoom : Z) (t : Z * Z) : string :=
  "https://api.mapbox.com/styles/v1/mapbox/satellite-v9/tiles/"
    +:+ pretty zoom +:+ "/" +:+ pretty (fst t) +:+ "/" +:+ pretty (snd t)
    +:+ "/?access_token=" +:+ "Deleted".

(** What a tile loop leaves behind, for tiles [ts] requested at [url_of]
    with error lines [line_of].  The file of a tile whose status was let
    through holds what arrived of that tile's own body: all of it, or the
    part before the reading broke off.  The file of a tile whose request
    failed or whose status was in 400-599 is as before.  No other file is
    touched.  One line is printed per tile that met an exception (request,
    status or reading), in the order of the loop. *)
Definition tile_loop_outcome (headers : list (string * string))
    (outputDir : string) (url_of : Z * Z -> string)
    (line_of : Z * Z -> string -> string) (ts : list (Z * Z))
    (o o' : os) : Prop :=
  (forall t,
      t ∈ ts ->
      fs o' !! tile_file outputDir t
      = match tile_body (url_of t) headers with
        | Some content => Some content
        | None => fs o !! tile_file outputDir t
        end)
  /\ (forall f,
         (forall t, t ∈ ts -> f <> tile_file outputDir t) ->
         fs o' !! f = fs o !! f)
  /\ stdout o'
     = stdout o
         ++ omap (fun t => line_of t <$> tile_error (url_of t) headers) ts.
End TileSummaries.

(** Whether a character occurs in a string. *)
Fixpoint occurs (c : Ascii.ascii) (s : string) : bool :=
  match s with
  | EmptyString => false
  | String a s' => Ascii.eqb a c || occurs c s'
  end.

(** ** From the fetchers of [AMS/API.py] to [loadImages] *)

Section FeedSummaries.
Context {Img : Type}.
Variable decode : list Byte.byte -> option Img.
Variable requests_get : string -> list (string * string) -> http_outcome.

(** What [loadImages] reads under [path] after a fetcher has run from [o]
    with outcome [run], for the one request the fetcher sends to [url]:
    on status 200 the tuple it read before with the decoded body put in
    one position, otherwise the same tuple as before. *)
Definition feeds (url path : string)
    (put : option Img ->
           option Img * option Img * option Img * option Img * option Img ->
           option Img * option Img * option Img * option Img * option Img)
    (o : os) (run : result unit * os) : Prop :=
  exists params,
    match requests_get url params with
    | Response status_code content =>
        fst run = Ok tt
        /\ (status_code = 200 ->
            loadImages decode (fs (snd run)) path
            = put (decode content) (loadImages decode (fs o) path))
        /\ (status_code <> 200 ->
            loadImages decode (fs (snd run)) path
            = loadImages decode (fs o) path)
    | Failed e =>
        fst run = Raise (RequestException e)
        /\ loadImages decode (fs (snd run)) path
           = loadImages decode (fs o) path
    end.
End FeedSummaries.

(** ** A stand-in OpenCV for running the model on small rasters

    Contours are outlines of axis-aligned boxes: [contourArea] is the
    shoelace sum OpenCV evaluates, and the polygon fill of such an outline
    is the box, its border included.  The remaining fields are
    placeholders, enough to run the code on the sample rasters. *)

Module Sample.
Definition cross (p q : Z * Z) : Z := fst p * snd q - snd p * fst q.

Fixpoint shoelace_from (prev : Z * Z) (ps : list (Z * Z)) : Z :=
  match ps with
  | [] => 0
  | p :: ps' => cross prev p + shoelace_from p ps'
  end.

Definition shoelace_area (c : contour) : Q :=
  match last c with
  | Some pl => Z.abs (shoelace_from pl c) # 2
  | None => 0%Q
  end.

Definition box_filled {H W : nat} (c : contour) (i : fin H) (j : fin W)
  : bool :=
  let x := Z.of_nat (fin_to_nat j) in
  let y := Z.of_nat (fin_to_nat i) in
  existsb (fun p => fst p <=? x) c && existsb (fun p => x <=? fst p) c
    && existsb (fun p => snd p <=? y) c && existsb (fun p => y <=? snd p) c.

Definition grey_of (p : pixel) : Z :=
  let '(b, g, r) := p in (114 * b + 587 * g + 299 * r) / 1000.

Definition within (lo hi p : Q * Q * Q) : bool :=
  let '(l0, l1, l2) := lo in
  let '(h0, h1, h2) := hi in
  let '(p0, p1, p2) := p in
  Qle_bool l0 p0 && Qle_bool p0 h0 && Qle_bool l1 p1 && Qle_bool p1 h1
    && Qle_bool l2 p2 && Qle_bool p2 h2.

(** The border pixels of the box with corners [(x0, y0)] and [(x1, y1)],
    one after the other, as [cv2.CHAIN_APPROX_NONE] lists them. *)
Definition box_contour (x0 y0 x1 y1 : Z) : contour :=
  ((fun y => (x0, y)) <$> seqZ y0 (y1 - y0 + 1))
    ++ ((fun x => (x, y1)) <$> seqZ (x0 + 1) (x1 - x0))
    ++ ((fun y => (x1, y)) <$> reverse (seqZ y0 (y1 - y0)))
    ++ ((fun x => (x, y0)) <$> reverse (seqZ (x0 + 1) (x1 - x0 - 1))).

(** The outline of a region of 11 x 12 pixels (area 110), and the outline
    of a 3 x 3 island that lies in a hole of that region (area 4). *)
Definition region : contour := box_contour 2 2 12 13.
Definition speck : contour := box_contour 5 5 7 7.

#[local] Instance cv : Cv2 16 16 := {|
  cvtColor_BGR2GRAY := rmap grey_of;
  cvtColor_BGR2HSV := fun a => a;
  otsu := fun _ => 127;
  getStructuringElement := fun _ n m => np_ones n m;
  dilate := fun a _ => a;
  erode := fun a _ => a;
  morphologyEx_OPEN := fun a _ => a;
  morphologyEx_CLOSE := fun a _ => a;
  findContours := fun _ => [region; speck];
  contourArea := shoelace_area;
  filled := box_filled;
  outlined := fun _ _ _ => false;
  medianBlur := fun a _ => a;
  medianBlur_gray := fun a _ => a;
  bilateralFilter := fun a _ _ _ => a;
  addWeighted := fun a _ _ _ _ => a;
  inRange_real := fun a lo hi =>
    rmap (fun '(p0, p1, p2) =>
            if within lo hi (inject_Z p0, inject_Z p1, inject_Z p2)
            then 255 else 0) a
|}.

(** An all-white map, and a routes mask with one route pixel at row 3,
    column 3. *)
Definition blank : raster 16 16 pixel := tabulate (fun _ _ => white).
Definition one_route : raster 16 16 Z :=
  tabulate (fun i j =>
    if decide (fin_to_nat i = 3%nat /\ fin_to_nat j = 3%nat) then 255 else 0).
Definition none_set : raster 16 16 Z := tabulate (fun _ _ => 0).
Definition all_set : raster 16 16 Z := tabulate (fun _ _ => 255).

(** A routes raster, white but for one green pixel at row 3, column 3. *)
Definition green_route : raster 16 16 pixel :=
  tabulate (fun i j =>
    if decide (fin_to_nat i = 3%nat /\ fin_to_nat j = 3%nat)
    then (10, 200, 10) else white).
End Sample.

(** ** A larger sample raster

    On 40 x 40 pixels one route pixel is a share of 1/1600 of the whole
    raster, which is above 0 and below the 0.001 of the road test. *)

Module Sample40.
Import Sample.

#[local] Instance cv : Cv2 40 40 := {|
  cvtColor_BGR2GRAY := rmap grey_of;
  cvtColor_BGR2HSV := fun a => a;
  otsu := fun _ => 127;
  getStructuringElement := fun _ n m => np_ones n m;
  dilate := fun a _ => a;
  erode := fun a _ => a;
  morphologyEx_OPEN := fun a _ => a;
  morphologyEx_CLOSE := fun a _ => a;
  findContours := fun _ => [box_contour 0 0 39 39];
  contourArea := shoelace_area;
  filled := box_filled;
  outlined := fun _ _ _ => false;
  medianBlur := fun a _ => a;
  medianBlur_gray := fun a _ => a;
  bilateralFilter := fun a _ _ _ => a;
  addWeighted := fun a _ _ _ _ => a;
  inRange_real := fun a lo hi =>
    rmap (fun '(p0, p1, p2) =>
            if within lo hi (inject_Z p0, inject_Z p1, inject_Z p2)
            then 255 else 0) a
|}.

(** The outline of the whole raster. *)
Definition frame : contour := box_contour 0 0 39 39.

Definition blank : raster 40 40 pixel := tabulate (fun _ _ => white).
Definition one_route : raster 40 40 Z :=
  tabulate (fun i j =>
    if decide (fin_to_nat i = 3%nat /\ fin_to_nat j = 3%nat) then 255 else 0).
Definition none_set : raster 40 40 Z := tabulate (fun _ _ => 0).
Definition all_set : raster 40 40 Z := tabulate (fun _ _ => 255).
End Sample40.

(** ** More sample rasters *)

Module Sample2.
(** A base map, white but for one brown line pixel at row 0, column 0. *)
Definition lined : raster 16 16 pixel :=
  tabulate (fun i j =>
    if decide (fin_to_nat i = 0%nat /\ fin_to_nat j = 0%nat)
    then (205, 220, 235) else white).

(** A structures raster, white but for one pixel at row 1, column 1 whose
    channels lie in the band [structureFiltering] looks for. *)
Definition one_structure : raster 16 16 pixel :=
  tabulate (fun i j =>
    if decide (fin_to_nat i = 1%nat /\ fin_to_nat j = 1%nat)
    then (30, 100, 100) else white).
End Sample2.

(** * Facts *)

Lemma Qltb_lt (a b : Q) : Qltb a b = true <-> (a < b)%Q.
Proof.
  unfold Qltb. rewrite negb_true_iff.
  split.
  - intros Hf. apply Qnot_le_lt. intros Hle.
    apply Qle_bool_iff in Hle. congruence.
  - intros Hlt. destruct (Qle_bool b a) eqn:E; [|reflexivity].
    apply Qle_bool_iff in E. exfalso. exact (Qlt_not_le _ _ Hlt E).
Qed.

Lemma Qltb_ge (a b : Q) : Qltb a b = false <-> (b <= a)%Q.
Proof.
  unfold Qltb. rewrite negb_false_iff. apply Qle_bool_iff.
Qed.

Section RasterFacts.
Context {H W : nat}.
Local Abbreviation img A := (raster H W A).

Lemma px_tabulate {A} (f : fin H -> fin W -> A) i j : px (tabulate f) i j = f i j.
Proof. unfold px, tabulate. rewrite lookup_fun_to_vec. apply lookup_fun_to_vec. Qed.

Lemma raster_eq {A} (a b : img A) :
  (forall i j, px a i j = px b i j) -> a = b.
Proof.
  intros Hpx. apply vec_eq. intros i. apply vec_eq. intros j. apply Hpx.
Qed.

Lemma elem_of_elements_of {A} (r : img A) (x : A) :
  x ∈ elements_of r <-> exists i j, px r i j = x.
Proof.
  unfold elements_of, px. rewrite list_elem_of_join. split.
  - intros (l & Hx & Hl). apply list_elem_of_fmap in Hl as (row & -> & Hrow).
    apply elem_of_vlookup in Hrow as [i Hi].
    apply elem_of_vlookup in Hx as [j Hj].
    exists i, j. by rewrite Hi.
  - intros (i & j & Hx). exists (vec_to_list (r !!! i)). split.
    + apply elem_of_vlookup. by exists j.
    + apply list_elem_of_fmap. exists (r !!! i). split; [done|].
      apply elem_of_vlookup. by exists i.
Qed.

Lemma countNonZero_nonneg (m : img Z) : 0 <= countNonZero m.
Proof. unfold countNonZero. lia. Qed.

Lemma countNonZero_pos (m : img Z) :
  0 < countNonZero m <-> exists i j, px m i j <> 0.
Proof.
  unfold countNonZero. split.
  - intros Hpos.
    destruct (filter (fun x => x <> 0) (elements_of m)) as [|x l] eqn:E;
      [simpl in Hpos; lia|].
    assert (Hx : x ∈ filter (fun x => x <> 0) (elements_of m))
      by (rewrite E; left).
    apply list_elem_of_filter in Hx as [Hnz Hx].
    apply elem_of_elements_of in Hx as (i & j & Hij).
    exists i, j. by rewrite Hij.
  - intros (i & j & Hnz).
    assert (Hx : px m i j ∈ filter (fun x => x <> 0) (elements_of m)).
    { apply list_elem_of_filter. split; [done|].
      apply elem_of_elements_of. by exists i, j. }
    destruct (filter (fun x => x <> 0) (elements_of m));
      [by apply elem_of_nil in Hx | simpl; lia].
Qed.

Lemma countNonZero_zero (m : img Z) :
  countNonZero m = 0 <-> forall i j, px m i j = 0.
Proof.
  pose proof (countNonZero_nonneg m) as Hn.
  pose proof (countNonZero_pos m) as Hp.
  split.
  - intros H0 i j. destruct (decide (px m i j = 0)) as [|Hnz]; [done|].
    assert (0 < countNonZero m) by (apply Hp; eauto). lia.
  - intros Hall. destruct (decide (countNonZero m = 0)) as [|Hne]; [done|].
    assert (Hlt : 0 < countNonZero m) by lia.
    apply Hp in Hlt as (i & j & Hnz). by specialize (Hall i j).
Qed.

Lemma px_rmap {A B} (f : A -> B) (r : img A) i j :
  px (rmap f r) i j = f (px r i j).
Proof. exact (px_tabulate _ i j). Qed.

Lemma px_rzip {A B C} (f : A -> B -> C) (a : img A) (b : img B) i j :
  px (rzip f a b) i j = f (px a i j) (px b i j).
Proof. exact (px_tabulate _ i j). Qed.

Lemma px_fill_region {A} (inside : fin H -> fin W -> bool) (c : A)
    (a : img A) i j :
  px (fill_region inside c a) i j = if inside i j then c else px a i j.
Proof. exact (px_tabulate _ i j). Qed.

Lemma px_assign_where (cond : img bool) c (a : img pixel) i j :
  px (assign_where cond c a) i j = if px cond i j then c else px a i j.
Proof. exact (px_tabulate _ i j). Qed.

Lemma px_inRange (src : img pixel) lo hi i j :
  px (inRange src lo hi) i j = if in_bounds lo hi (px src i j) then 255 else 0.
Proof. exact (px_rmap _ _ i j). Qed.

Lemma px_bitwise_not (a : img Z) i j :
  px (bitwise_not a) i j = Z.lxor (px a i j) 255.
Proof. exact (px_rmap _ _ i j). Qed.

Lemma px_bitwise_and (a b : img Z) i j :
  px (bitwise_and a b) i j = Z.land (px a i j) (px b i j).
Proof. exact (px_rzip _ _ _ i j). Qed.
End RasterFacts.

(** ** Running the effects *)

Section EffectFacts.
Context {H W : nat}.
Implicit Types (h t : list (raster H W pixel)).
Implicit Types (d : gmap string (image H W)).

Lemma bind_ok_eq {A B} (m : M A) (k : A -> M B) (w w' : world H W) a res :
  m w = (Ok a, w') -> k a w' = res -> bind m k w = res.
Proof. intros Hm Hk. unfold bind. by rewrite Hm. Qed.

Lemma bind_raise_eq {A B} (m : M A) (k : A -> M B) (w w' : world H W) e :
  m w = (Raise e, w') -> bind m k w = (Raise e, w').
Proof. intros Hm. unfold bind. by rewrite Hm. Qed.

Lemma run_alloc h t d v :
  alloc v (World (h ++ t) d)
  = (Ok (length h + length t)%nat, World (h ++ (t ++ [v])) d).
Proof. unfold alloc. simpl. by rewrite length_app, app_assoc. Qed.

Lemma run_load_old h t d l x :
  h !! l = Some x -> load l (World (h ++ t) d) = (Ok x, World (h ++ t) d).
Proof.
  intros Hl. unfold load. simpl. by rewrite (lookup_app_l_Some _ _ _ _ Hl).
Qed.

Lemma run_load_new h t d k x :
  t !! k = Some x ->
  load (length h + k)%nat (World (h ++ t) d) = (Ok x, World (h ++ t) d).
Proof.
  intros Hk. unfold load. simpl.
  rewrite lookup_app_r by lia.
  replace (length h + k - length h)%nat with k by lia. by rewrite Hk.
Qed.

Lemma run_update_new h t d k f x :
  t !! k = Some x ->
  update (length h + k)%nat f (World (h ++ t) d)
  = (Ok tt, World (h ++ <[k := f x]> t) d).
Proof.
  intros Hk. unfold update. simpl.
  rewrite lookup_app_r by lia.
  replace (length h + k - length h)%nat with k by lia.
  by rewrite Hk, insert_app_r.
Qed.

Lemma run_np_copy_old h t d l x :
  h !! l = Some x ->
  np_copy l (World (h ++ t) d)
  = (Ok (length h + length t)%nat, World (h ++ (t ++ [x])) d).
Proof.
  intros Hl. unfold np_copy.
  eapply bind_ok_eq; [by apply run_load_old | apply run_alloc].
Qed.

Lemma run_np_copy_new h t d k x :
  t !! k = Some x ->
  np_copy (length h + k)%nat (World (h ++ t) d)
  = (Ok (length h + length t)%nat, World (h ++ (t ++ [x])) d).
Proof.
  intros Hl. unfold np_copy.
  eapply bind_ok_eq; [by apply run_load_new | apply run_alloc].
Qed.

Lemma frames_weaken n {A} (P Q : A -> Prop) (m : M A) :
  (forall a, P a -> Q a) -> frames H W n P m -> frames H W n Q m.
Proof.
  intros HPQ Hm w Hw. destruct (Hm w Hw) as (Ht & Hl & Hp). eauto.
Qed.

Lemma frames_ret n {A} (Q : A -> Prop) (a : A) : Q a -> frames H W n Q (ret a).
Proof. intros Hq w Hw. simpl. repeat split; [done|]. by intros ? [= <-]. Qed.

Lemma frames_raise n {A} (Q : A -> Prop) e : frames H W n Q (raise (A:=A) e).
Proof. intros w Hw. simpl. repeat split; [done|]. by intros ? [=]. Qed.

Lemma frames_bind n {A B} (P : A -> Prop) (Q : B -> Prop)
    (m : M A) (k : A -> M B) :
  frames H W n P m -> (forall a, P a -> frames H W n Q (k a)) -> frames H W n Q (bind m k).
Proof.
  intros Hm Hk w Hw. destruct (Hm w Hw) as (Ht & Hl & Hp).
  unfold bind. destruct (m w) as [[a|e] w1]; simpl in *.
  - destruct (Hk a (Hp a eq_refl) w1 Hl) as (Ht' & Hl' & Hq).
    repeat split; [congruence | done | done].
  - repeat split; [done | done |]. by intros ? [=].
Qed.

Lemma frames_alloc n v : frames H W n (fun l => (n <= l)%nat) (alloc v).
Proof.
  intros w Hw. unfold alloc. simpl. repeat split.
  - by rewrite take_app_le.
  - rewrite length_app. lia.
  - intros a [= <-]. done.
Qed.

Lemma frames_load n l : frames H W n (fun _ => True) (load l).
Proof.
  intros w Hw. unfold load.
  destruct (_ !! _); simpl; repeat split; try done.
Qed.

Lemma frames_update n l f :
  (n <= l)%nat -> frames H W n (fun _ => True) (update l f).
Proof.
  intros Hl w Hw. unfold update.
  destruct (_ !! _); simpl; repeat split; try done.
  - by apply take_insert_ge.
  - by rewrite length_insert.
Qed.

Lemma frames_np_copy n l : frames H W n (fun l' => (n <= l')%nat) (np_copy l).
Proof.
  unfold np_copy. eapply frames_bind; [apply frames_load|].
  intros v _. apply frames_alloc.
Qed.

Lemma frames_imwrite n path v : frames H W n (fun _ => True) (imwrite path v).
Proof. intros w Hw. unfold imwrite. simpl. repeat split; done. Qed.

Lemma frames_py_div n a b : frames H W n (fun _ => True) (py_div a b).
Proof.
  unfold py_div. case_decide; [apply frames_raise | by apply frames_ret].
Qed.

Lemma frames_for_each n {A} (xs : list A) (body : A -> M unit) :
  (forall x, frames H W n (fun _ => True) (body x)) ->
  frames H W n (fun _ => True) (for_each xs body).
Proof.
  intros Hbody. induction xs as [|x xs IH]; simpl.
  - by apply frames_ret.
  - eapply frames_bind; [apply Hbody | by intros _ _].
Qed.

(** What [frames] gives for a reference that was live at the start. *)
Lemma frames_lookup {A} (Q : A -> Prop) (m : M A) (w : world H W) l v :
  frames H W (length (heap w)) Q m ->
  heap w !! l = Some v -> heap (snd (m w)) !! l = Some v.
Proof.
  intros Hm Hl. destruct (Hm w (le_n _)) as (Ht & _ & _).
  pose proof (lookup_lt_Some _ _ _ Hl) as Hlt.
  rewrite <- (lookup_take_lt _ (length (heap w))) by done.
  rewrite Ht. by rewrite lookup_take_lt.
Qed.
End EffectFacts.

Lemma string_app_inj (p s1 s2 : string) : p +:+ s1 = p +:+ s2 -> s1 = s2.
Proof. induction p as [|a p IH]; simpl; [done|]. intros [= Heq]. auto. Qed.

Lemma string_app_ne (p s1 s2 : string) : s1 <> s2 -> p +:+ s1 <> p +:+ s2.
Proof. intros Hne Heq. by apply Hne, (string_app_inj p). Qed.

(** ** The filters, run *)

Section SegmentationFacts.
Context {H W : nat} `{!Cv2 H W}.
Local Abbreviation img A := (raster H W A).
Implicit Types (h t : list (img pixel)) (d : gmap string (image H W)).
Implicit Types (A B R S D : img pixel).

(** *** Callers' arrays are out of reach of the filters *)

Lemma frames_ppf_body n (g : img Z) (bl rl : loc) c :
  (n <= bl)%nat -> frames H W n (fun _ => True) (ppf_body g bl rl c).
Proof.
  intros Hbl. unfold ppf_body.
  eapply frames_bind; [apply frames_load|]. intros routes _.
  by apply frames_update.
Qed.

Lemma frames_rvf_body n (bin gm : img Z) (l : loc) c :
  (n <= l)%nat -> frames H W n (fun _ => True) (rvf_body bin gm l c).
Proof.
  intros Hl. unfold rvf_body.
  eapply frames_bind; [apply frames_py_div|]. intros ratio _.
  destruct (Qltb _ ratio); [by apply frames_update|].
  eapply frames_bind; [apply frames_py_div|]. intros cov _.
  destruct (Qltb _ cov); [by apply frames_update | by apply frames_ret].
Qed.

Ltac frame_prim :=
  first
    [ apply frames_np_copy | apply frames_alloc | apply frames_load
    | apply frames_imwrite
    | apply frames_update; lia
    | apply frames_for_each; intros ?;
      first [ apply frames_ppf_body; lia | apply frames_rvf_body; lia ] ].

Ltac frame_steps :=
  repeat (cbv zeta;
          first [ eapply frames_bind; [ frame_prim | intros ? ?; cbv beta in * ]
                | apply frames_ret; first [ done | lia ] ]).

Lemma frames_privatePropertyFiltering n (a b r : loc) path :
  frames H W n (fun l => (n <= l)%nat) (privatePropertyFiltering a b r path).
Proof. unfold privatePropertyFiltering. frame_steps. Qed.

Lemma frames_structureFiltering n (a s : loc) path :
  frames H W n (fun l => (n <= l)%nat) (structureFiltering a s path).
Proof. unfold structureFiltering. frame_steps. Qed.

Lemma frames_routeAndVegFiltering n (a r s : loc) path :
  frames H W n (fun _ => True) (routeAndVegFiltering a r s path).
Proof. unfold routeAndVegFiltering. frame_steps. Qed.
(** *** [privatePropertyFiltering], run *)

Lemma run_ppf_body (g : img Z) h t d kb kr D R c :
  t !! kb = Some D -> t !! kr = Some R ->
  ppf_body g (length h + kb)%nat (length h + kr)%nat c (World (h ++ t) d)
  = (Ok tt, World (h ++ <[kb := ppf_fill R g D c]> t) d).
Proof.
  intros Hb Hr. unfold ppf_body.
  eapply bind_ok_eq; [by apply run_load_new|].
  cbv zeta. erewrite run_update_new by done. reflexivity.
Qed.

Lemma run_ppf_loop (g : img Z) cs h t d kb kr D R :
  t !! kb = Some D -> t !! kr = Some R -> kb <> kr ->
  for_each cs (ppf_body g (length h + kb)%nat (length h + kr)%nat)
    (World (h ++ t) d)
  = (Ok tt, World (h ++ <[kb := foldl (ppf_fill R g) D cs]> t) d).
Proof.
  intros Hb Hr Hne. revert t D Hb Hr.
  induction cs as [|c cs IH]; intros t D Hb Hr; simpl.
  - by rewrite list_insert_id.
  - eapply bind_ok_eq; [by eapply run_ppf_body|].
    pose proof (lookup_lt_Some _ _ _ Hb) as Hlt.
    rewrite (IH _ (ppf_fill R g D c)).
    + by rewrite list_insert_insert_eq.
    + by apply list_lookup_insert_eq.
    + by rewrite list_lookup_insert_ne.
Qed.

Lemma run_privatePropertyFiltering (a b r : loc) path h d A B R :
  h !! a = Some A -> h !! b = Some B -> h !! r = Some R ->
  privatePropertyFiltering a b r path (World h d)
  = (Ok (length h),
     World (h ++ [ppf_recolor (ppf_drawn B R (ppf_contours B)) A;
                  ppf_drawn B R (ppf_contours B); R])
       (ppf_disk path A B R d)).
Proof.
  intros Ha Hb Hr. unfold privatePropertyFiltering.
  replace (World h d) with (World (h ++ []) d) by (by rewrite app_nil_r).
  eapply bind_ok_eq; [by apply run_np_copy_old|]. cbn [length app].
  eapply bind_ok_eq; [by apply run_np_copy_old|]. cbn [length app].
  eapply bind_ok_eq; [by apply run_np_copy_old|]. cbn [length app].
  eapply bind_ok_eq; [by apply run_load_new|]. cbv zeta.
  eapply bind_ok_eq; [reflexivity|]. cbn [heap disk].
  eapply bind_ok_eq; [reflexivity|]. cbn [heap disk].
  eapply bind_ok_eq; [by apply (run_ppf_loop _ _ _ _ _ 1%nat 2%nat B R)|].
  cbn [list_insert insert].
  eapply bind_ok_eq; [by apply run_load_new|].
  eapply bind_ok_eq; [reflexivity|]. cbn [heap disk].
  eapply bind_ok_eq; [reflexivity|]. cbn [heap disk].
  eapply bind_ok_eq; [by apply (run_update_new _ _ _ 0%nat _ A)|].
  eapply bind_ok_eq; [by apply (run_load_new _ _ _ 0%nat)|].
  eapply bind_ok_eq; [reflexivity|]. cbn [heap disk].
  unfold ret. by rewrite Nat.add_0_r.
Qed.

(** *** [structureFiltering], run *)

Lemma run_structureFiltering (a s : loc) path h d A S :
  h !! a = Some A -> h !! s = Some S ->
  structureFiltering a s path (World h d)
  = (Ok (length h),
     World (h ++ [sf_result A S; S])
       (<[path +:+ "/subresults/007_Structures_Removed.png" :=
            BGR (sf_result A S)]>
          (<[path +:+ "/subresults/006_Structures_Redmask.png" :=
               BGR (sf_redMask S)]> d))).
Proof.
  intros Ha Hs. unfold structureFiltering.
  replace (World h d) with (World (h ++ []) d) by (by rewrite app_nil_r).
  eapply bind_ok_eq; [by apply run_np_copy_old|]. cbn [length app].
  eapply bind_ok_eq; [by apply run_np_copy_old|]. cbn [length app].
  eapply bind_ok_eq; [by apply run_load_new|]. cbv zeta.
  eapply bind_ok_eq; [reflexivity|]. cbn [heap disk].
  eapply bind_ok_eq; [by apply (run_update_new _ _ _ 0%nat _ A)|].
  eapply bind_ok_eq; [by apply (run_load_new _ _ _ 0%nat)|].
  eapply bind_ok_eq; [reflexivity|]. cbn [heap disk].
  unfold ret. by rewrite Nat.add_0_r.
Qed.

(** *** [routeAndVegFiltering], run *)

Lemma run_py_div (a b : Z) (w : world H W) :
  b <> 0 -> py_div a b w = (Ok (inject_Z a / inject_Z b)%Q, w).
Proof. intros Hb. unfold py_div. by rewrite decide_False. Qed.

Lemma run_rvf_body (bin gm : img Z) h t d k D c :
  t !! k = Some D -> totalPixelCount bin c <> 0 ->
  rvf_body bin gm (length h + k)%nat c (World (h ++ t) d)
  = (Ok tt, World (h ++ <[k := rvf_step bin gm D c]> t) d).
Proof.
  intros Hk Hnz. unfold rvf_body, rvf_step. cbv zeta.
  fold (totalPixelCount bin c) (whitePixelCount bin c)
    (greenPixelCount gm c).
  eapply bind_ok_eq; [by apply run_py_div|].
  destruct (Qltb (1 # 1000) _).
  - by erewrite run_update_new.
  - eapply bind_ok_eq; [by apply run_py_div|].
    destruct (Qltb (1 # 10) _).
    + by erewrite run_update_new.
    + unfold ret. by rewrite list_insert_id.
Qed.

Lemma run_rvf_loop (bin gm : img Z) cs h t d k D :
  t !! k = Some D ->
  (forall c, c ∈ cs -> totalPixelCount bin c <> 0) ->
  for_each cs (rvf_body bin gm (length h + k)%nat) (World (h ++ t) d)
  = (Ok tt, World (h ++ <[k := foldl (rvf_step bin gm) D cs]> t) d).
Proof.
  revert t D. induction cs as [|c cs IH]; intros t D Hk Hnz; simpl.
  - by rewrite list_insert_id.
  - eapply bind_ok_eq.
    { apply run_rvf_body; [done|]. apply Hnz. left. }
    pose proof (lookup_lt_Some _ _ _ Hk) as Hlt.
    rewrite (IH _ (rvf_step bin gm D c)).
    + by rewrite list_insert_insert_eq.
    + by apply list_lookup_insert_eq.
    + intros c' Hc'. apply Hnz. by right.
Qed.

Lemma run_routeAndVegFiltering (a r s : loc) path h d A R S :
  h !! a = Some A -> h !! r = Some R -> h !! s = Some S ->
  (forall c, c ∈ rvf_contours A -> totalPixelCount (rvf_routes R) c <> 0) ->
  exists d',
    routeAndVegFiltering a r s path (World h d)
    = (Ok (rvf_binary (rvf_drawn A R S)),
       World (h ++ [rvf_masked A; R; rvf_drawn A R S;
                    fill_region (outlined (rvf_contours A)) (0, 255, 0)
                      (rvf_drawn A R S)])
         d')
    /\ d' !! (path +:+ "/subresults/021_AM_Reduced_2.png")
       = Some (GRAY (rvf_binary (rvf_drawn A R S))).
Proof.
  intros Ha Hr Hs Hnz. eexists. split.
  - unfold routeAndVegFiltering.
    replace (World h d) with (World (h ++ []) d) by (by rewrite app_nil_r).
    eapply bind_ok_eq; [by apply run_np_copy_old|]. cbn [length app].
    eapply bind_ok_eq; [by apply run_np_copy_old|]. cbn [length app].
    eapply bind_ok_eq; [by apply (run_load_new _ _ _ 0%nat)|]. cbv zeta.
    do 4 (eapply bind_ok_eq; [reflexivity|]; cbn [heap disk]).
    eapply bind_ok_eq; [by apply (run_update_new _ _ _ 0%nat _ A)|].
    cbn [list_insert insert].
    eapply bind_ok_eq; [by apply (run_load_new _ _ _ 0%nat)|].
    eapply bind_ok_eq; [reflexivity|]; cbn [heap disk].
    eapply bind_ok_eq; [apply run_alloc|]. cbn [length app].
    eapply bind_ok_eq; [by apply (run_load_new _ _ _ 2%nat)|].
    do 3 (eapply bind_ok_eq; [reflexivity|]; cbn [heap disk]).
    eapply bind_ok_eq; [by apply (run_load_new _ _ _ 1%nat)|].
    eapply bind_ok_eq; [reflexivity|]; cbn [heap disk].
    eapply bind_ok_eq; [by apply run_load_old|].
    do 2 (eapply bind_ok_eq; [reflexivity|]; cbn [heap disk]).
    eapply bind_ok_eq.
    { by apply (run_rvf_loop _ _ _ _ _ _ 2%nat (rvf_filtered A)). }
    cbn [list_insert insert].
    eapply bind_ok_eq; [by apply (run_np_copy_new _ _ _ 2%nat)|].
    cbn [length app].
    eapply bind_ok_eq; [by apply (run_load_new _ _ _ 3%nat)|].
    eapply bind_ok_eq; [by apply (run_load_new _ _ _ 1%nat)|].
    eapply bind_ok_eq; [reflexivity|]; cbn [heap disk].
    eapply bind_ok_eq; [by apply (run_update_new _ _ _ 3%nat)|].
    cbn [list_insert insert].
    eapply bind_ok_eq; [by apply (run_load_new _ _ _ 3%nat)|].
    eapply bind_ok_eq; [reflexivity|]; cbn [heap disk].
    eapply bind_ok_eq; [by apply (run_load_new _ _ _ 2%nat)|].
    do 3 (eapply bind_ok_eq; [reflexivity|]; cbn [heap disk]).
    reflexivity.
  - apply lookup_insert_eq.
Qed.

(** *** Filling, pixel by pixel *)

Lemma px_contour_mask {T : Type} (g : img T) c i j :
  px (contour_mask g c) i j = if filled c i j then 255 else 0.
Proof.
  unfold contour_mask, zeros_like.
  by rewrite px_fill_region, px_tabulate.
Qed.

Lemma totalPixelCount_pos (bin : img Z) c :
  0 < totalPixelCount bin c <-> exists i j, filled c i j = true.
Proof.
  unfold totalPixelCount. rewrite countNonZero_pos.
  split; intros (i & j & Hij); exists i, j;
    rewrite px_contour_mask in *; by destruct (filled c i j).
Qed.

Lemma pixel_land_diag (p : pixel) : pixel_land p p = p.
Proof. destruct p as [[p0 p1] p2]. simpl. by rewrite !Z.land_diag. Qed.

Lemma ppf_color_green R (g : img Z) c :
  (exists i j, filled c i j = true
               /\ in_bounds (0, 150, 0) (30, 255, 30) (px R i j) = true) ->
  ppf_color R g c = green.
Proof.
  intros (i & j & Hin & Hg). unfold ppf_color.
  assert (Hpos : 0 < countNonZero
            (inRange (bitwise_and_mask R R (contour_mask g c))
               (0, 150, 0) (30, 255, 30))).
  { apply countNonZero_pos. exists i, j.
    rewrite px_inRange. unfold bitwise_and_mask.
    rewrite px_tabulate, px_contour_mask, Hin.
    rewrite decide_False by done.
    by rewrite pixel_land_diag, Hg. }
  apply Z.ltb_lt in Hpos. by rewrite Hpos.
Qed.

Lemma ppf_color_red R (g : img Z) c :
  ~ (exists i j, filled c i j = true
                 /\ in_bounds (0, 150, 0) (30, 255, 30) (px R i j) = true) ->
  ppf_color R g c = red.
Proof.
  intros Hno. unfold ppf_color.
  assert (Hz : countNonZero
            (inRange (bitwise_and_mask R R (contour_mask g c))
               (0, 150, 0) (30, 255, 30)) = 0).
  { apply countNonZero_zero. intros i j.
    rewrite px_inRange. unfold bitwise_and_mask.
    rewrite px_tabulate, px_contour_mask.
    destruct (filled c i j) eqn:Hin.
    - rewrite decide_False by done. rewrite pixel_land_diag.
      destruct (in_bounds _ _ (px R i j)) eqn:Hg; [|done].
      exfalso. apply Hno. by exists i, j.
    - by rewrite decide_True. }
  by rewrite Hz.
Qed.

Lemma local_ppf_fill R (g : img Z) : local_step (ppf_fill R g).
Proof.
  intros D c i j Hout. unfold ppf_fill. by rewrite px_fill_region, Hout.
Qed.

Lemma local_rvf_step (bin gm : img Z) : local_step (rvf_step bin gm).
Proof.
  intros D c i j Hout. unfold rvf_step.
  repeat (destruct (Qltb _ _)); by rewrite ?px_fill_region, ?Hout.
Qed.

Lemma px_foldl_uncovered step D cs i j :
  local_step step ->
  (forall c, c ∈ cs -> filled c i j = false) ->
  px (foldl step D cs) i j = px D i j.
Proof.
  intros Hstep. revert D. induction cs as [|c cs IH]; intros D Hcs; [done|].
  simpl. rewrite IH by (intros c' Hc'; apply Hcs; by right).
  apply Hstep, Hcs. left.
Qed.

Lemma px_ppf_drawn_last R (g : img Z) D pre c post i j :
  filled c i j = true ->
  (forall c', c' ∈ post -> filled c' i j = false) ->
  px (foldl (ppf_fill R g) D (pre ++ c :: post)) i j = ppf_color R g c.
Proof.
  intros Hin Hpost. rewrite foldl_app. simpl.
  rewrite px_foldl_uncovered by (done || apply local_ppf_fill).
  unfold ppf_fill at 1. by rewrite px_fill_region, Hin.
Qed.

Lemma lookup_ppf_disk_003 path A B R d :
  ppf_disk path A B R d !! (path +:+ "/subresults/003_Boundary_Contour.png")
  = Some (BGR (ppf_drawn B R (ppf_contours B))).
Proof.
  unfold ppf_disk. cbv zeta.
  rewrite lookup_insert_ne by (by apply string_app_ne).
  rewrite lookup_insert_ne by (by apply string_app_ne).
  apply lookup_insert_eq.
Qed.

Lemma elem_of_area_filter (contours : list contour) c :
  c ∈ area_filter contours
  <-> c ∈ contours
      /\ (100 < contourArea c)%Q
      /\ (contourArea c < inject_Z (totalPixels H W) / 2)%Q.
Proof.
  unfold area_filter, keeps. rewrite list_elem_of_filter.
  rewrite andb_true_iff, !Qltb_lt. tauto.
Qed.

Lemma px_eq_scalar (m : img Z) k i j :
  px (eq_scalar m k) i j = bool_decide (px m i j = k).
Proof. exact (px_rmap _ _ i j). Qed.

Lemma px_ppf_mask_out (hsv : img pixel) A i j :
  px (ppf_mask_out hsv A) i j
  = if in_bounds (40, 40, 40) (80, 255, 255) (px hsv i j)
    then px A i j else (0, 0, 255).
Proof.
  unfold ppf_mask_out.
  rewrite px_assign_where, px_eq_scalar, px_bitwise_not, px_inRange.
  unfold lowerGreen, upperGreen.
  by destruct (in_bounds _ _ (px hsv i j)).
Qed.

(** *** The loops write inside fills only *)

Lemma fills_only_ppf_body (g : img Z) (bl rl : loc) :
  fills_only bl (ppf_body g bl rl).
Proof.
  intros c w. unfold ppf_body, bind, load, update. cbv zeta.
  destruct (_ !! rl) as [R|]; [|by left]. cbn [heap].
  destruct (_ !! bl) as [D|] eqn:E; [|by left].
  right. eauto.
Qed.

Lemma fills_only_rvf_body (bin gm : img Z) (l : loc) :
  fills_only l (rvf_body bin gm l).
Proof.
  intros c w. unfold rvf_body, bind, py_div, update, raise, ret. cbv zeta.
  case_decide; [by left|].
  destruct (Qltb (1 # 1000) _).
  - destruct (_ !! l) as [D|] eqn:E; [right; eauto | by left].
  - destruct (Qltb (1 # 10) _); [|by left].
    destruct (_ !! l) as [D|] eqn:E; [right; eauto | by left].
Qed.

Lemma for_each_fills_only (l : loc) body cs (w : world H W) D :
  fills_only l body ->
  heap w !! l = Some D ->
  exists D',
    heap (snd (for_each cs body w)) !! l = Some D'
    /\ forall i j,
         (forall c, c ∈ cs -> filled c i j = false) -> px D' i j = px D i j.
Proof.
  intros Hbody. revert w D.
  induction cs as [|c cs IH]; intros w D Hl; simpl.
  - by exists D.
  - assert (Hstep : exists D1,
               heap (snd (body c w)) !! l = Some D1
               /\ forall i j, filled c i j = false -> px D1 i j = px D i j).
    { destruct (Hbody c w) as [Heq | (D0 & col & Hl0 & Heq)].
      - exists D. by rewrite Heq.
      - rewrite Hl in Hl0. injection Hl0 as <-.
        exists (fill_region (filled c) col D). split.
        + rewrite Heq. apply list_lookup_insert_eq.
          by eapply lookup_lt_Some.
        + intros i j Hout. by rewrite px_fill_region, Hout. }
    destruct Hstep as (D1 & Hl1 & Hpx1).
    unfold bind. destruct (body c w) as [[[]|e] w1]; simpl in *.
    + destruct (IH w1 D1 Hl1) as (D' & Hl' & Hpx').
      exists D'. split; [done|]. intros i j Hcs.
      rewrite Hpx' by (intros c' Hc'; apply Hcs; by right).
      apply Hpx1, Hcs. left.
    + exists D1. split; [done|]. intros i j Hcs. apply Hpx1, Hcs. left.
Qed.

(** *** Claims about the filters *)

(** C1.  In [privatePropertyFiltering], each contour [c] that the area
    filter lets through is filled with one colour: green [(0,255,0)] when
    some position inside its fill holds a routes pixel whose channels lie
    within (0,150,0)-(30,255,30), red [(0,0,255)] when none does.  The
    fill is in place right after the iteration for [c], and it is what
    the drawn raster (diagnostic 003) shows wherever no later contour
    paints over it. *)
Theorem ppf_fills_green_or_red
    (a b r : loc) (path : string) (w : world H W) A B R :
  heap w !! a = Some A -> heap w !! b = Some B -> heap w !! r = Some R ->
  let drawn := ppf_drawn B R (ppf_contours B) in
  fst (privatePropertyFiltering a b r path w) = Ok (length (heap w))
  /\ disk (snd (privatePropertyFiltering a b r path w))
       !! (path +:+ "/subresults/003_Boundary_Contour.png")
     = Some (BGR drawn)
  /\ forall pre c post,
       ppf_contours B = pre ++ c :: post ->
       exists colour,
         ((exists i j,
              filled c i j = true
              /\ in_bounds (0, 150, 0) (30, 255, 30) (px R i j) = true) ->
          colour = green)
         /\ (~ (exists i j,
                   filled c i j = true
                   /\ in_bounds (0, 150, 0) (30, 255, 30) (px R i j) = true) ->
             colour = red)
         /\ forall i j,
              filled c i j = true ->
              px (ppf_drawn B R (pre ++ [c])) i j = colour
              /\ ((forall c', c' ∈ post -> filled c' i j = false) ->
                  px drawn i j = colour).
Proof.
  intros Ha Hb Hr drawn. destruct w as [h d]. simpl in Ha, Hb, Hr.
  rewrite (run_privatePropertyFiltering a b r path h d A B R Ha Hb Hr).
  simpl. split; [done|]. split; [apply lookup_ppf_disk_003|].
  intros pre c post Hcs.
  exists (ppf_color R (cvtColor_BGR2GRAY B) c).
  split; [apply ppf_color_green|]. split; [apply ppf_color_red|].
  intros i j Hin. split.
  - unfold ppf_drawn.
    by apply (px_ppf_drawn_last R _ B pre c []);
      [|intros c' Hc'; apply elem_of_nil in Hc'].
  - intros Hpost. unfold drawn, ppf_drawn. rewrite Hcs.
    by apply px_ppf_drawn_last.
Qed.

(** C2, as the code has it.  The list comprehension keeps a traced contour
    exactly when its area is strictly between 100 and half the pixel
    count, and a contour outside that band adds nothing to the list the
    loops go through: the loops run as if it had not been traced.  Each
    fill loop changes the array it draws on (the boundaries copy in
    [privatePropertyFiltering], the base-map copy in
    [routeAndVegFiltering]) only at positions inside the fill of some
    contour that was kept; this holds whether the loop ends or raises.
    For a contour that reaches the loop, the body of
    [privatePropertyFiltering] always applies a fill, green or red; the
    body of [routeAndVegFiltering] applies a fill, red, when the contour
    passes the road test or the vegetation test, and leaves everything
    as it is when it passes neither. *)
Theorem area_filter_band (contours : list contour) :
  (forall c,
      c ∈ area_filter contours
      <-> c ∈ contours
          /\ (100 < contourArea c)%Q
          /\ (contourArea c < inject_Z (totalPixels H W) / 2)%Q)
  /\ (forall pre c post,
         contours = pre ++ c :: post ->
         ((contourArea c <= 100)%Q
          \/ (inject_Z (totalPixels H W) / 2 <= contourArea c)%Q) ->
         area_filter contours = area_filter (pre ++ post))
  /\ (forall (g : img Z) (bl rl : loc) (w : world H W) D,
         heap w !! bl = Some D ->
         exists D',
           heap (snd (for_each (area_filter contours) (ppf_body g bl rl) w))
             !! bl = Some D'
           /\ forall i j,
                (forall c, c ∈ area_filter contours -> filled c i j = false) ->
                px D' i j = px D i j)
  /\ (forall (bin gm : img Z) (l : loc) (w : world H W) D,
         heap w !! l = Some D ->
         exists D',
           heap (snd (for_each (area_filter contours) (rvf_body bin gm l) w))
             !! l = Some D'
           /\ forall i j,
                (forall c, c ∈ area_filter contours -> filled c i j = false) ->
                px D' i j = px D i j)
  /\ (forall (g : img Z) (bl rl : loc) (w : world H W) D R c,
         heap w !! bl = Some D -> heap w !! rl = Some R ->
         exists colour,
           (colour = green \/ colour = red)
           /\ ppf_body g bl rl c w
              = (Ok tt,
                 World (<[bl := fill_region (filled c) colour D]> (heap w))
                   (disk w)))
  /\ (forall (bin gm : img Z) (l : loc) (w : world H W) D c,
         heap w !! l = Some D -> totalPixelCount bin c <> 0 ->
         rvf_body bin gm l c w
         = if Qltb (1 # 1000)
                (inject_Z (whitePixelCount bin c)
                 / inject_Z (totalPixelCount bin c))
              || Qltb (1 # 10)
                   (inject_Z (greenPixelCount gm c)
                    / inject_Z (totalPixelCount bin c))
           then (Ok tt,
                 World (<[l := fill_region (filled c) red D]> (heap w))
                   (disk w))
           else (Ok tt, w)).
Proof.
  split; [intros c; apply elem_of_area_filter|].
  split.
  { intros pre c post -> Hout. unfold area_filter.
    rewrite !filter_app, filter_cons_False; [done|].
    unfold keeps. intros [H1 H2]%andb_true_iff.
    apply Qltb_lt in H1, H2.
    destruct Hout as [Hs | Hb].
    - exact (Qlt_not_le _ _ H2 Hs).
    - exact (Qlt_not_le _ _ H1 Hb). }
  split.
  { intros g bl rl w D Hl.
    apply for_each_fills_only; [apply fills_only_ppf_body | done]. }
  split.
  { intros bin gm l w D Hl.
    apply for_each_fills_only; [apply fills_only_rvf_body | done]. }
  split.
  - intros g bl rl w D R c Hb Hr. exists (ppf_color R g c). split.
    + unfold ppf_color, green, red. destruct (0 <? _); auto.
    + unfold ppf_body, bind, load. rewrite Hr. cbv zeta.
      unfold update. cbn [heap disk]. rewrite Hb. reflexivity.
  - intros bin gm l w D c Hl Hnz. unfold rvf_body. cbv zeta.
    fold (totalPixelCount bin c) (whitePixelCount bin c)
      (greenPixelCount gm c).
    eapply bind_ok_eq; [by apply run_py_div|].
    destruct (Qltb (1 # 1000) _); simpl.
    + unfold update. by rewrite Hl.
    + eapply bind_ok_eq; [by apply run_py_div|].
      destruct (Qltb (1 # 10) _).
      * unfold update. by rewrite Hl.
      * done.
Qed.

Lemma run_rvf_body_road (bin gm : img Z) (l : loc) c (w : world H W) D :
  heap w !! l = Some D ->
  (1 # 1000
   < inject_Z (whitePixelCount bin c) / inject_Z (totalPixelCount bin c))%Q ->
  rvf_body bin gm l c w
  = (Ok tt,
     World (<[l := fill_region (filled c) (0, 0, 255) D]> (heap w)) (disk w)).
Proof.
  intros Hl Hratio.
  assert (Hnz : totalPixelCount bin c <> 0).
  { intros Hz. rewrite Hz in Hratio. unfold Qdiv, Qinv in Hratio.
    simpl in Hratio. rewrite Qmult_0_r in Hratio. by vm_compute in Hratio. }
  unfold rvf_body. cbv zeta.
  fold (totalPixelCount bin c) (whitePixelCount bin c).
  eapply bind_ok_eq; [by apply run_py_div|].
  apply Qltb_lt in Hratio. rewrite Hratio.
  unfold update. by rewrite Hl.
Qed.



(** C5, as the code has it.  After compositing and the median blur, the
    public mask selects the HSV pixels whose hue channel lies in 40-80
    (the stored 8-bit hue) with saturation and value in 40-255, and the
    array handed back is the base-map copy with every position outside
    that mask set to red [(0,0,255)] and every position inside it left
    as in the base map. *)
Theorem ppf_recolours_outside_hue_40_80
    (a b r : loc) (path : string) (w : world H W) A B R :
  heap w !! a = Some A -> heap w !! b = Some B -> heap w !! r = Some R ->
  let hsv :=
    cvtColor_BGR2HSV (medianBlur (ppf_drawn B R (ppf_contours B)) 7) in
  exists result,
    fst (privatePropertyFiltering a b r path w) = Ok (length (heap w))
    /\ heap (snd (privatePropertyFiltering a b r path w))
         !! length (heap w) = Some result
    /\ forall i j,
         px result i j
         = if in_bounds (40, 40, 40) (80, 255, 255) (px hsv i j)
           then px A i j else (0, 0, 255).
Proof.
  intros Ha Hb Hr hsv. destruct w as [h d]. simpl in Ha, Hb, Hr.
  exists (ppf_mask_out hsv A).
  rewrite (run_privatePropertyFiltering a b r path h d A B R Ha Hb Hr).
  simpl. split; [done|]. split.
  - by rewrite list_lookup_middle.
  - apply px_ppf_mask_out.
Qed.

(** C9.  Whatever array was in the store when a filter is called, and so
    every raster the caller passes in, holds the same pixels when the
    filter returns or raises: the filters write only to arrays they
    allocate themselves (copies and fresh results). *)
Theorem filters_leave_callers_rasters
    (w : world H W) (path : string) (l : loc) v :
  heap w !! l = Some v ->
  (forall a b r : loc,
      heap (snd (privatePropertyFiltering a b r path w)) !! l = Some v)
  /\ (forall a s : loc,
         heap (snd (structureFiltering a s path w)) !! l = Some v)
  /\ (forall a r s : loc,
         heap (snd (routeAndVegFiltering a r s path w)) !! l = Some v).
Proof.
  intros Hl. repeat split; intros.
  - eapply frames_lookup; [apply frames_privatePropertyFiltering | done].
  - eapply frames_lookup; [apply frames_structureFiltering | done].
  - eapply frames_lookup; [apply frames_routeAndVegFiltering | done].
Qed.

Lemma totalPixelCount_nonzero (bin : img Z) (contours : list contour) c :
  (forall c', c' ∈ contours -> exists i j, filled c' i j = true) ->
  c ∈ area_filter contours -> totalPixelCount bin c <> 0.
Proof.
  intros Hfill Hc. apply elem_of_area_filter in Hc as (Hc & _).
  apply Hfill, (totalPixelCount_pos bin) in Hc. lia.
Qed.

Lemma segmentAM_value (base roads bnd routes sat : loc) path
    (w : world H W) v :
  fst (segmentAM base roads bnd routes sat path w) = Ok v -> v = Fn_segmentAM.
Proof.
  unfold segmentAM, bind.
  destruct (privatePropertyFiltering _ _ _ _ _) as [[l1|e1] w1]; [|done].
  destruct (routeAndVegFiltering _ _ _ _ _) as [[f|e2] w2]; [|done].
  simpl. by intros [= <-].
Qed.

Lemma segmentAM_noStructures_value (base structures bnd routes sat : loc)
    path (w : world H W) v :
  fst (segmentAM_noStructures base structures bnd routes sat path w) = Ok v ->
  v = Fn_segmentAM.
Proof.
  unfold segmentAM_noStructures, bind.
  destruct (privatePropertyFiltering _ _ _ _ _) as [[l1|e1] w1]; [|done].
  destruct (structureFiltering _ _ _ _) as [[l2|e2] w2]; [|done].
  destruct (routeAndVegFiltering _ _ _ _ _) as [[f|e3] w3]; [|done].
  simpl. by intros [= <-].
Qed.

(** C10, as the code has it.  [segmentAM] and [segmentAM_noStructures]
    hand back the function object [segmentAM], never the raster: that is
    the only value either can return, and on rasters that are in the
    store (every traced contour having a non-empty fill) both do return
    it.  The raster that [routeAndVegFiltering] returned is not handed
    back; it is left in files under the result directory: in
    [segmented.jpg], and also in the diagnostic
    [subresults/021_AM_Reduced_2.png] written just before, which is
    another file. *)
Theorem segmentAM_returns_function_object
    (base roads structures bnd routes sat : loc) (path : string)
    (w : world H W) A T B R S :
  (forall m c, c ∈ findContours m -> exists i j, filled c i j = true) ->
  heap w !! base = Some A -> heap w !! structures = Some T ->
  heap w !! bnd = Some B -> heap w !! routes = Some R ->
  heap w !! sat = Some S ->
  (forall v,
      fst (segmentAM base roads bnd routes sat path w) = Ok v
      \/ fst (segmentAM_noStructures base structures bnd routes sat path w)
         = Ok v ->
      v = Fn_segmentAM)
  /\ (exists l1 w1 final w2,
         privatePropertyFiltering base bnd routes path w = (Ok l1, w1)
         /\ routeAndVegFiltering l1 routes sat path w1 = (Ok final, w2)
         /\ disk w2 !! (path +:+ "/subresults/021_AM_Reduced_2.png")
            = Some (GRAY final)
         /\ segmentAM base roads bnd routes sat path w
            = (Ok Fn_segmentAM,
               World (heap w2)
                 (<[path +:+ "/segmented.jpg" := GRAY final]> (disk w2))))
  /\ (exists l1 w1 l2 w2 final w3,
         privatePropertyFiltering base bnd routes path w = (Ok l1, w1)
         /\ structureFiltering l1 structures path w1 = (Ok l2, w2)
         /\ routeAndVegFiltering l2 routes sat path w2 = (Ok final, w3)
         /\ disk w3 !! (path +:+ "/subresults/021_AM_Reduced_2.png")
            = Some (GRAY final)
         /\ segmentAM_noStructures base structures bnd routes sat path w
            = (Ok Fn_segmentAM,
               World (heap w3)
                 (<[path +:+ "/segmented.jpg" := GRAY final]> (disk w3))))
  /\ path +:+ "/subresults/021_AM_Reduced_2.png"
     <> path +:+ "/segmented.jpg".
Proof.
  intros Hfill Ha Ht Hb Hr Hs. destruct w as [h d].
  simpl in Ha, Ht, Hb, Hr, Hs.
  pose proof (run_privatePropertyFiltering base bnd routes path h d A B R
                Ha Hb Hr) as Hppf.
  set (A1 := ppf_recolor (ppf_drawn B R (ppf_contours B)) A) in *.
  set (h1 := h ++ [A1; ppf_drawn B R (ppf_contours B); R]) in *.
  assert (Hl1 : h1 !! length h = Some A1) by (by apply list_lookup_middle).
  assert (Hr1 : h1 !! routes = Some R) by (by apply lookup_app_l_Some).
  assert (Hs1 : h1 !! sat = Some S) by (by apply lookup_app_l_Some).
  assert (Ht1 : h1 !! structures = Some T) by (by apply lookup_app_l_Some).
  split; [|split; [|split]]; [| | |by apply string_app_ne].
  - intros v [Hv | Hv];
      [by eapply segmentAM_value | by eapply segmentAM_noStructures_value].
  - destruct (run_routeAndVegFiltering (length h) routes sat path h1
                (ppf_disk path A B R d) A1 R S Hl1 Hr1 Hs1)
      as (d2 & Hrvf & H021).
    { intros c Hc. unfold rvf_contours in Hc.
      eapply totalPixelCount_nonzero; [|exact Hc].
      intros c' Hc'. by eapply Hfill. }
    eexists _, _, _, _. split; [exact Hppf|]. split; [exact Hrvf|].
    split; [exact H021|].
    unfold segmentAM.
    eapply bind_ok_eq; [exact Hppf|].
    eapply bind_ok_eq; [exact Hrvf|]. reflexivity.
  - pose proof (run_structureFiltering (length h) structures path h1
                  (ppf_disk path A B R d) A1 T Hl1 Ht1) as Hsf.
    set (h2 := h1 ++ [sf_result A1 T; T]) in *.
    assert (Hl2 : h2 !! length h1 = Some (sf_result A1 T))
      by (by apply list_lookup_middle).
    assert (Hr2 : h2 !! routes = Some R) by (by apply lookup_app_l_Some).
    assert (Hs2 : h2 !! sat = Some S) by (by apply lookup_app_l_Some).
    match type of Hsf with _ = (_, World _ ?d1) =>
      destruct (run_routeAndVegFiltering (length h1) routes sat path h2
                  d1 (sf_result A1 T) R S Hl2 Hr2 Hs2) as (d3 & Hrvf & H021)
    end.
    { intros c Hc. unfold rvf_contours in Hc.
      eapply totalPixelCount_nonzero; [|exact Hc].
      intros c' Hc'. by eapply Hfill. }
    eexists _, _, _, _, _, _.
    split; [exact Hppf|]. split; [exact Hsf|]. split; [exact Hrvf|].
    split; [exact H021|].
    unfold segmentAM_noStructures.
    eapply bind_ok_eq; [exact Hppf|].
    eapply bind_ok_eq; [exact Hsf|].
    eapply bind_ok_eq; [exact Hrvf|]. reflexivity.
Qed.
End SegmentationFacts.

(** ** The filters on the sample rasters *)

Section SegmentationExamples.
Local Existing Instance Sample.cv.
Import Sample.

Lemma sample_contours_filled (m : raster 16 16 Z) (c : contour) :
  c ∈ findContours m -> exists i j : fin 16, filled c i j = true.
Proof.
  simpl. intros Hc. exists 6%fin, 6%fin.
  apply elem_of_cons in Hc as [-> | Hc]; [by vm_compute|].
  apply elem_of_cons in Hc as [-> | Hc]; [by vm_compute|].
  by apply elem_of_nil in Hc.
Qed.

Lemma ppf_fills_green_or_red_witness :
  let w := World [blank; blank; green_route] ∅ in
  fst (privatePropertyFiltering 0%nat 1%nat 2%nat "out" w) = Ok 3%nat
  /\ exists colour,
       colour = green
       /\ px (ppf_drawn blank green_route (ppf_contours blank)) 3%fin 3%fin
          = colour.
Proof.
  intros w.
  destruct (ppf_fills_green_or_red 0%nat 1%nat 2%nat "out" w
              blank blank green_route eq_refl eq_refl eq_refl)
    as (Hret & _ & Hfill).
  split; [exact Hret|].
  destruct (Hfill [] region [] ltac:(by vm_compute))
    as (colour & Hgreen & _ & Hpx).
  exists colour. split.
  - apply Hgreen. exists 3%fin, 3%fin. by vm_compute.
  - apply (Hpx 3%fin 3%fin ltac:(by vm_compute)).
    intros c' Hc'. by apply elem_of_nil in Hc'.
Defined.

Lemma area_filter_band_witness :
  area_filter [region; speck] = area_filter ([region] ++ [])
  /\ exists D',
       heap (snd (for_each (area_filter [region; speck])
                    (rvf_body one_route none_set 0%nat)
                    (World [blank] ∅))) !! 0%nat = Some D'
       /\ px D' 15%fin 15%fin = px blank 15%fin 15%fin.
Proof.
  destruct (area_filter_band [region; speck]) as (_ & Hdrop & _ & Hrvf & _).
  split.
  - apply (Hdrop [region] speck [] eq_refl). left. by vm_compute.
  - destruct (Hrvf one_route none_set 0%nat (World [blank] ∅) blank eq_refl)
      as (D' & Hl & Hpx).
    exists D'. split; [exact Hl|].
    apply Hpx. intros c Hc.
    rewrite (Hdrop [region] speck [] eq_refl) in Hc
      by (left; by vm_compute).
    apply list_elem_of_filter in Hc as [_ Hc].
    apply elem_of_cons in Hc as [-> | Hc]; [by vm_compute|].
    by apply elem_of_nil in Hc.
Defined.

(** C2 as the claim words it fails: [speck] has area 4 and is dropped by
    the filter, yet its pixel at row 6, column 6 is white before the loop
    of [routeAndVegFiltering] and red after it, painted by the fill of
    the kept contour [region] around it ([region] holds one route pixel
    among its 132, a share above 0.001). *)
Lemma excluded_contour_repainted :
  let w := World [blank] ∅ in
  let w' :=
    snd (for_each (area_filter [region; speck])
           (rvf_body one_route none_set 0%nat) w) in
  (contourArea speck <= 100)%Q
  /\ ~ (speck ∈ area_filter [region; speck])
  /\ filled speck 6%fin 6%fin = true
  /\ heap w !! 0%nat = Some blank
  /\ px blank 6%fin 6%fin = white
  /\ exists D', heap w' !! 0%nat = Some D' /\ px D' 6%fin 6%fin = red.
Proof.
  intros w w'. split; [by vm_compute|]. split.
  { intros Hin. apply elem_of_area_filter in Hin as (_ & Hlt & _).
    by vm_compute in Hlt. }
  split; [by vm_compute|]. split; [done|]. split; [by vm_compute|].
  eexists. split; by vm_compute.
Qed.


Lemma ppf_recolours_outside_hue_40_80_witness :
  let w := World [blank; blank; green_route] ∅ in
  exists result,
    heap (snd (privatePropertyFiltering 0%nat 1%nat 2%nat "out" w)) !! 3%nat
    = Some result
    /\ px result 0%fin 0%fin = (0, 0, 255).
Proof.
  intros w.
  destruct (ppf_recolours_outside_hue_40_80 0%nat 1%nat 2%nat "out" w
              blank blank green_route eq_refl eq_refl eq_refl)
    as (result & _ & Hl & Hpx).
  exists result. split; [exact Hl|].
  rewrite Hpx. by vm_compute.
Defined.

Lemma filters_leave_callers_rasters_witness :
  heap (snd (routeAndVegFiltering 0%nat 1%nat 2%nat "out"
               (World [blank; green_route; blank] ∅))) !! 1%nat
  = Some green_route.
Proof.
  exact (proj2 (proj2 (filters_leave_callers_rasters
                         (World [blank; green_route; blank] ∅) "out" 1%nat
                         green_route eq_refl))
           0%nat 1%nat 2%nat).
Defined.

Lemma segmentAM_returns_function_object_witness :
  let w := World [blank; blank; blank; green_route; blank] ∅ in
  fst (segmentAM 0%nat 1%nat 2%nat 3%nat 4%nat "out" w) = Ok Fn_segmentAM
  /\ fst (segmentAM_noStructures 0%nat 1%nat 2%nat 3%nat 4%nat "out" w)
     = Ok Fn_segmentAM.
Proof.
  intros w.
  destruct (segmentAM_returns_function_object
              0%nat 1%nat 1%nat 2%nat 3%nat 4%nat "out" w
              blank blank blank green_route blank
              sample_contours_filled eq_refl eq_refl eq_refl eq_refl eq_refl)
    as (_ & (l1 & w1 & final & w2 & _ & _ & _ & Hrun)
          & (l1' & w1' & l2' & w2' & final' & w3' & _ & _ & _ & _ & Hrun')
          & _).
  split; [by rewrite Hrun | by rewrite Hrun'].
Defined.

(** C10 as the claim words it fails: after [segmentAM] the raster of
    [segmented.jpg] is also the content of another file,
    [subresults/021_AM_Reduced_2.png]. *)
Lemma final_raster_in_two_files :
  let w := World [blank; blank; blank; green_route; blank] ∅ in
  let w' := snd (segmentAM 0%nat 1%nat 2%nat 3%nat 4%nat "out" w) in
  exists final,
    disk w' !! "out/segmented.jpg" = Some (GRAY final)
    /\ disk w' !! "out/subresults/021_AM_Reduced_2.png" = Some (GRAY final)
    /\ "out/subresults/021_AM_Reduced_2.png" <> "out/segmented.jpg".
Proof. intros w w'. eexists. by vm_compute. Qed.
End SegmentationExamples.

Section LargerExample.
Local Existing Instance Sample40.cv.

End LargerExample.

(** C5 as the claim words it fails.  After the fills every public pixel is
    pure green, whose stored HSV triple is (60, 255, 255): hue 60 is 120
    degrees.  The code keeps the base-map pixel there, although hue 60 is
    outside 20-40 whether that range is read in degrees or as the stored
    channel value. *)
Lemma hue_20_40_is_not_the_mask :
  let hsv : raster 1 1 pixel := [# [# (60, 255, 255)]] in
  let base : raster 1 1 pixel := [# [# (200, 180, 160)]] in
  spec_public_degrees (px hsv 0%fin 0%fin) = false
  /\ spec_public_stored (px hsv 0%fin 0%fin) = false
  /\ px (ppf_mask_out hsv base) 0%fin 0%fin = (200, 180, 160)
  /\ px (ppf_mask_out hsv base) 0%fin 0%fin <> red.
Proof. by vm_compute. Qed.

(** ** [loadImages] *)

Section LoaderFacts.
Context {Img : Type} (decode : list Byte.byte -> option Img).

Lemma imread_None files path :
  imread decode files path = None
  <-> files !! path = None
      \/ exists bytes, files !! path = Some bytes /\ decode bytes = None.
Proof.
  unfold imread. destruct (files !! path) as [bytes|]; split.
  - intros Hd. right. by exists bytes.
  - by intros [? | (? & [= <-] & ?)].
  - by left.
  - done.
Qed.

Lemma imread_delete_ne files p name name' :
  name <> name' ->
  imread decode (delete (p +:+ name) files) (p +:+ name')
  = imread decode files (p +:+ name').
Proof.
  intros Hne. unfold imread.
  by rewrite lookup_delete_ne by (by apply string_app_ne).
Qed.

Lemma imread_delete_eq files path :
  imread decode (delete path files) path = None.
Proof. unfold imread. by rewrite lookup_delete_eq. Qed.

(** C7.  [loadImages] always returns a five-tuple.  Its positions are read
    from [AM_with_roads.png], [boundaries.png], [routes.png],
    [AM_Detailed.png] and [satellite.png] under the given directory, in
    that order; a position is [None] exactly when its file is missing or
    does not decode; and taking one of the five files away empties its
    position and leaves the other four as they were. *)
Theorem loadImages_five_positions
    (files : gmap string (list Byte.byte)) (pathMaps : string) :
  (loaded (loadImages decode files pathMaps)).*1
  = ["/AM_with_roads.png"; "/boundaries.png"; "/routes.png";
     "/AM_Detailed.png"; "/satellite.png"]
  /\ (forall name img,
         (name, img) ∈ loaded (loadImages decode files pathMaps) ->
         img = imread decode files (pathMaps +:+ name)
         /\ (img = None
             <-> files !! (pathMaps +:+ name) = None
                 \/ exists bytes,
                      files !! (pathMaps +:+ name) = Some bytes
                      /\ decode bytes = None))
  /\ (forall gone name img,
         gone ∈ (loaded (loadImages decode files pathMaps)).*1 ->
         (name, img)
           ∈ loaded (loadImages decode
                       (delete (pathMaps +:+ gone) files) pathMaps) ->
         if decide (name = gone) then img = None
         else (name, img) ∈ loaded (loadImages decode files pathMaps)).
Proof.
  split; [done|]. split.
  - intros name img Hin. unfold loadImages, loaded in Hin.
    assert (Himg : img = imread decode files (pathMaps +:+ name)).
    { repeat (apply elem_of_cons in Hin as [[= -> ->] | Hin]; [done|]).
      by apply elem_of_nil in Hin. }
    split; [done|]. rewrite Himg. apply imread_None.
  - intros gone name img Hgone Hin. unfold loadImages, loaded in *.
    cbn [fmap list_fmap fst] in Hgone.
    case_decide as Hname.
    + subst name.
      repeat (apply elem_of_cons in Hin as [[= -> ->] | Hin];
              [apply imread_delete_eq|]).
      by apply elem_of_nil in Hin.
    + repeat (apply elem_of_cons in Hin as [[= -> ->] | Hin];
              [rewrite imread_delete_ne by done;
               apply list_elem_of_In; simpl; tauto|]).
      by apply elem_of_nil in Hin.
Qed.
End LoaderFacts.

Lemma loadImages_five_positions_witness :
  let files : gmap string (list Byte.byte) :=
    {[ "maps/routes.png" := [Byte.x01]; "maps/boundaries.png" := [] ]} in
  let decode (b : list Byte.byte) : option nat :=
    match b with [] => None | _ => Some (length b) end in
  loadImages decode files "maps" = (None, None, Some 1%nat, None, None)
  /\ forall name img,
       (name, img) ∈ loaded (loadImages decode (delete "maps/routes.png" files) "maps") ->
       if decide (name = "/routes.png") then img = None
       else (name, img) ∈ loaded (loadImages decode files "maps").
Proof.
  intros files decode. split; [by vm_compute|].
  intros name img.
  apply (proj2 (proj2 (loadImages_five_positions decode files "maps"))
           "/routes.png" name img).
  vm_compute. apply list_elem_of_In. simpl. tauto.
Defined.

(** ** The fetchers *)

(** Opening a file and writing chunks to it leaves the chunks, one after
    the other. *)
Lemma write_chunks (name : string) (chunks : list (list Byte.byte)) (o : os) :
  foldl (fun o chunk => f_write name chunk o) (open_wb name o) chunks
  = Os (<[name := mjoin chunks]> (fs o)) (stdout o).
Proof.
  unfold open_wb.
  assert (Hgo : forall acc,
             foldl (fun o chunk => f_write name chunk o)
               (Os (<[name := acc]> (fs o)) (stdout o)) chunks
             = Os (<[name := acc ++ mjoin chunks]> (fs o)) (stdout o)).
  { induction chunks as [|chunk chunks IH]; intros acc; simpl.
    - by rewrite app_nil_r.
    - unfold f_write at 2. simpl.
      rewrite lookup_insert_eq, insert_insert_eq. simpl.
      by rewrite IH, app_assoc. }
  apply (Hgo []).
Qed.

Section FetcherFacts.
Context {float : Type}.
Variable str_float : float -> string.
Variable transform : string -> string -> float -> float -> float * float.
Variable requests_get : string -> list (string * string) -> http_outcome.
Variable requests_get_stream :
  string -> list (string * string) -> stream_outcome.
Variable str_HTTPError : Z -> string -> string.

Ltac wms_run :=
  unfold wms_fetch, crsToSrs;
  repeat match goal with
         | |- context [transform ?a ?b ?c ?d] =>
             destruct (transform a b c d) as [? ?]
         end;
  cbv zeta;
  match goal with
  | |- context [requests_get ?u ?p] =>
      exists p; destruct (requests_get u p) as [status_code content | e]
  end;
  [ split;
    [ intros ->; reflexivity
    | intros Hst; apply Z.eqb_neq in Hst; rewrite Hst; unfold print; simpl;
      rewrite <- ?app_assoc; reflexivity ]
  | reflexivity ].

Lemma getAMDetailed_fetch a b c d width height path o :
  wms_fetch requests_get
      "https://api.dataforsyningen.dk/forvaltning2"
      (path +:+ "/AM_Detailed.png")
    (fun st u => ["Failed to fetch map. Status code: " +:+ pretty st;
                  "On path: " +:+ u])
    o
    (getAMDetailed float str_float transform requests_get
       a b c d width height path o).
Proof. unfold getAMDetailed. wms_run. Qed.

Lemma getAMWithRoads_fetch a b c d width height path o :
  wms_fetch requests_get
      "https://api.dataforsyningen.dk/forvaltning2"
      (path +:+ "/AM_with_roads.png")
    (fun st _ => ["Failed to fetch roads. Status code: " +:+ pretty st]) o
    (getAMWithRoads float str_float transform requests_get
       a b c d width height path o).
Proof. unfold getAMWithRoads. wms_run. Qed.

Lemma getRoutes_fetch a b c d width height path o :
  wms_fetch requests_get
      "https://geocloud.vd.dk/CVF/wms"
      (path +:+ "/routes.png")
    (fun st _ => ["Failed to fetch roads. Status code: " +:+ pretty st]) o
    (getRoutes float str_float transform requests_get
       a b c d width height path o).
Proof. unfold getRoutes. wms_run. Qed.

Lemma getBoundaries_fetch a b c d width height path o :
  wms_fetch requests_get
      "https://api.dataforsyningen.dk/wms/MatGaeldendeOgForeloebigWMS_DAF"
      (path +:+ "/boundaries.png")
    (fun st _ => ["Failed to fetch roads. Status code: " +:+ pretty st]) o
    (getBoundaries float str_float transform requests_get
       a b c d width height path o).
Proof. unfold getBoundaries. wms_run. Qed.

Lemma getSatellite_fetch a b c d width height path o :
  wms_fetch requests_get
      "https://api.dataforsyningen.dk/orto_foraar_DAF"
      (path +:+ "/satellite.png")
    (fun st _ => ["Failed to fetch roads. Status code: " +:+ pretty st]) o
    (getSatellite float str_float transform requests_get
       a b c d width height path o).
Proof. unfold getSatellite. wms_run. Qed.

End FetcherFacts.



(** ** [compare] *)

Section CompareFacts.
Implicit Types (m : mask) (c : confusion) (ps : list (nat * nat)).

Lemma at2_set2 {A} (a : list (list A)) i j (x : A) i' j' :
  at2 (set2 a i j x) i' j'
  = if decide (i = i' /\ j = j') then (fun _ => x) <$> at2 a i' j'
    else at2 a i' j'.
Proof.
  unfold at2, set2. rewrite list_lookup_alter.
  destruct (decide (i = i')) as [<-|Hi].
  - destruct (a !! i) as [row|]; simpl.
    + rewrite list_lookup_insert.
      destruct (decide (j = j')) as [<-|Hj].
      * destruct (row !! j) eqn:E.
        -- apply lookup_lt_Some in E.
           rewrite decide_True by done. by rewrite decide_True.
        -- apply lookup_ge_None in E.
           rewrite decide_False by lia. by rewrite decide_True.
      * rewrite decide_False by tauto. by rewrite decide_False by tauto.
    + by case_decide.
  - by rewrite decide_False by tauto.
Qed.

Lemma fold_result_app {S A} (body : S -> A -> result S) xs ys (s : S) :
  fold_result body (xs ++ ys) s
  = match fold_result body xs s with
    | Ok s' => fold_result body ys s'
    | Raise e => Raise e
    end.
Proof.
  revert s. induction xs as [|x xs IH]; intros s; simpl; [done|].
  by destruct (body s x).
Qed.

Lemma fold_result_positions {S} (body : nat -> S -> nat -> result S)
    rows cols (s : S) :
  fold_result (fun s i => fold_result (body i) cols s) rows s
  = fold_result (fun s p => body (fst p) s (snd p)) (positions rows cols) s.
Proof.
  revert s. induction rows as [|i rows IH]; intros s; [done|].
  unfold positions in *. simpl. rewrite fold_result_app.
  assert (Hrow : forall s,
             fold_result (fun s p => body (fst p) s (snd p))
               ((fun j => (i, j)) <$> cols) s
             = fold_result (body i) cols s).
  { clear. induction cols as [|j cols IHc]; intros s; simpl; [done|].
    destruct (body i s j); [apply IHc | done]. }
  rewrite Hrow. destruct (fold_result (body i) cols s); [apply IH | done].
Qed.

Lemma compare_pixel_same m i j c x :
  at2 m i j = Some x ->
  compare_pixel m m i c j
  = Ok (Confusion (set2 (resultMap c) i j (colour_of x))
          (if x =? 0 then tp c + 1 else tp c) (fp c) (fn c)
          (if x =? 0 then tn c else tn c + 1)).
Proof.
  intros Hx. unfold compare_pixel, colour_of. rewrite Hx.
  destruct (x =? 0) eqn:E; simpl; [done|].
  by rewrite andb_false_r.
Qed.

(** The pixel loop on two equal masks, over any positions inside them. *)
Lemma compare_loop_same m ps c :
  (forall p, p ∈ ps -> is_Some (at2 m (fst p) (snd p))) ->
  (forall i j, is_Some (at2 m i j) -> is_Some (at2 (resultMap c) i j)) ->
  exists c',
    fold_result (fun c p => compare_pixel m m (fst p) c (snd p)) ps c = Ok c'
    /\ fp c' = fp c /\ fn c' = fn c
    /\ tp c' = tp c
               + Z.of_nat
                   (length (filter (fun p => at2 m (fst p) (snd p) = Some 0) ps))
    /\ tn c' = tn c
               + Z.of_nat
                   (length (filter (fun p => at2 m (fst p) (snd p) <> Some 0) ps))
    /\ (forall i j x,
           (i, j) ∈ ps -> at2 m i j = Some x ->
           at2 (resultMap c') i j = Some (colour_of x))
    /\ (forall i j,
           (i, j) ∉ ps -> at2 (resultMap c') i j = at2 (resultMap c) i j).
Proof.
  revert c. induction ps as [|[i j] ps IH]; intros c Hin Hshape.
  - exists c. simpl. repeat split; try lia; try done.
    intros i j x Hp. by apply elem_of_nil in Hp.
  - destruct (Hin (i, j)) as [x Hx]; [left|]. simpl in Hx.
    set (c1 := Confusion (set2 (resultMap c) i j (colour_of x))
                 (if x =? 0 then tp c + 1 else tp c) (fp c) (fn c)
                 (if x =? 0 then tn c else tn c + 1)).
    destruct (IH c1) as (c' & Hrun & Hfp & Hfn & Htp & Htn & Hdone & Hrest).
    { intros p Hp. apply Hin. by right. }
    { intros i' j' Hm. simpl. rewrite at2_set2.
      destruct (Hshape i' j' Hm) as [y Hy]. rewrite Hy.
      by case_decide. }
    exists c'. simpl. rewrite (compare_pixel_same m i j c x Hx).
    fold c1. split; [exact Hrun|].
    split; [by rewrite Hfp|]. split; [by rewrite Hfn|].
    split; [|split; [|split]].
    + rewrite Htp. simpl.
      destruct (decide (at2 m i j = Some 0)) as [H0|Hn0].
      * rewrite filter_cons_True by done.
        assert (x = 0) as -> by congruence. simpl. lia.
      * rewrite filter_cons_False by done.
        destruct (x =? 0) eqn:E; [|lia].
        apply Z.eqb_eq in E. congruence.
    + rewrite Htn. simpl.
      destruct (decide (at2 m i j = Some 0)) as [H0|Hn0].
      * rewrite filter_cons_False by (simpl; tauto).
        assert (x = 0) as -> by congruence. simpl. lia.
      * rewrite filter_cons_True by done.
        destruct (x =? 0) eqn:E; [|simpl; lia].
        apply Z.eqb_eq in E. congruence.
    + intros i' j' y Hp Hy.
      destruct (decide ((i', j') ∈ ps)) as [Hps|Hps]; [by eapply Hdone|].
      apply elem_of_cons in Hp as [[= -> ->] | Hp]; [|done].
      rewrite Hrest by done. simpl. rewrite at2_set2.
      rewrite decide_True by done.
      destruct (Hshape i j (ex_intro _ _ Hx)) as [z Hz]. rewrite Hz.
      simpl. congruence.
    + intros i' j' Hp. apply not_elem_of_cons in Hp as [Hne Hp].
      rewrite Hrest by done. simpl. rewrite at2_set2.
      rewrite decide_False; [done|]. intros [-> ->]. done.
Qed.
Lemma elem_of_positions rows cols i j :
  (i, j) ∈ positions rows cols <-> i ∈ rows /\ j ∈ cols.
Proof.
  unfold positions. rewrite list_elem_of_bind. split.
  - intros (i' & Hp & Hi). apply list_elem_of_fmap in Hp as (j' & [= -> ->] & Hj).
    done.
  - intros [Hi Hj]. exists i. split; [|done].
    apply list_elem_of_fmap. by exists j.
Qed.

Lemma at2_is_Some {A} (a : list (list A)) i j :
  rectangular a ->
  is_Some (at2 a i j) <-> (i < length a)%nat /\ (j < snd (shape2 a))%nat.
Proof.
  intros Hrect. unfold at2. destruct (a !! i) as [row|] eqn:E.
  - pose proof (lookup_lt_Some _ _ _ E) as Hi.
    unfold rectangular in Hrect. rewrite Forall_lookup in Hrect.
    rewrite <- (Hrect i row E).
    rewrite lookup_lt_is_Some. tauto.
  - apply lookup_ge_None in E. split; [by intros [? ?] | lia].
Qed.

Lemma at2_replicate {A} (h w : nat) (x : A) i j :
  (i < h)%nat -> (j < w)%nat ->
  at2 (replicate h (replicate w x)) i j = Some x.
Proof.
  intros Hi Hj. unfold at2.
  rewrite lookup_replicate_2 by done. by apply lookup_replicate_2.
Qed.

Lemma length_pos_elem_of {A} (x : A) (l : list A) :
  x ∈ l -> (0 < length l)%nat.
Proof. destruct l; [by intros ?%elem_of_nil | simpl; lia]. Qed.

Lemma inject_Z_div_same (z : Z) : z <> 0 -> (inject_Z z / inject_Z z == 1)%Q.
Proof.
  intros Hz. apply Qmult_inv_r. unfold Qeq. simpl. lia.
Qed.

(** C6, as the code has it.  On two equal masks [compare] counts no false
    positive and no false negative, and its result map is green
    [(0,255,0)] exactly where the mask is 0 and black [(0,0,0)] elsewhere,
    with no other colour.  Accuracy is 1 as soon as the mask has a pixel.
    Precision and recall are 1 when the mask has at least one 0 pixel;
    on a mask without any they are 0, the value the guards
    [if (tp + fp) != 0 else 0] and [if (tp + fn) != 0 else 0] choose. *)
Theorem compare_identical_masks m :
  rectangular m ->
  exists out,
    compare m m = Ok out
    /\ fp (counts out) = 0 /\ fn (counts out) = 0
    /\ (forall i j x,
           at2 m i j = Some x ->
           at2 (resultMap (counts out)) i j
           = Some (if x =? 0 then (0, 255, 0) else (0, 0, 0)))
    /\ (forall i j p,
           at2 (resultMap (counts out)) i j = Some p ->
           p = (0, 255, 0) \/ p = (0, 0, 0))
    /\ ((exists i j x, at2 m i j = Some x) -> (accuracy out == 1)%Q)
    /\ ((exists i j, at2 m i j = Some 0) ->
        (precision out == 1)%Q /\ (recall out == 1)%Q)
    /\ (~ (exists i j, at2 m i j = Some 0) ->
        precision out = 0%Q /\ recall out = 0%Q).
Proof.
  intros Hrect. unfold compare.
  set (h := length m). set (w := snd (shape2 m)).
  assert (Hshape : shape2 m = (h, w)) by done. rewrite Hshape.
  rewrite fold_result_positions.
  set (ps := positions (seq 0 h) (seq 0 w)).
  set (c0 := Confusion (replicate h (replicate w (0, 0, 0))) 0 0 0 0).
  assert (Hps : forall i j, (i, j) ∈ ps <-> is_Some (at2 m i j)).
  { intros i j. unfold ps. rewrite elem_of_positions, !elem_of_seq.
    rewrite at2_is_Some by done. fold h w. lia. }
  destruct (compare_loop_same m ps c0)
    as (c & Hrun & Hfp & Hfn & Htp & Htn & Hdone & Hrest).
  { intros [i j] Hp. by apply Hps. }
  { intros i j Hm. simpl. apply (at2_is_Some m) in Hm as [Hi Hj]; [|done].
    rewrite at2_replicate by done. by eexists. }
  simpl in Hfp, Hfn, Htp, Htn.
  assert (Hzero : (exists i j, at2 m i j = Some 0) <-> 0 < tp c).
  { rewrite Htp. split.
    - intros (i & j & H0).
      assert (Hin : (i, j) ∈ filter
                (fun p => at2 m (fst p) (snd p) = Some 0) ps).
      { apply list_elem_of_filter. split; [done|]. apply Hps. by eexists. }
      apply length_pos_elem_of in Hin. lia.
    - intros Hpos.
      destruct (filter (fun p => at2 m (fst p) (snd p) = Some 0) ps)
        as [|[i j] l] eqn:E; [simpl in Hpos; lia|].
      assert (Hin : (i, j) ∈ filter
                (fun p => at2 m (fst p) (snd p) = Some 0) ps)
        by (rewrite E; left).
      apply list_elem_of_filter in Hin as [H0 _]. by exists i, j. }
  assert (Htn0 : 0 <= tn c) by lia.
  assert (Htp0 : 0 <= tp c) by lia.
  rewrite Hrun. eexists. split; [reflexivity|]. simpl.
  split; [done|]. split; [done|].
  split; [|split; [|split; [|split]]].
  - intros i j x Hx. rewrite (Hdone i j x); [done | | done].
    apply Hps. by eexists.
  - intros i j p Hp.
    destruct (decide ((i, j) ∈ ps)) as [Hin|Hout].
    + destruct (proj1 (Hps i j) Hin) as [x Hx].
      rewrite (Hdone i j x Hin Hx) in Hp. injection Hp as <-.
      unfold colour_of. destruct (x =? 0); auto.
    + exfalso. rewrite Hrest in Hp by done. simpl in Hp.
      apply Hout, Hps, at2_is_Some; [done|].
      apply mk_is_Some in Hp. unfold at2 in Hp.
      destruct (replicate h _ !! i) as [row|] eqn:E; [|by destruct Hp].
      apply lookup_replicate in E as [-> Hi].
      apply lookup_lt_is_Some in Hp. rewrite length_replicate in Hp.
      done.
  - intros (i & j & x & Hx).
    assert (Hpos : 0 < tp c + tn c).
    { destruct (decide (x = 0)) as [->|Hnz].
      - assert (0 < tp c) by (apply Hzero; eauto). lia.
      - assert (Hin : (i, j) ∈ filter
                  (fun p => at2 m (fst p) (snd p) <> Some 0) ps).
        { apply list_elem_of_filter. split; [simpl; congruence|].
          apply Hps. by eexists. }
        apply length_pos_elem_of in Hin. lia. }
    rewrite Hfp, Hfn. rewrite decide_True by lia.
    replace (tp c + tn c + 0 + 0) with (tp c + tn c) by lia.
    apply inject_Z_div_same. lia.
  - intros Hex. apply Hzero in Hex. unfold ratio_or_zero.
    rewrite Hfp, Hfn, Z.add_0_r. rewrite decide_True by lia.
    split; apply inject_Z_div_same; lia.
  - intros Hno. assert (tp c = 0) as Hz.
    { destruct (decide (tp c = 0)); [done|].
      exfalso. apply Hno, Hzero. lia. }
    unfold ratio_or_zero. rewrite Hfp, Hfn, Hz. by vm_compute.
Qed.
End CompareFacts.

Lemma compare_identical_masks_witness :
  exists out,
    compare [[0; 255]; [255; 0]] [[0; 255]; [255; 0]] = Ok out
    /\ (precision out == 1)%Q /\ (recall out == 1)%Q /\ (accuracy out == 1)%Q
    /\ resultMap (counts out)
       = [[(0, 255, 0); (0, 0, 0)]; [(0, 0, 0); (0, 255, 0)]].
Proof.
  destruct (compare_identical_masks [[0; 255]; [255; 0]])
    as (out & Hrun & _ & _ & _ & _ & Hacc & Hpr & _).
  { by repeat constructor. }
  exists out. split; [exact Hrun|].
  destruct Hpr as [Hp Hr]; [by exists 0%nat, 0%nat|].
  split; [exact Hp|]. split; [exact Hr|]. split.
  - apply Hacc. by exists 0%nat, 0%nat, 0.
  - vm_compute in Hrun. by injection Hrun as <-.
Defined.

(** C6 as the claim words it fails: two equal all-white masks give
    precision 0 and recall 0, not 1. *)
Lemma compare_all_white_precision_zero :
  exists out,
    compare [[255]] [[255]] = Ok out
    /\ precision out = 0%Q /\ recall out = 0%Q
    /\ ~ (precision out == 1)%Q /\ ~ (recall out == 1)%Q
    /\ (accuracy out == 1)%Q.
Proof. eexists. split; [by vm_compute|]. by vm_compute. Qed.

(** * Further properties of the embedded code *)

(** ** [compare] on two masks *)

Section CompareMore.
Implicit Types (s g : mask) (c : confusion) (ps : list (nat * nat)).
Implicit Types (v : verdict).

Lemma compare_pixel_verdict s g i j c :
  compare_pixel s g i c j
  = match verdict_at s g (i, j) with
    | Some v => Ok (bump v i j c)
    | None => Raise IndexError
    end.
Proof.
  unfold compare_pixel, verdict_at, verdict_of, bump. simpl.
  destruct (at2 s i j) as [a|]; [|done].
  destruct (at2 g i j) as [b|]; [|done].
  destruct ((a =? 0) && (b =? 0)); [done|].
  destruct ((a =? 0) && (0 <? b)); [done|].
  by destruct ((0 <? a) && (b =? 0)).
Qed.

Lemma count_of_bump v w i j c :
  count_of w (bump v i j c)
  = count_of w c + (if decide (w = v) then 1 else 0).
Proof. destruct v, w; simpl; lia. Qed.

Lemma resultMap_bump v i j c :
  resultMap (bump v i j c) = set2 (resultMap c) i j (verdict_colour v).
Proof. by destruct v. Qed.

Lemma verdict_at_is_Some s g i j :
  is_Some (verdict_at s g (i, j))
  <-> is_Some (at2 s i j) /\ is_Some (at2 g i j).
Proof.
  unfold verdict_at. simpl.
  destruct (at2 s i j), (at2 g i j); split; try (by eauto);
    rewrite ?is_Some_alt; tauto.
Qed.

Lemma tally_cons s g v p ps :
  tally s g v (p :: ps)
  = (if decide (verdict_at s g p = Some v) then 1 else 0) + tally s g v ps.
Proof.
  unfold tally. case_decide.
  - rewrite filter_cons_True by done. simpl length. lia.
  - rewrite filter_cons_False by done. lia.
Qed.

Lemma tally_nonneg s g v ps : 0 <= tally s g v ps.
Proof. unfold tally. lia. Qed.

(** The pixel loop over positions that both masks have. *)
Lemma compare_loop s g ps c :
  (forall p, p ∈ ps -> is_Some (verdict_at s g p)) ->
  exists c',
    fold_result (fun c p => compare_pixel s g (fst p) c (snd p)) ps c = Ok c'
    /\ (forall v, count_of v c' = count_of v c + tally s g v ps)
    /\ (forall i j v,
           (i, j) ∈ ps -> verdict_at s g (i, j) = Some v ->
           is_Some (at2 (resultMap c) i j) ->
           at2 (resultMap c') i j = Some (verdict_colour v))
    /\ (forall i j,
           (i, j) ∉ ps -> at2 (resultMap c') i j = at2 (resultMap c) i j).
Proof.
  revert c. induction ps as [|[i j] ps IH]; intros c Hin.
  - exists c. simpl. split; [done|]. split; [|split].
    + intros v. unfold tally. simpl. lia.
    + intros i j v Hp. by apply elem_of_nil in Hp.
    + done.
  - destruct (Hin (i, j)) as [v Hv]; [left|].
    destruct (IH (bump v i j c)) as (c' & Hrun & Hcount & Hdone & Hrest).
    { intros p Hp. apply Hin. by right. }
    exists c'. simpl. rewrite compare_pixel_verdict, Hv.
    split; [exact Hrun|]. split; [|split].
    + intros w. rewrite Hcount, count_of_bump, tally_cons, Hv.
      repeat case_decide; try lia; congruence.
    + intros i' j' w Hp Hw [x Hx].
      destruct (decide ((i', j') ∈ ps)) as [Hps|Hps].
      * apply Hdone; [done..|]. rewrite resultMap_bump, at2_set2, Hx.
        by case_decide.
      * apply elem_of_cons in Hp as [[= -> ->] | Hp]; [|done].
        rewrite Hrest by done. rewrite resultMap_bump, at2_set2, Hx.
        rewrite decide_True by done. simpl. congruence.
    + intros i' j' Hp. apply not_elem_of_cons in Hp as [Hne Hp].
      rewrite Hrest by done. rewrite resultMap_bump, at2_set2.
      rewrite decide_False; [done|]. intros [-> ->]. done.
Qed.

(** One position outside either mask ends the loop with [IndexError],
    whatever was counted before. *)
Lemma compare_loop_raise s g ps c :
  (exists p, p ∈ ps /\ verdict_at s g p = None) ->
  fold_result (fun c p => compare_pixel s g (fst p) c (snd p)) ps c
  = Raise IndexError.
Proof.
  revert c. induction ps as [|[i j] ps IH]; intros c (p & Hp & Hnone).
  - by apply elem_of_nil in Hp.
  - simpl. rewrite compare_pixel_verdict.
    destruct (verdict_at s g (i, j)) as [v|] eqn:Hv; [|done].
    apply IH. exists p. split; [|done].
    apply elem_of_cons in Hp as [-> | Hp]; [congruence | done].
Qed.

Lemma compare_unfold s g :
  compare s g
  = match
      fold_result (fun c p => compare_pixel s g (fst p) c (snd p)) (visited s)
        (Confusion
           (replicate (fst (shape2 s)) (replicate (snd (shape2 s)) (0, 0, 0)))
           0 0 0 0)
    with
    | Raise e => Raise e
    | Ok c =>
        Ok (Comparison c
              (ratio_or_zero (tp c) (tp c + fp c))
              (ratio_or_zero (tp c) (tp c + fn c))
              (if decide (tp c + fp c + tn c + fn c <> 0)
               then (inject_Z (tp c + tn c)
                     / inject_Z (tp c + tn c + fp c + fn c))%Q
               else 0%Q))
    end.
Proof.
  unfold compare, visited. destruct (shape2 s) as [h w]. simpl.
  by rewrite fold_result_positions.
Qed.

Lemma elem_of_visited s i j :
  (i, j) ∈ visited s
  <-> (i < fst (shape2 s))%nat /\ (j < snd (shape2 s))%nat.
Proof.
  unfold visited. rewrite elem_of_positions, !elem_of_seq. lia.
Qed.

Lemma elem_of_visited_rect s i j :
  rectangular s -> (i, j) ∈ visited s <-> is_Some (at2 s i j).
Proof.
  intros Hrect. rewrite elem_of_visited, at2_is_Some by done. done.
Qed.

Lemma length_positions rows cols :
  length (positions rows cols) = (length rows * length cols)%nat.
Proof.
  unfold positions. induction rows as [|i rows IH]; [done|].
  simpl. rewrite length_app, length_fmap. f_equal. exact IH.
Qed.

Lemma length_visited s :
  length (visited s) = (fst (shape2 s) * snd (shape2 s))%nat.
Proof. unfold visited. by rewrite length_positions, !length_seq. Qed.

Lemma tally_total s g ps :
  (forall p, p ∈ ps -> is_Some (verdict_at s g p)) ->
  tally s g TruePositive ps + tally s g FalsePositive ps
  + tally s g FalseNegative ps + tally s g TrueNegative ps
  = Z.of_nat (length ps).
Proof.
  induction ps as [|p ps IH]; intros Hin; [done|].
  rewrite !tally_cons. simpl length.
  destruct (Hin p) as [v Hv]; [left|]. rewrite Hv.
  assert (IH' := IH (fun q Hq => Hin q (list_elem_of_further _ _ _ Hq))).
  destruct v; repeat case_decide; try congruence; lia.
Qed.

Lemma tally_mirror s g v ps :
  tally g s (mirror v) ps = tally s g v ps.
Proof.
  induction ps as [|[i j] ps IH]; [done|].
  rewrite !tally_cons, IH. f_equal.
  assert (Hm : verdict_at g s (i, j) = mirror <$> verdict_at s g (i, j)).
  { unfold verdict_at. simpl.
    destruct (at2 s i j) as [a|], (at2 g i j) as [b|]; simpl; try done.
    f_equal. unfold verdict_of, mirror.
    destruct (Z.eqb_spec a 0), (Z.eqb_spec b 0), (Z.ltb_spec 0 a),
      (Z.ltb_spec 0 b); simpl; try done; lia. }
  rewrite Hm. destruct (verdict_at s g (i, j)) as [w|]; simpl.
  - destruct v, w; simpl; repeat case_decide; congruence.
  - repeat case_decide; congruence.
Qed.

Lemma ratio_or_zero_bounds (n d : Z) :
  0 <= n <= d -> (0 <= ratio_or_zero n d <= 1)%Q.
Proof.
  intros Hnd. unfold ratio_or_zero. case_decide as Hd; [|done].
  unfold Qle, Qdiv, Qmult, Qinv, inject_Z. simpl.
  destruct d as [|d|d]; simpl; lia.
Qed.

(** Whether every visited position lies in both masks can be decided, so
    a run of [compare] either returns or raises [IndexError]. *)
Lemma compare_cases s g :
  (exists c,
      fold_result (fun c p => compare_pixel s g (fst p) c (snd p)) (visited s)
        (Confusion
           (replicate (fst (shape2 s)) (replicate (snd (shape2 s)) (0, 0, 0)))
           0 0 0 0) = Ok c
      /\ (forall p, p ∈ visited s -> is_Some (verdict_at s g p))
      /\ (forall v, count_of v c = tally s g v (visited s))
      /\ (forall i j v,
             (i, j) ∈ visited s -> verdict_at s g (i, j) = Some v ->
             at2 (resultMap c) i j = Some (verdict_colour v)))
  \/ ((exists p, p ∈ visited s /\ verdict_at s g p = None)
      /\ compare s g = Raise IndexError).
Proof.
  destruct (decide (Forall (fun p => is_Some (verdict_at s g p)) (visited s)))
    as [Hall|Hsome].
  - left. rewrite Forall_forall in Hall.
    destruct (compare_loop s g (visited s)
                (Confusion
                   (replicate (fst (shape2 s))
                      (replicate (snd (shape2 s)) (0, 0, 0))) 0 0 0 0) Hall)
      as (c & Hrun & Hcount & Hdone & _).
    exists c. split; [done|]. split; [done|]. split.
    + intros v. rewrite Hcount. by destruct v.
    + intros i j v Hp Hv. apply Hdone; [done..|]. simpl.
      apply elem_of_visited in Hp as [Hi Hj].
      rewrite at2_replicate by done. by eexists.
  - right. apply not_Forall_Exists in Hsome; [|apply _].
    apply Exists_exists in Hsome as (p & Hp & Hnone).
    assert (Hex : exists p, p ∈ visited s /\ verdict_at s g p = None).
    { exists p. split; [done|].
      destruct (verdict_at s g p) eqn:E; [|done]. by destruct Hnone. }
    split; [done|]. rewrite compare_unfold.
    by rewrite compare_loop_raise.
Qed.
End CompareMore.

Section CompareProperties.
Implicit Types (s g : mask) (c : confusion) (ps : list (nat * nat)).

Lemma fold_result_ext {S A} (f h : S -> A -> result S) xs (a : S) :
  (forall a x, x ∈ xs -> f a x = h a x) ->
  fold_result f xs a = fold_result h xs a.
Proof.
  revert a. induction xs as [|x xs IH]; intros a Heq; [done|].
  simpl. rewrite <- Heq by left.
  destruct (f a x); [|done]. apply IH. intros a' y Hy. apply Heq. by right.
Qed.

Lemma Qdiv_unit_interval (n d : Z) :
  0 <= n <= d -> d <> 0 -> (0 <= inject_Z n / inject_Z d <= 1)%Q.
Proof.
  intros Hnd Hd. unfold Qle, Qdiv, Qmult, Qinv, inject_Z. simpl.
  destruct d as [|d|d]; simpl; lia.
Qed.

(** A ground truth that covers the shapes mask lets the loop run through. *)
Lemma compare_loop_covered s g :
  rectangular s -> covers g s ->
  exists c,
    fold_result (fun c p => compare_pixel s g (fst p) c (snd p)) (visited s)
      (Confusion
         (replicate (fst (shape2 s)) (replicate (snd (shape2 s)) (0, 0, 0)))
         0 0 0 0) = Ok c
    /\ (forall p, p ∈ visited s -> is_Some (verdict_at s g p))
    /\ (forall v, count_of v c = tally s g v (visited s))
    /\ (forall i j v,
           (i, j) ∈ visited s -> verdict_at s g (i, j) = Some v ->
           at2 (resultMap c) i j = Some (verdict_colour v)).
Proof.
  intros Hrect Hcov.
  destruct (compare_cases s g) as [Hok | [([i j] & Hp & Hnone) _]]; [done|].
  exfalso. apply elem_of_visited_rect in Hp; [|done].
  assert (Hs : is_Some (verdict_at s g (i, j))).
  { apply verdict_at_is_Some. split; [done|]. by apply Hcov. }
  rewrite Hnone in Hs. by destruct Hs.
Qed.

(** X1.  The confusion matrix of [compare] (evaluation.py, lines 271-298).
    When the ground truth has a pixel wherever the shapes mask has one,
    [compare] returns; each of [tp], [fp], [fn], [tn] is the number of
    positions of the shapes mask whose pixel pair takes that branch, the
    four add up to height times width, and the result map holds at every
    position the colour of its branch: green for two zeros, yellow for a
    zero against a positive ground truth, red for a positive against a
    zero ground truth, black otherwise. *)
Theorem compare_confusion_matrix s g :
  rectangular s -> covers g s ->
  exists out,
    compare s g = Ok out
    /\ (forall v, count_of v (counts out) = tally s g v (visited s))
    /\ tp (counts out) + fp (counts out) + fn (counts out) + tn (counts out)
       = Z.of_nat (fst (shape2 s) * snd (shape2 s))
    /\ (forall i j a b,
           at2 s i j = Some a -> at2 g i j = Some b ->
           at2 (resultMap (counts out)) i j
           = Some (verdict_colour (verdict_of a b))).
Proof.
  intros Hrect Hcov.
  destruct (compare_loop_covered s g Hrect Hcov)
    as (c & Hrun & Hall & Hcount & Hcol).
  rewrite compare_unfold, Hrun. eexists. split; [reflexivity|]. simpl.
  split; [exact Hcount|]. split.
  - transitivity (Z.of_nat (length (visited s)));
      [|by rewrite length_visited].
    rewrite <- (tally_total s g (visited s) Hall), <- !Hcount. simpl. lia.
  - intros i j a b Ha Hb. apply Hcol.
    + apply elem_of_visited_rect; [done|]. by eexists.
    + unfold verdict_at. simpl. by rewrite Ha, Hb.
Qed.

(** X2.  [compare] never checks that the two images have the same size
    (lines 268-284).  It raises [IndexError] exactly when some position
    of the shapes mask lies outside the ground truth, and nothing else
    can make it raise. *)
Theorem compare_raises_IndexError s g :
  rectangular s ->
  (compare s g = Raise IndexError
   <-> exists i j, is_Some (at2 s i j) /\ at2 g i j = None)
  /\ (forall e, compare s g = Raise e -> e = IndexError).
Proof.
  intros Hrect.
  destruct (compare_cases s g)
    as [(c & Hrun & Hall & _) | [([i j] & Hp & Hnone) Hraise]].
  - rewrite compare_unfold, Hrun. split; [split|]; [done| |done].
    intros (i & j & Hs & Hg). exfalso.
    assert (Hv : is_Some (verdict_at s g (i, j))).
    { apply Hall. by apply elem_of_visited_rect. }
    apply verdict_at_is_Some in Hv as [_ Hv]. rewrite Hg in Hv.
    by destruct Hv.
  - rewrite Hraise. split; [split; [|done] | congruence].
    intros _. exists i, j. apply elem_of_visited_rect in Hp; [|done].
    split; [done|]. destruct Hp as [a Ha].
    unfold verdict_at in Hnone. simpl in Hnone. rewrite Ha in Hnone.
    by destruct (at2 g i j).
Qed.

(** X3.  [compare] reads the ground truth only at the positions of the
    shapes mask (lines 279-284): two ground truths that agree there give
    the same outcome, so the rows and columns by which a ground truth is
    larger than the shapes mask play no part. *)
Theorem compare_reads_inside_shape s g g' :
  (forall i j, is_Some (at2 s i j) -> at2 g i j = at2 g' i j) ->
  compare s g = compare s g'.
Proof.
  intros Hagree. rewrite !compare_unfold.
  rewrite (fold_result_ext
             (fun c p => compare_pixel s g (fst p) c (snd p))
             (fun c p => compare_pixel s g' (fst p) c (snd p))); [done|].
  intros c [i j] _. simpl. unfold compare_pixel.
  destruct (at2 s i j) as [a|] eqn:Ha; [|done].
  by rewrite (Hagree i j) by (rewrite Ha; eauto).
Qed.

(** X4.  Exchanging the two arguments of [compare], for masks of one
    shape, exchanges false positives with false negatives and precision
    with recall, and keeps true positives, true negatives and accuracy
    (lines 286-303). *)
Theorem compare_swapped s g :
  rectangular s -> rectangular g -> shape2 s = shape2 g ->
  exists a b,
    compare s g = Ok a /\ compare g s = Ok b
    /\ tp (counts b) = tp (counts a) /\ tn (counts b) = tn (counts a)
    /\ fp (counts b) = fn (counts a) /\ fn (counts b) = fp (counts a)
    /\ precision b = recall a /\ recall b = precision a
    /\ accuracy b = accuracy a.
Proof.
  intros Hs Hg Hshape.
  assert (Hvis : visited g = visited s) by (unfold visited; by rewrite Hshape).
  assert (Hcov : forall i j, is_Some (at2 s i j) <-> is_Some (at2 g i j)).
  { intros i j. rewrite <- !elem_of_visited_rect by done. by rewrite Hvis. }
  destruct (compare_loop_covered s g Hs) as (ca & Hra & _ & Hca & _).
  { intros i j. apply Hcov. }
  destruct (compare_loop_covered g s Hg) as (cb & Hrb & _ & Hcb & _).
  { intros i j. apply Hcov. }
  rewrite !compare_unfold, Hra, Hrb. eexists _, _.
  split; [reflexivity|]. split; [reflexivity|]. simpl.
  assert (Htp : tp cb = tp ca).
  { pose proof (Hca TruePositive) as H1. pose proof (Hcb TruePositive) as H2.
    simpl in H1, H2. rewrite H1, H2, Hvis.
    apply (tally_mirror s g TruePositive). }
  assert (Htn : tn cb = tn ca).
  { pose proof (Hca TrueNegative) as H1. pose proof (Hcb TrueNegative) as H2.
    simpl in H1, H2. rewrite H1, H2, Hvis.
    apply (tally_mirror s g TrueNegative). }
  assert (Hfp : fp cb = fn ca).
  { pose proof (Hca FalseNegative) as H1. pose proof (Hcb FalsePositive) as H2.
    simpl in H1, H2. rewrite H1, H2, Hvis.
    apply (tally_mirror s g FalseNegative). }
  assert (Hfn : fn cb = fp ca).
  { pose proof (Hca FalsePositive) as H1. pose proof (Hcb FalseNegative) as H2.
    simpl in H1, H2. rewrite H1, H2, Hvis.
    apply (tally_mirror s g FalsePositive). }
  repeat (split; [done|]).
  rewrite Htp, Htn, Hfp, Hfn. split; [done|]. split; [done|].
  replace (tp ca + tn ca + fn ca + fp ca)
    with (tp ca + tn ca + fp ca + fn ca) by lia.
  repeat case_decide; try done; lia.
Qed.

(** X5.  Whenever [compare] returns, its four counts are non-negative and
    add up to the pixel count of the shapes mask, and precision, recall
    and accuracy all lie between 0 and 1, the zero-denominator guards
    included (lines 274-303). *)
Theorem compare_metrics_bounded s g out :
  compare s g = Ok out ->
  (0 <= tp (counts out) /\ 0 <= fp (counts out)
   /\ 0 <= fn (counts out) /\ 0 <= tn (counts out))
  /\ tp (counts out) + fp (counts out) + fn (counts out) + tn (counts out)
     = Z.of_nat (fst (shape2 s) * snd (shape2 s))
  /\ (0 <= precision out <= 1)%Q
  /\ (0 <= recall out <= 1)%Q
  /\ (0 <= accuracy out <= 1)%Q.
Proof.
  intros Hout.
  destruct (compare_cases s g)
    as [(c & Hrun & Hall & Hcount & _) | [_ Hraise]]; [|congruence].
  rewrite compare_unfold, Hrun in Hout. injection Hout as <-. simpl.
  pose proof (Hcount TruePositive) as Htp.
  pose proof (Hcount FalsePositive) as Hfp.
  pose proof (Hcount FalseNegative) as Hfn.
  pose proof (Hcount TrueNegative) as Htn. simpl in Htp, Hfp, Hfn, Htn.
  pose proof (tally_nonneg s g TruePositive (visited s)).
  pose proof (tally_nonneg s g FalsePositive (visited s)).
  pose proof (tally_nonneg s g FalseNegative (visited s)).
  pose proof (tally_nonneg s g TrueNegative (visited s)).
  split; [lia|]. split.
  { transitivity (Z.of_nat (length (visited s)));
      [|by rewrite length_visited].
    rewrite <- (tally_total s g (visited s) Hall). lia. }
  split; [apply ratio_or_zero_bounds; lia|].
  split; [apply ratio_or_zero_bounds; lia|].
  case_decide; [|done]. apply Qdiv_unit_interval; lia.
Qed.
End CompareProperties.

Lemma compare_confusion_matrix_witness :
  exists out,
    compare [[0; 0]; [255; 255]] [[0; 255; 7]; [0; 255; 7]] = Ok out
    /\ tp (counts out) = 1 /\ fp (counts out) = 1
    /\ fn (counts out) = 1 /\ tn (counts out) = 1
    /\ at2 (resultMap (counts out)) 0 1 = Some (255, 255, 0).
Proof.
  destruct (compare_confusion_matrix
              [[0; 0]; [255; 255]] [[0; 255; 7]; [0; 255; 7]])
    as (out & Hrun & Hcount & _ & Hcol).
  { by repeat constructor. }
  { intros [|[|i]] [|[|j]]; simpl; intros [x Hx]; try done; by eexists. }
  exists out. split; [exact Hrun|].
  split; [exact (Hcount TruePositive)|].
  split; [exact (Hcount FalsePositive)|].
  split; [exact (Hcount FalseNegative)|].
  split; [exact (Hcount TrueNegative)|].
  exact (Hcol 0%nat 1%nat 0 255 eq_refl eq_refl).
Defined.

Lemma compare_raises_IndexError_witness :
  compare [[0; 255]] [[0]] = Raise IndexError.
Proof.
  destruct (compare_raises_IndexError [[0; 255]] [[0]]) as [[_ Hraise] _].
  { by repeat constructor. }
  apply Hraise. exists 0%nat, 1%nat. split; [by eexists | done].
Defined.

Lemma compare_reads_inside_shape_witness :
  compare [[0; 255]] [[0; 0; 9]; [9; 9; 9]] = compare [[0; 255]] [[0; 0]].
Proof.
  apply compare_reads_inside_shape.
  intros [|i] [|[|j]]; simpl; intros [x Hx]; done.
Defined.

Lemma compare_swapped_witness :
  exists a b,
    compare [[0; 0]; [255; 255]] [[0; 255]; [255; 255]] = Ok a
    /\ compare [[0; 255]; [255; 255]] [[0; 0]; [255; 255]] = Ok b
    /\ fp (counts a) = 1 /\ fn (counts b) = 1
    /\ precision b = recall a.
Proof.
  destruct (compare_swapped [[0; 0]; [255; 255]] [[0; 255]; [255; 255]])
    as (a & b & Ha & Hb & _ & _ & _ & Hfn & Hpr & _).
  { by repeat constructor. }
  { by repeat constructor. }
  { reflexivity. }
  exists a, b. split; [exact Ha|]. split; [exact Hb|].
  assert (Hfp : fp (counts a) = 1).
  { vm_compute in Ha. by injection Ha as <-. }
  split; [exact Hfp|]. split; [by rewrite Hfn | exact Hpr].
Defined.

Lemma compare_metrics_bounded_witness :
  exists out,
    compare [[0; 0]; [255; 255]] [[0; 255]; [0; 255]] = Ok out
    /\ (0 <= precision out <= 1)%Q.
Proof.
  eexists. split; [vm_compute; reflexivity|].
  eapply (compare_metrics_bounded [[0; 0]; [255; 255]] [[0; 255]; [0; 255]]).
  vm_compute. reflexivity.
Defined.

(** ** The filters and the entry points of [segmentation.py] *)

Section PipelineFacts.
Context {H W : nat} `{!Cv2 H W}.
Local Abbreviation img A := (raster H W A).
Implicit Types (h t : list (img pixel)) (d : gmap string (image H W)).
Implicit Types (A B R S D T : img pixel).

Lemma px_bitwise_or (a b : img Z) i j :
  px (bitwise_or a b) i j = Z.lor (px a i j) (px b i j).
Proof. exact (px_rzip _ _ _ i j). Qed.

Lemma px_sf_result A S i j :
  px (sf_result A S) i j
  = if in_bounds (10, 50, 50) (60, 255, 255) (px (cvtColor_BGR2HSV S) i j)
    then (0, 0, 255) else px A i j.
Proof.
  unfold sf_result, sf_redMask, eq_pixel, bitwise_and_mask, solid.
  rewrite px_assign_where, px_rmap, px_tabulate, px_inRange, !px_tabulate.
  unfold lowerYellow, upperYellow.
  by destruct (in_bounds _ _ (px (cvtColor_BGR2HSV S) i j)).
Qed.

Lemma px_rvf_masked A i j :
  px (rvf_masked A) i j
  = if rvf_line_colour (px A i j) then (255, 255, 255) else px A i j.
Proof.
  unfold rvf_masked, rvf_line_colour.
  rewrite px_assign_where, px_eq_scalar, px_bitwise_not, !px_bitwise_or,
    !px_inRange.
  by destruct (in_bounds brown_lower _ _), (in_bounds green_lower _ _),
    (in_bounds blue_lower _ _).
Qed.

Lemma rvf_step_paints (bin gm : img Z) D c :
  rvf_step bin gm D c
  = if rvf_paints bin gm c then fill_region (filled c) (0, 0, 255) D else D.
Proof.
  unfold rvf_step, rvf_paints.
  by destruct (Qltb (1 # 1000) _), (Qltb (1 # 10) _).
Qed.

(** The loop of [routeAndVegFiltering] only ever paints red, so what a
    position holds at the end does not depend on the order of the
    contours. *)
Lemma px_rvf_loop (bin gm : img Z) cs D i j :
  px (foldl (rvf_step bin gm) D cs) i j
  = if rvf_painted bin gm cs i j then (0, 0, 255) else px D i j.
Proof.
  revert D. induction cs as [|c cs IH]; intros D; [done|].
  simpl. rewrite IH, rvf_step_paints. unfold rvf_painted.
  destruct (existsb _ cs); [by rewrite orb_true_r|].
  rewrite orb_false_r.
  destruct (rvf_paints bin gm c); simpl; [|done].
  rewrite px_fill_region. by destruct (filled c i j).
Qed.

Lemma run_routeAndVegFiltering_disk (a r s : loc) path h d A R S :
  h !! a = Some A -> h !! r = Some R -> h !! s = Some S ->
  (forall c, c ∈ rvf_contours A -> totalPixelCount (rvf_routes R) c <> 0) ->
  routeAndVegFiltering a r s path (World h d)
  = (Ok (rvf_binary (rvf_drawn A R S)),
     World (h ++ [rvf_masked A; R; rvf_drawn A R S;
                  fill_region (outlined (rvf_contours A)) (0, 255, 0)
                    (rvf_drawn A R S)])
       (rvf_disk path A R S d)).
Proof.
  intros Ha Hr Hs Hnz.
  unfold routeAndVegFiltering.
  replace (World h d) with (World (h ++ []) d) by (by rewrite app_nil_r).
  eapply bind_ok_eq; [by apply run_np_copy_old|]. cbn [length app].
  eapply bind_ok_eq; [by apply run_np_copy_old|]. cbn [length app].
  eapply bind_ok_eq; [by apply (run_load_new _ _ _ 0%nat)|]. cbv zeta.
  do 4 (eapply bind_ok_eq; [reflexivity|]; cbn [heap disk]).
  eapply bind_ok_eq; [by apply (run_update_new _ _ _ 0%nat _ A)|].
  cbn [list_insert insert].
  eapply bind_ok_eq; [by apply (run_load_new _ _ _ 0%nat)|].
  eapply bind_ok_eq; [reflexivity|]; cbn [heap disk].
  eapply bind_ok_eq; [apply run_alloc|]. cbn [length app].
  eapply bind_ok_eq; [by apply (run_load_new _ _ _ 2%nat)|].
  do 3 (eapply bind_ok_eq; [reflexivity|]; cbn [heap disk]).
  eapply bind_ok_eq; [by apply (run_load_new _ _ _ 1%nat)|].
  eapply bind_ok_eq; [reflexivity|]; cbn [heap disk].
  eapply bind_ok_eq; [by apply run_load_old|].
  do 2 (eapply bind_ok_eq; [reflexivity|]; cbn [heap disk]).
  eapply bind_ok_eq.
  { by apply (run_rvf_loop _ _ _ _ _ _ 2%nat (rvf_filtered A)). }
  cbn [list_insert insert].
  eapply bind_ok_eq; [by apply (run_np_copy_new _ _ _ 2%nat)|].
  cbn [length app].
  eapply bind_ok_eq; [by apply (run_load_new _ _ _ 3%nat)|].
  eapply bind_ok_eq; [by apply (run_load_new _ _ _ 1%nat)|].
  eapply bind_ok_eq; [reflexivity|]; cbn [heap disk].
  eapply bind_ok_eq; [by apply (run_update_new _ _ _ 3%nat)|].
  cbn [list_insert insert].
  eapply bind_ok_eq; [by apply (run_load_new _ _ _ 3%nat)|].
  eapply bind_ok_eq; [reflexivity|]; cbn [heap disk].
  eapply bind_ok_eq; [by apply (run_load_new _ _ _ 2%nat)|].
  do 3 (eapply bind_ok_eq; [reflexivity|]; cbn [heap disk]).
  reflexivity.
Qed.

Lemma lookup_rvf_disk_012 path A R S d :
  rvf_disk path A R S d !! (path +:+ "/subresults/012_Filtering_Result.png")
  = Some (BGR (rvf_masked A)).
Proof.
  unfold rvf_disk. cbv zeta.
  do 11 (rewrite lookup_insert_ne by (by apply string_app_ne)).
  apply lookup_insert_eq.
Qed.
End PipelineFacts.

Section PipelineProperties.
Context {H W : nat} `{!Cv2 H W}.
Local Abbreviation img A := (raster H W A).
Implicit Types (h t : list (img pixel)) (d : gmap string (image H W)).
Implicit Types (A B R S D T : img pixel).

(** *** Files outside the result directory *)

Lemma wu_ret path {X} (a : X) : writes_under (H:=H) (W:=W) path (ret a).
Proof. by intros w f Hf. Qed.

Lemma wu_raise path {X} e : writes_under (H:=H) (W:=W) path (raise (A:=X) e).
Proof. by intros w f Hf. Qed.

Lemma wu_bind path {X Y} (m : M X) (k : X -> M Y) :
  writes_under (H:=H) (W:=W) path m ->
  (forall a, writes_under path (k a)) ->
  writes_under path (bind m k).
Proof.
  intros Hm Hk w f Hf. specialize (Hm w f Hf). unfold bind.
  destruct (m w) as [[a|e] w1]; simpl in *; [|done].
  by rewrite (Hk a w1 f Hf).
Qed.

Lemma wu_alloc path v : writes_under (H:=H) (W:=W) path (alloc v).
Proof. by intros w f Hf. Qed.

Lemma wu_load path l : writes_under (H:=H) (W:=W) path (load l).
Proof. intros w f Hf. unfold load. by case_match. Qed.

Lemma wu_update path l g : writes_under (H:=H) (W:=W) path (update l g).
Proof. intros w f Hf. unfold update. by case_match. Qed.

Lemma wu_np_copy path l : writes_under (H:=H) (W:=W) path (np_copy l).
Proof.
  unfold np_copy. apply wu_bind; [apply wu_load | intros v; apply wu_alloc].
Qed.

Lemma wu_py_div path a b : writes_under (H:=H) (W:=W) path (py_div a b).
Proof. unfold py_div. case_decide; [apply wu_raise | apply wu_ret]. Qed.

Lemma wu_imwrite path suffix (v : image H W) :
  writes_under path (imwrite (path +:+ suffix) v).
Proof.
  intros w f Hf. unfold imwrite. simpl.
  rewrite lookup_insert_ne; [done|]. intros Heq. by apply (Hf suffix).
Qed.

Lemma wu_for_each path {X} (xs : list X) (body : X -> M unit) :
  (forall x, writes_under (H:=H) (W:=W) path (body x)) ->
  writes_under path (for_each xs body).
Proof.
  intros Hbody. induction xs as [|x xs IH]; simpl.
  - apply wu_ret.
  - apply wu_bind; [apply Hbody | by intros _].
Qed.

Lemma wu_ppf_body path (g : img Z) (bl rl : loc) c :
  writes_under path (ppf_body g bl rl c).
Proof.
  unfold ppf_body. apply wu_bind; [apply wu_load|]. intros R.
  apply wu_update.
Qed.

Lemma wu_rvf_body path (bin gm : img Z) (l : loc) c :
  writes_under path (rvf_body bin gm l c).
Proof.
  unfold rvf_body. apply wu_bind; [apply wu_py_div|]. intros ratio.
  destruct (Qltb _ ratio); [apply wu_update|].
  apply wu_bind; [apply wu_py_div|]. intros cov.
  destruct (Qltb _ cov); [apply wu_update | apply wu_ret].
Qed.

Ltac wu_prim :=
  first
    [ apply wu_np_copy | apply wu_alloc | apply wu_load | apply wu_imwrite
    | apply wu_update
    | apply wu_for_each; intros ?;
      first [ apply wu_ppf_body | apply wu_rvf_body ] ].

Ltac wu_steps :=
  repeat (cbv zeta;
          first [ apply wu_bind; [ wu_prim | intros ? ] | apply wu_ret ]).

Lemma wu_privatePropertyFiltering path (a b r : loc) :
  writes_under path (privatePropertyFiltering a b r path).
Proof. unfold privatePropertyFiltering. wu_steps. Qed.

Lemma wu_structureFiltering path (a s : loc) :
  writes_under path (structureFiltering a s path).
Proof. unfold structureFiltering. wu_steps. Qed.

Lemma wu_routeAndVegFiltering path (a r s : loc) :
  writes_under path (routeAndVegFiltering a r s path).
Proof. unfold routeAndVegFiltering. wu_steps. Qed.

(** *** The loop of [routeAndVegFiltering] on a contour with an empty fill *)

Lemma totalPixelCount_zero (bin : img Z) c :
  totalPixelCount bin c = 0 <-> forall i j, filled c i j = false.
Proof.
  unfold totalPixelCount. rewrite countNonZero_zero.
  split; intros Hall i j; specialize (Hall i j);
    rewrite px_contour_mask in *; by destruct (filled c i j).
Qed.

Lemma run_rvf_body_zero (bin gm : img Z) (l : loc) c (w : world H W) :
  totalPixelCount bin c = 0 ->
  rvf_body bin gm l c w = (Raise ZeroDivisionError, w).
Proof.
  intros Hz. unfold rvf_body. cbv zeta. fold (totalPixelCount bin c).
  rewrite Hz. unfold bind, py_div. by rewrite decide_True.
Qed.

Lemma run_rvf_loop_raise (bin gm : img Z) pre c post h t d k D :
  t !! k = Some D ->
  (forall c', c' ∈ pre -> totalPixelCount bin c' <> 0) ->
  totalPixelCount bin c = 0 ->
  for_each (pre ++ c :: post) (rvf_body bin gm (length h + k)%nat)
    (World (h ++ t) d)
  = (Raise ZeroDivisionError,
     World (h ++ <[k := foldl (rvf_step bin gm) D pre]> t) d).
Proof.
  intros Hk Hnz Hz. revert t D Hk.
  induction pre as [|c' pre IH]; intros t D Hk; simpl.
  - unfold bind. rewrite run_rvf_body_zero by done.
    by rewrite list_insert_id.
  - eapply bind_ok_eq.
    { apply run_rvf_body; [done|]. apply Hnz. left. }
    pose proof (lookup_lt_Some _ _ _ Hk) as Hlt.
    rewrite (IH (fun c0 Hc0 => Hnz c0 (list_elem_of_further _ _ _ Hc0))
               _ (rvf_step bin gm D c')).
    + by rewrite list_insert_insert_eq.
    + by apply list_lookup_insert_eq.
Qed.

(** X6.  [structureFiltering] (lines 116-157) hands back a new array: the
    map it was given with red [(0,0,255)] at every position where the
    HSV triple of the structures raster lies within (10,50,50)-(60,255,255),
    and the map's own pixel everywhere else.  The same raster is the
    content of [007_Structures_Removed.png]. *)
Theorem structureFiltering_reddens_yellow_band
    (a s : loc) (path : string) (w : world H W) A S :
  heap w !! a = Some A -> heap w !! s = Some S ->
  exists result,
    fst (structureFiltering a s path w) = Ok (length (heap w))
    /\ heap (snd (structureFiltering a s path w)) !! length (heap w)
       = Some result
    /\ disk (snd (structureFiltering a s path w))
         !! (path +:+ "/subresults/007_Structures_Removed.png")
       = Some (BGR result)
    /\ forall i j,
         px result i j
         = if in_bounds (10, 50, 50) (60, 255, 255)
                (px (cvtColor_BGR2HSV S) i j)
           then (0, 0, 255) else px A i j.
Proof.
  intros Ha Hs. destruct w as [h d]. simpl in Ha, Hs.
  exists (sf_result A S).
  rewrite (run_structureFiltering a s path h d A S Ha Hs). simpl.
  split; [done|]. split; [by rewrite list_lookup_middle|].
  split; [apply lookup_insert_eq | apply px_sf_result].
Qed.

(** X7.  The first step of [routeAndVegFiltering] (lines 167-200) turns
    white every base-map pixel that lies in one of the three BGR ranges
    (200,215,230)-(210,230,240), (205,230,210)-(220,255,235) and
    (250,235,215)-(255,245,225), and keeps every other pixel: the lines
    are erased, the rest of the map stays.  [012_Filtering_Result.png]
    shows that raster. *)
Theorem rvf_whitens_line_colours
    (a r s : loc) (path : string) (w : world H W) A R S :
  heap w !! a = Some A -> heap w !! r = Some R -> heap w !! s = Some S ->
  (forall c, c ∈ rvf_contours A -> exists i j, filled c i j = true) ->
  exists masked,
    disk (snd (routeAndVegFiltering a r s path w))
      !! (path +:+ "/subresults/012_Filtering_Result.png")
    = Some (BGR masked)
    /\ forall i j,
         px masked i j
         = if in_bounds (200, 215, 230) (210, 230, 240) (px A i j)
              || in_bounds (205, 230, 210) (220, 255, 235) (px A i j)
              || in_bounds (250, 235, 215) (255, 245, 225) (px A i j)
           then (255, 255, 255) else px A i j.
Proof.
  intros Ha Hr Hs Hfill. destruct w as [h d]. simpl in Ha, Hr, Hs.
  exists (rvf_masked A).
  rewrite (run_routeAndVegFiltering_disk a r s path h d A R S Ha Hr Hs).
  - simpl. split; [apply lookup_rvf_disk_012 | apply px_rvf_masked].
  - intros c Hc. apply Hfill, (totalPixelCount_pos (rvf_routes R)) in Hc.
    lia.
Qed.

(** X8.  The loop of [routeAndVegFiltering] divides by the pixel count of
    the contour's fill without a guard (lines 279-284).  At the first
    contour whose fill is empty it raises [ZeroDivisionError]: the map
    keeps what the contours before it painted, and the contours after it
    are not looked at. *)
Theorem rvf_loop_stops_at_empty_fill
    (bin gm : img Z) (l : loc) (pre post : list contour) (c : contour)
    (w : world H W) D :
  heap w !! l = Some D ->
  (forall c', c' ∈ pre -> exists i j, filled c' i j = true) ->
  (forall i j, filled c i j = false) ->
  for_each (pre ++ c :: post) (rvf_body bin gm l) w
  = (Raise ZeroDivisionError,
     World (<[l := foldl (rvf_step bin gm) D pre]> (heap w)) (disk w)).
Proof.
  intros Hl Hpre Hc. destruct w as [h d]. simpl in Hl.
  apply (run_rvf_loop_raise bin gm pre c post [] h d l D Hl).
  - intros c' Hc'. apply Hpre, (totalPixelCount_pos bin) in Hc'. lia.
  - by apply totalPixelCount_zero.
Qed.

(** X9.  The two entry points [segmentAM] and [segmentAM_noStructures]
    (lines 353-411) leave every array that was in the store at the call
    with the pixels it had, whether they return or raise: the filters
    they chain work on copies only. *)
Theorem entry_points_leave_callers_rasters
    (w : world H W) (path : string) (l : loc) v :
  heap w !! l = Some v ->
  (forall base roads bnd routes sat : loc,
      heap (snd (segmentAM base roads bnd routes sat path w)) !! l = Some v)
  /\ (forall base structures bnd routes sat : loc,
         heap (snd (segmentAM_noStructures base structures bnd routes sat
                      path w)) !! l = Some v).
Proof.
  intros Hl. split; intros.
  - eapply (frames_lookup (fun _ => True)); [|done].
    unfold segmentAM.
    eapply frames_bind; [apply frames_privatePropertyFiltering|].
    intros l1 _. eapply frames_bind; [apply frames_routeAndVegFiltering|].
    intros final _. eapply frames_bind; [apply frames_imwrite|].
    intros _ _. by apply frames_ret.
  - eapply (frames_lookup (fun _ => True)); [|done].
    unfold segmentAM_noStructures.
    eapply frames_bind; [apply frames_privatePropertyFiltering|].
    intros l1 _. eapply frames_bind; [apply frames_structureFiltering|].
    intros l2 _. eapply frames_bind; [apply frames_routeAndVegFiltering|].
    intros final _. eapply frames_bind; [apply frames_imwrite|].
    intros _ _. by apply frames_ret.
Qed.

(** X10.  What the two entry points leave in [segmented.jpg] (lines
    353-411).  [segmentAM] writes the raster [routeAndVegFiltering] makes
    of the map that [privatePropertyFiltering] handed back;
    [segmentAM_noStructures] writes the one made of that map after
    [structureFiltering] has set to red the positions where the
    structures raster lies in its HSV band.  When no pixel of the
    structures raster lies in the band, the two files hold the same
    raster. *)
Theorem segmented_jpg_contents
    (base roads structures bnd routes sat : loc) (path : string)
    (w : world H W) A T B R S :
  (forall m c, c ∈ findContours m -> exists i j, filled c i j = true) ->
  heap w !! base = Some A -> heap w !! structures = Some T ->
  heap w !! bnd = Some B -> heap w !! routes = Some R ->
  heap w !! sat = Some S ->
  let A1 := ppf_recolor (ppf_drawn B R (ppf_contours B)) A in
  exists A2,
    disk (snd (segmentAM base roads bnd routes sat path w))
      !! (path +:+ "/segmented.jpg")
    = Some (GRAY (rvf_binary (rvf_drawn A1 R S)))
    /\ disk (snd (segmentAM_noStructures base structures bnd routes sat
                    path w))
         !! (path +:+ "/segmented.jpg")
       = Some (GRAY (rvf_binary (rvf_drawn A2 R S)))
    /\ (forall i j,
           px A2 i j
           = if in_bounds (10, 50, 50) (60, 255, 255)
                  (px (cvtColor_BGR2HSV T) i j)
             then (0, 0, 255) else px A1 i j)
    /\ ((forall i j,
            in_bounds (10, 50, 50) (60, 255, 255)
              (px (cvtColor_BGR2HSV T) i j) = false) ->
        A2 = A1).
Proof.
  intros Hfill Ha Ht Hb Hr Hs A1. destruct w as [h d].
  simpl in Ha, Ht, Hb, Hr, Hs.
  assert (Hnz : forall X c,
             c ∈ rvf_contours X -> totalPixelCount (rvf_routes R) c <> 0).
  { intros X c Hc. unfold rvf_contours in Hc.
    eapply totalPixelCount_nonzero; [|exact Hc].
    intros c' Hc'. by eapply Hfill. }
  pose proof (run_privatePropertyFiltering base bnd routes path h d A B R
                Ha Hb Hr) as Hppf.
  fold A1 in Hppf.
  set (h1 := h ++ [A1; ppf_drawn B R (ppf_contours B); R]) in *.
  assert (Hl1 : h1 !! length h = Some A1) by (by apply list_lookup_middle).
  assert (Hr1 : h1 !! routes = Some R) by (by apply lookup_app_l_Some).
  assert (Hs1 : h1 !! sat = Some S) by (by apply lookup_app_l_Some).
  assert (Ht1 : h1 !! structures = Some T) by (by apply lookup_app_l_Some).
  exists (sf_result A1 T). split; [|split; [|split]].
  - unfold segmentAM.
    erewrite bind_ok_eq; [|exact Hppf|].
    2:{ eapply bind_ok_eq.
        - apply (run_routeAndVegFiltering_disk (length h) routes sat path
                   h1 _ A1 R S Hl1 Hr1 Hs1), Hnz.
        - reflexivity. }
    simpl. apply lookup_insert_eq.
  - pose proof (run_structureFiltering (length h) structures path h1
                  (ppf_disk path A B R d) A1 T Hl1 Ht1) as Hsf.
    set (h2 := h1 ++ [sf_result A1 T; T]) in *.
    assert (Hl2 : h2 !! length h1 = Some (sf_result A1 T))
      by (by apply list_lookup_middle).
    assert (Hr2 : h2 !! routes = Some R) by (by apply lookup_app_l_Some).
    assert (Hs2 : h2 !! sat = Some S) by (by apply lookup_app_l_Some).
    unfold segmentAM_noStructures.
    erewrite bind_ok_eq; [|exact Hppf|].
    2:{ eapply bind_ok_eq; [exact Hsf|].
        eapply bind_ok_eq.
        - apply (run_routeAndVegFiltering_disk (length h1) routes sat path
                   h2 _ (sf_result A1 T) R S Hl2 Hr2 Hs2), Hnz.
        - reflexivity. }
    simpl. apply lookup_insert_eq.
  - intros i j. apply px_sf_result.
  - intros Hno. apply raster_eq. intros i j.
    by rewrite px_sf_result, Hno.
Qed.

(** X11.  The map that [routeAndVegFiltering] binarises into its result
    (lines 202-341) is the noise-reduced map with red [(0,0,255)] at every
    position covered by the fill of a kept contour that the loop
    classified as road or vegetation, and the noise-reduced pixel
    elsewhere.  The loop paints nothing but red, so the order of the
    contours plays no part. *)
Theorem rvf_result_is_binarised_painted_map
    (a r s : loc) (path : string) (w : world H W) A R S :
  heap w !! a = Some A -> heap w !! r = Some R -> heap w !! s = Some S ->
  (forall c, c ∈ rvf_contours A -> exists i j, filled c i j = true) ->
  exists D,
    fst (routeAndVegFiltering a r s path w) = Ok (rvf_binary D)
    /\ (forall i j,
           px D i j
           = if existsb
                  (fun c =>
                     (Qltb (1 # 1000)
                        (inject_Z (whitePixelCount (rvf_routes R) c)
                         / inject_Z (totalPixelCount (rvf_routes R) c))
                      || Qltb (1 # 10)
                           (inject_Z (greenPixelCount (rvf_green S) c)
                            / inject_Z (totalPixelCount (rvf_routes R) c)))
                     && filled c i j)
                  (rvf_contours A)
             then (0, 0, 255)
             else px (bilateralFilter (rvf_masked A) 5 255 255) i j)
    /\ forall cs',
         cs' ≡ₚ rvf_contours A ->
         foldl (rvf_step (rvf_routes R) (rvf_green S)) (rvf_filtered A) cs'
         = D.
Proof.
  intros Ha Hr Hs Hfill. destruct w as [h d]. simpl in Ha, Hr, Hs.
  exists (rvf_drawn A R S).
  rewrite (run_routeAndVegFiltering_disk a r s path h d A R S Ha Hr Hs).
  2:{ intros c Hc. apply Hfill, (totalPixelCount_pos (rvf_routes R)) in Hc.
      lia. }
  simpl. split; [done|]. split.
  - intros i j. unfold rvf_drawn. by rewrite px_rvf_loop.
  - intros cs' Hperm. apply raster_eq. intros i j.
    unfold rvf_drawn. rewrite !px_rvf_loop. unfold rvf_painted.
    assert (Heq : existsb
                    (fun c => rvf_paints (rvf_routes R) (rvf_green S) c
                              && filled c i j) cs'
                  = existsb
                      (fun c => rvf_paints (rvf_routes R) (rvf_green S) c
                                && filled c i j) (rvf_contours A)).
    { apply eq_true_iff_eq. rewrite !existsb_exists.
      split; intros (c & Hc & Hp); exists c; split; try done;
        apply list_elem_of_In; apply list_elem_of_In in Hc;
        by rewrite ?Hperm in *. }
    by rewrite Heq.
Qed.

(** X12.  No filter and no entry point of [segmentation.py] changes a
    file whose name does not start with the result path it was given,
    whether it returns or raises: every [cv2.imwrite] goes to
    [pathResult + ..]. *)
Theorem pipeline_writes_under_result_path (path : string) :
  (forall a b r : loc,
      writes_under (H:=H) (W:=W) path (privatePropertyFiltering a b r path))
  /\ (forall a s : loc, writes_under path (structureFiltering a s path))
  /\ (forall a r s : loc, writes_under path (routeAndVegFiltering a r s path))
  /\ (forall base roads bnd routes sat : loc,
         writes_under path (segmentAM base roads bnd routes sat path))
  /\ (forall base structures bnd routes sat : loc,
         writes_under path
           (segmentAM_noStructures base structures bnd routes sat path)).
Proof.
  split; [intros; apply wu_privatePropertyFiltering|].
  split; [intros; apply wu_structureFiltering|].
  split; [intros; apply wu_routeAndVegFiltering|].
  split; intros.
  - unfold segmentAM.
    apply wu_bind; [apply wu_privatePropertyFiltering|]. intros l1.
    apply wu_bind; [apply wu_routeAndVegFiltering|]. intros final.
    apply wu_bind; [apply wu_imwrite | intros _; apply wu_ret].
  - unfold segmentAM_noStructures.
    apply wu_bind; [apply wu_privatePropertyFiltering|]. intros l1.
    apply wu_bind; [apply wu_structureFiltering|]. intros l2.
    apply wu_bind; [apply wu_routeAndVegFiltering|]. intros final.
    apply wu_bind; [apply wu_imwrite | intros _; apply wu_ret].
Qed.
End PipelineProperties.

Section PipelineExamples.
Local Existing Instance Sample.cv.
Import Sample Sample2.

Lemma sample_kept_contours_filled (X : raster 16 16 pixel) (c : contour) :
  c ∈ rvf_contours X -> exists i j : fin 16, filled c i j = true.
Proof.
  intros Hc. apply elem_of_area_filter in Hc as [Hc _].
  by eapply sample_contours_filled.
Qed.

Lemma structureFiltering_reddens_yellow_band_witness :
  let w := World [blank; one_structure] ∅ in
  exists result,
    heap (snd (structureFiltering 0%nat 1%nat "out" w)) !! 2%nat = Some result
    /\ px result 1%fin 1%fin = red
    /\ px result 0%fin 0%fin = white.
Proof.
  intros w.
  destruct (structureFiltering_reddens_yellow_band 0%nat 1%nat "out" w
              blank one_structure eq_refl eq_refl)
    as (result & _ & Hl & _ & Hpx).
  exists result. split; [exact Hl|]. rewrite !Hpx. clear.
  split; vm_compute; reflexivity.
Defined.

Lemma rvf_whitens_line_colours_witness :
  let w := World [lined; green_route; blank] ∅ in
  exists masked,
    disk (snd (routeAndVegFiltering 0%nat 1%nat 2%nat "out" w))
      !! "out/subresults/012_Filtering_Result.png"
    = Some (BGR masked)
    /\ px lined 0%fin 0%fin = (205, 220, 235)
    /\ px masked 0%fin 0%fin = white.
Proof.
  intros w.
  destruct (rvf_whitens_line_colours 0%nat 1%nat 2%nat "out" w
              lined green_route blank eq_refl eq_refl eq_refl
              (sample_kept_contours_filled lined))
    as (masked & Hfile & Hpx).
  exists masked. split; [exact Hfile|]. rewrite Hpx. clear.
  split; vm_compute; reflexivity.
Defined.

Lemma rvf_loop_stops_at_empty_fill_witness :
  for_each ([region] ++ [] :: [speck]) (rvf_body one_route none_set 0%nat)
    (World [blank] ∅)
  = (Raise ZeroDivisionError,
     World
       (<[0%nat := foldl (rvf_step one_route none_set) blank [region]]>
          [blank]) ∅).
Proof.
  apply (rvf_loop_stops_at_empty_fill one_route none_set 0%nat
           [region] [speck] [] (World [blank] ∅) blank eq_refl).
  - intros c Hc. apply list_elem_of_singleton in Hc as ->.
    exists 6%fin, 6%fin. by vm_compute.
  - intros i j. reflexivity.
Defined.

Lemma entry_points_leave_callers_rasters_witness :
  let w := World [blank; blank; blank; green_route; blank] ∅ in
  heap (snd (segmentAM 0%nat 1%nat 2%nat 3%nat 4%nat "out" w)) !! 3%nat
  = Some green_route.
Proof.
  intros w.
  exact (proj1 (entry_points_leave_callers_rasters w "out" 3%nat green_route
                  eq_refl) 0%nat 1%nat 2%nat 3%nat 4%nat).
Defined.

Lemma segmented_jpg_contents_witness :
  let w := World [blank; blank; blank; green_route; blank] ∅ in
  disk (snd (segmentAM_noStructures 0%nat 1%nat 2%nat 3%nat 4%nat "out" w))
    !! "out/segmented.jpg"
  = disk (snd (segmentAM 0%nat 1%nat 2%nat 3%nat 4%nat "out" w))
      !! "out/segmented.jpg".
Proof.
  intros w.
  destruct (segmented_jpg_contents 0%nat 1%nat 1%nat 2%nat 3%nat 4%nat
              "out" w blank blank blank green_route blank
              sample_contours_filled eq_refl eq_refl eq_refl eq_refl eq_refl)
    as (A2 & Hseg & Hno & _ & Hsame).
  rewrite Hsame in Hno.
  - exact (eq_trans Hno (eq_sym Hseg)).
  - intros i j. change (cvtColor_BGR2HSV blank) with blank.
    unfold blank. by rewrite px_tabulate.
Defined.

Lemma rvf_result_is_binarised_painted_map_witness :
  let w := World [blank; green_route; blank] ∅ in
  exists D,
    fst (routeAndVegFiltering 0%nat 1%nat 2%nat "out" w) = Ok (rvf_binary D)
    /\ px D 6%fin 6%fin = red
    /\ px D 15%fin 15%fin = white.
Proof.
  intros w.
  destruct (rvf_result_is_binarised_painted_map 0%nat 1%nat 2%nat "out" w
              blank green_route blank eq_refl eq_refl eq_refl
              (sample_kept_contours_filled blank))
    as (D & Hret & Hpx & _).
  exists D. split; [exact Hret|]. rewrite !Hpx. clear.
  split; vm_compute; reflexivity.
Defined.
End PipelineExamples.

(** ** The tile fetchers *)

(** *** File names of tiles *)

Lemma occurs_app (c : Ascii.ascii) (s1 s2 : string) :
  occurs c (s1 +:+ s2) = occurs c s1 || occurs c s2.
Proof.
  induction s1 as [|a s1 IH]; simpl; [done|].
  by rewrite IH, orb_assoc.
Qed.

Lemma occurs_pretty_N_go (c : Ascii.ascii) (x : N) (s : string) :
  (forall n, pretty_N_char n <> c) ->
  occurs c s = false -> occurs c (pretty_N_go x s) = false.
Proof.
  intros Hc. revert s. induction (N.lt_wf_0 x) as [x _ IH]; intros s Hs.
  assert (x = 0 \/ 0 < x)%N as [->|Hpos] by lia.
  - by rewrite pretty_N_go_0.
  - rewrite pretty_N_go_step by done. apply IH.
    { by apply N.div_lt. }
    cbn [occurs]. rewrite Hs, orb_false_r.
    apply Ascii.eqb_neq, Hc.
Qed.

Lemma occurs_pretty_N (c : Ascii.ascii) (x : N) :
  (forall n, pretty_N_char n <> c) -> occurs c (pretty x) = false.
Proof.
  intros Hc. unfold pretty, pretty_N. case_decide.
  - cbn [occurs]. rewrite orb_false_r. apply Ascii.eqb_neq, (Hc 0%N).
  - by apply occurs_pretty_N_go.
Qed.

Lemma occurs_pretty_Z (c : Ascii.ascii) (x : Z) :
  (forall n, pretty_N_char n <> c) -> c <> "-"%char ->
  occurs c (pretty x) = false.
Proof.
  intros Hc Hdash. destruct x as [|p|p].
  - change (pretty 0) with "0". cbn [occurs].
    rewrite orb_false_r. apply Ascii.eqb_neq, (Hc 0%N).
  - change (pretty (Z.pos p)) with (pretty (N.pos p)).
    by apply occurs_pretty_N.
  - change (pretty (Z.neg p)) with (String "-" (pretty (N.pos p))).
    cbn [occurs].
    rewrite (occurs_pretty_N c (N.pos p) Hc), orb_false_r.
    apply Ascii.eqb_neq. congruence.
Qed.

Lemma pretty_N_char_ne_underscore n : pretty_N_char n <> "_"%char.
Proof. unfold pretty_N_char. by repeat case_match. Qed.

Lemma pretty_N_char_ne_dot n : pretty_N_char n <> "."%char.
Proof. unfold pretty_N_char. by repeat case_match. Qed.

(** Two strings cut at the first occurrence of a separator. *)
Lemma string_sep_inj (c : Ascii.ascii) (s1 s2 r1 r2 : string) :
  occurs c s1 = false -> occurs c s2 = false ->
  s1 +:+ String c r1 = s2 +:+ String c r2 -> s1 = s2 /\ r1 = r2.
Proof.
  revert s2. induction s1 as [|a s1 IH]; intros [|b s2]; simpl.
  - by intros _ _ [= ->].
  - intros _ Hb [= <- _]. by rewrite Ascii.eqb_refl in Hb.
  - intros Ha _ [= -> _]. by rewrite Ascii.eqb_refl in Ha.
  - intros Ha Hb [= -> Heq].
    apply orb_false_iff in Ha as [_ Ha]. apply orb_false_iff in Hb as [_ Hb].
    destruct (IH s2 Ha Hb Heq) as [-> ->]. done.
Qed.

Lemma tile_file_inj (outputDir : string) (t t' : Z * Z) :
  tile_file outputDir t = tile_file outputDir t' -> t = t'.
Proof.
  destruct t as [x y], t' as [x' y']. unfold tile_file. simpl.
  intros Heq. apply string_app_inj in Heq. injection Heq as Heq.
  apply (string_sep_inj "_") in Heq as [Hx Heq];
    [|by apply occurs_pretty_Z; [apply pretty_N_char_ne_underscore|]..].
  apply (string_sep_inj "." _ _ "png" "png") in Heq as [Hy _];
    [|by apply occurs_pretty_Z; [apply pretty_N_char_ne_dot|]..].
  apply (inj pretty) in Hx, Hy. by subst.
Qed.

(** *** The index ranges *)

Lemma elem_of_py_range (a b x : Z) : x ∈ py_range a b <-> a <= x < b.
Proof.
  unfold py_range. rewrite list_elem_of_fmap. split.
  - intros (k & -> & Hk). apply elem_of_seq in Hk. lia.
  - intros Hx. exists (Z.to_nat (x - a)). split; [lia|].
    apply elem_of_seq. lia.
Qed.

Lemma NoDup_py_range (a b : Z) : NoDup (py_range a b).
Proof.
  unfold py_range. apply NoDup_fmap_2_strong; [|apply NoDup_seq].
  intros k1 k2 _ _ Heq. lia.
Qed.

Lemma length_py_range (a b : Z) : length (py_range a b) = Z.to_nat (b - a).
Proof. unfold py_range. by rewrite length_fmap, length_seq. Qed.

Lemma elem_of_tile_indices (xMin xMax yMin yMax x y : Z) :
  (x, y) ∈ tile_indices xMin xMax yMin yMax
  <-> xMin <= x <= xMax /\ yMin <= y <= yMax.
Proof.
  unfold tile_indices. rewrite list_elem_of_bind. split.
  - intros (x' & Hy & Hx). apply list_elem_of_fmap in Hy as (y' & [= -> ->] & Hy).
    apply elem_of_py_range in Hx, Hy. lia.
  - intros [Hx Hy]. exists x. split.
    + apply list_elem_of_fmap. exists y. split; [done|].
      apply elem_of_py_range. lia.
    + apply elem_of_py_range. lia.
Qed.

Lemma NoDup_tile_indices (xMin xMax yMin yMax : Z) :
  NoDup (tile_indices xMin xMax yMin yMax).
Proof.
  unfold tile_indices. apply NoDup_bind; [| |apply NoDup_py_range].
  - intros x1 x2 [x y] _ _ H1 H2.
    apply list_elem_of_fmap in H1 as (y1 & [= -> ->] & _).
    apply list_elem_of_fmap in H2 as (y2 & [= -> _] & _). done.
  - intros x _. apply NoDup_fmap_2_strong; [|apply NoDup_py_range].
    by intros y1 y2 _ _ [= ->].
Qed.

Lemma length_tile_indices (xMin xMax yMin yMax : Z) :
  xMin <= xMax -> yMin <= yMax ->
  Z.of_nat (length (tile_indices xMin xMax yMin yMax))
  = (xMax - xMin + 1) * (yMax - yMin + 1).
Proof.
  intros Hx Hy. unfold tile_indices.
  assert (Hlen : forall xs : list Z,
             length (xs ≫= fun x => (fun y => (x, y))
                                       <$> py_range yMin (yMax + 1))
             = (length xs * Z.to_nat (yMax + 1 - yMin))%nat).
  { induction xs as [|x xs IH]; [done|].
    simpl. rewrite length_app, length_fmap, length_py_range. f_equal.
    exact IH. }
  rewrite Hlen, length_py_range. lia.
Qed.

Lemma foldl_tile_indices {S} (step : Z -> Z -> S -> S)
    (xMin xMax yMin yMax : Z) (s : S) :
  foldl (fun s x => foldl (fun s y => step x y s) s (py_range yMin (yMax + 1)))
    s (py_range xMin (xMax + 1))
  = foldl (fun s t => step (fst t) (snd t) s) s
      (tile_indices xMin xMax yMin yMax).
Proof.
  unfold tile_indices. generalize (py_range xMin (xMax + 1)) as xs.
  generalize (py_range yMin (yMax + 1)) as ys. intros ys xs. revert s.
  induction xs as [|x xs IH]; intros s; [done|].
  simpl. rewrite foldl_app, <- IH. f_equal.
  by rewrite foldl_fmap.
Qed.

(** *** A loop of requests *)

Section TileFacts.
Variable requests_get_stream :
  string -> list (string * string) -> stream_outcome.
Variable str_HTTPError : Z -> string -> string.
Implicit Types (o : os) (t : Z * Z) (ts : list (Z * Z)).

Local Abbreviation body := (tile_body requests_get_stream).
Local Abbreviation error := (tile_error requests_get_stream str_HTTPError).
Local Abbreviation pass := (tile_pass requests_get_stream str_HTTPError).

Lemma fs_tile_pass headers url file line o f :
  fs (pass headers url file line o) !! f
  = if decide (f = file)
    then match body url headers with
         | Some content => Some content
         | None => fs o !! f
         end
    else fs o !! f.
Proof.
  unfold tile_pass, tile_body. cbv zeta.
  destruct (requests_get_stream url headers) as [st chunks broken|e];
    [|by case_decide].
  destruct ((400 <=? st) && (st <? 600)); [by case_decide|].
  rewrite write_chunks.
  assert (Hfs : fs match broken with
                   | Some e =>
                       print [line e]
                         (Os (<[file := mjoin chunks]> (fs o)) (stdout o))
                   | None => Os (<[file := mjoin chunks]> (fs o)) (stdout o)
                   end
                = <[file := mjoin chunks]> (fs o)) by (by destruct broken).
  rewrite Hfs. case_decide as Hf.
  - subst f. apply lookup_insert_eq.
  - by apply lookup_insert_ne.
Qed.

Lemma stdout_tile_pass headers url file line o :
  stdout (pass headers url file line o)
  = stdout o
      ++ match error url headers with Some e => [line e] | None => [] end.
Proof.
  unfold tile_pass, tile_error. cbv zeta.
  destruct (requests_get_stream url headers) as [st chunks broken|e];
    [|done].
  destruct ((400 <=? st) && (st <? 600)); [done|].
  rewrite write_chunks. destruct broken as [e|]; simpl; [done|].
  by rewrite app_nil_r.
Qed.

Lemma tile_loop headers outputDir (url_of : Z * Z -> string)
    (line_of : Z * Z -> string -> string) ts o :
  NoDup ts ->
  tile_loop_outcome requests_get_stream str_HTTPError headers outputDir
    url_of line_of ts o
    (foldl (fun o t =>
              pass headers (url_of t) (tile_file outputDir t) (line_of t) o)
       o ts).
Proof.
  intros Hnd. revert o. induction Hnd as [|t ts Hnotin Hnd IH]; intros o.
  - split; [|split]; simpl.
    + intros t Ht. by apply elem_of_nil in Ht.
    + done.
    + by rewrite app_nil_r.
  - simpl.
    set (o1 := pass headers (url_of t) (tile_file outputDir t) (line_of t) o).
    destruct (IH o1) as (Htile & Hframe & Hout).
    assert (Hother : forall t', t' ∈ ts ->
               tile_file outputDir t <> tile_file outputDir t').
    { intros t' Ht' Heq. apply tile_file_inj in Heq. by subst. }
    split; [|split].
    + intros t0 Ht0. apply elem_of_cons in Ht0 as [-> | Ht0].
      * rewrite Hframe by done. unfold o1.
        rewrite fs_tile_pass. by rewrite decide_True.
      * rewrite (Htile t0 Ht0). unfold o1. rewrite fs_tile_pass.
        rewrite decide_False; [done|]. intros Heq. by apply (Hother t0).
    + intros f Hf. rewrite Hframe.
      * unfold o1. rewrite fs_tile_pass. rewrite decide_False; [done|].
        apply Hf. left.
      * intros t' Ht'. apply Hf. by right.
    + rewrite Hout. unfold o1. rewrite stdout_tile_pass, <- app_assoc.
      cbn [omap list_omap].
      by destruct (error (url_of t) headers).
Qed.
End TileFacts.

(** *** The three tile fetchers *)

Section TileProperties.
Context {float : Type}.
Variable col_of : float -> Z -> num_error + Z.
Variable row_of : float -> Z -> num_error + Z.
Variable x_tile : float -> num_error + Z.
Variable y_tile : float -> num_error + Z.
Variable requests_get_stream :
  string -> list (string * string) -> stream_outcome.
Variable str_HTTPError : Z -> string -> string.

Lemma deg2tileNum_inr latDeg1 latDeg2 lonDeg1 lonDeg2 zoom xMin xMax yMin yMax :
  deg2tileNum float col_of row_of latDeg1 latDeg2 lonDeg1 lonDeg2 zoom
  = inr (xMin, xMax, yMin, yMax) ->
  0 <= zoom
  /\ exists x1 y1 x2 y2,
       col_of lonDeg1 (Z.shiftl 1 zoom) = inr x1
       /\ row_of latDeg1 (Z.shiftl 1 zoom) = inr y1
       /\ col_of lonDeg2 (Z.shiftl 1 zoom) = inr x2
       /\ row_of latDeg2 (Z.shiftl 1 zoom) = inr y2
       /\ xMin = Z.min x1 x2 /\ xMax = Z.max x1 x2
       /\ yMin = Z.min y1 y2 /\ yMax = Z.max y1 y2.
Proof.
  unfold deg2tileNum, shift_one.
  destruct (Z.ltb_spec zoom 0) as [Hneg|Hpos]; [done|].
  destruct (col_of lonDeg1 _) as [e|x1] eqn:Ex1; [done|].
  destruct (row_of latDeg1 _) as [e|y1] eqn:Ey1; [done|].
  destruct (col_of lonDeg2 _) as [e|x2] eqn:Ex2; [done|].
  destruct (row_of latDeg2 _) as [e|y2] eqn:Ey2; [done|].
  intros [= <- <- <- <-]. split; [done|].
  by exists x1, y1, x2, y2.
Qed.

Lemma deg2tileNum_of_parts latDeg1 latDeg2 lonDeg1 lonDeg2 zoom x1 y1 x2 y2 :
  0 <= zoom ->
  col_of lonDeg1 (Z.shiftl 1 zoom) = inr x1 ->
  row_of latDeg1 (Z.shiftl 1 zoom) = inr y1 ->
  col_of lonDeg2 (Z.shiftl 1 zoom) = inr x2 ->
  row_of latDeg2 (Z.shiftl 1 zoom) = inr y2 ->
  deg2tileNum float col_of row_of latDeg1 latDeg2 lonDeg1 lonDeg2 zoom
  = inr (Z.min x1 x2, Z.max x1 x2, Z.min y1 y2, Z.max y1 y2).
Proof.
  intros Hz Hx1 Hy1 Hx2 Hy2. unfold deg2tileNum, shift_one.
  destruct (Z.ltb_spec zoom 0) as [Hneg|Hpos]; [lia|].
  by rewrite Hx1, Hy1, Hx2, Hy2.
Qed.

Lemma deg2tileNum_ordered latDeg1 latDeg2 lonDeg1 lonDeg2 zoom
    xMin xMax yMin yMax :
  deg2tileNum float col_of row_of latDeg1 latDeg2 lonDeg1 lonDeg2 zoom
  = inr (xMin, xMax, yMin, yMax) ->
  xMin <= xMax /\ yMin <= yMax.
Proof.
  intros Hd. apply deg2tileNum_inr in Hd
    as (_ & x1 & y1 & x2 & y2 & _ & _ & _ & _ & -> & -> & -> & ->).
  lia.
Qed.


(** X14.  [deg2tileNum] (dataprepGoogle.py and dataprepMapBox.py, lines
    10-49).  A negative zoom makes [1 << zoom] raise [ValueError].  When
    the function returns, the zoom is not negative, the bounds are
    ordered ([xMin <= xMax], [yMin <= yMax]), so that the tile count
    [(xMax - xMin + 1) * (yMax - yMin + 1)] is at least 1, and the result
    does not depend on which corner is given first: exchanging the two
    latitudes, the two longitudes or both gives the same bounds. *)
Theorem deg2tileNum_bounds
    (latDeg1 latDeg2 lonDeg1 lonDeg2 : float) (zoom : Z) :
  (zoom < 0 ->
   deg2tileNum float col_of row_of latDeg1 latDeg2 lonDeg1 lonDeg2 zoom
   = inl ValueError)
  /\ forall xMin xMax yMin yMax,
       deg2tileNum float col_of row_of latDeg1 latDeg2 lonDeg1 lonDeg2 zoom
       = inr (xMin, xMax, yMin, yMax) ->
       0 <= zoom /\ xMin <= xMax /\ yMin <= yMax
       /\ 1 <= (xMax - xMin + 1) * (yMax - yMin + 1)
       /\ deg2tileNum float col_of row_of latDeg2 latDeg1 lonDeg1 lonDeg2 zoom
          = inr (xMin, xMax, yMin, yMax)
       /\ deg2tileNum float col_of row_of latDeg1 latDeg2 lonDeg2 lonDeg1 zoom
          = inr (xMin, xMax, yMin, yMax)
       /\ deg2tileNum float col_of row_of latDeg2 latDeg1 lonDeg2 lonDeg1 zoom
          = inr (xMin, xMax, yMin, yMax).
Proof.
  split.
  - intros Hneg. unfold deg2tileNum, shift_one.
    by destruct (Z.ltb_spec zoom 0); [|lia].
  - intros xMin xMax yMin yMax Hd.
    pose proof (deg2tileNum_ordered _ _ _ _ _ _ _ _ _ Hd) as [Hx Hy].
    apply deg2tileNum_inr in Hd
      as (Hz & x1 & y1 & x2 & y2 & Hx1 & Hy1 & Hx2 & Hy2
          & -> & -> & -> & ->).
    split; [done|]. split; [done|]. split; [done|]. split; [nia|].
    split; [|split].
    + rewrite (deg2tileNum_of_parts latDeg2 latDeg1 lonDeg1 lonDeg2 zoom
                 x1 y2 x2 y1) by done.
      by rewrite (Z.min_comm y2), (Z.max_comm y2).
    + rewrite (deg2tileNum_of_parts latDeg1 latDeg2 lonDeg2 lonDeg1 zoom
                 x2 y1 x1 y2) by done.
      by rewrite (Z.min_comm x2), (Z.max_comm x2).
    + rewrite (deg2tileNum_of_parts latDeg2 latDeg1 lonDeg2 lonDeg1 zoom
                 x2 y2 x1 y1) by done.
      by rewrite (Z.min_comm x2), (Z.max_comm x2), (Z.min_comm y2),
        (Z.max_comm y2).
Qed.


End TileProperties.

Lemma deg2tileNum_bounds_witness :
  let col (lon n : Z) : num_error + Z := inr (lon * n) in
  let row (lat n : Z) : num_error + Z := inr (lat * n) in
  deg2tileNum Z col row 5 3 2 7 1 = inr (4, 14, 6, 10)
  /\ deg2tileNum Z col row 3 5 7 2 1 = inr (4, 14, 6, 10).
Proof.
  intros col row.
  assert (Hd : deg2tileNum Z col row 5 3 2 7 1 = inr (4, 14, 6, 10))
    by (by vm_compute).
  split; [exact Hd|].
  destruct (proj2 (deg2tileNum_bounds col row 5 3 2 7 1) 4 14 6 10 Hd)
    as (_ & _ & _ & _ & _ & _ & Hswap).
  exact Hswap.
Defined.

(** ** From the fetchers of [AMS/API.py] to [loadImages] *)

Section FeedFacts.
Context {float Img : Type}.
Variable str_float : float -> string.
Variable transform : string -> string -> float -> float -> float * float.
Variable requests_get : string -> list (string * string) -> http_outcome.
Variable decode : list Byte.byte -> option Img.

Lemma wms_fetch_feeds url path name report put o run :
  wms_fetch requests_get url (path +:+ name) report o run ->
  (forall content files,
      loadImages decode (<[path +:+ name := content]> files) path
      = put (decode content) (loadImages decode files path)) ->
  feeds decode requests_get url path put o run.
Proof.
  intros [params Hrun] Hput. exists params.
  destruct (requests_get url params) as [status_code content|e].
  - destruct Hrun as [H200 Hother].
    destruct (decide (status_code = 200)) as [Hst|Hst].
    + rewrite (H200 Hst). simpl. split; [done|]. split; [|done].
      intros _. apply Hput.
    + rewrite (Hother Hst). simpl. by split.
  - by rewrite Hrun.
Qed.

Ltac load_after_insert :=
  intros content files; unfold loadImages, imread;
  rewrite ?lookup_insert_eq;
  rewrite ?lookup_insert_ne by (by apply string_app_ne);
  rewrite ?lookup_insert_eq; reflexivity.

End FeedFacts.

(** ** The fetchers against sample servers *)




